(** * The SQLite note index of zk: a shallow embedding of [NoteDAO]

    The Go type [NoteDAO] persists notes and their links in SQLite and
    compiles [note.FinderOpts] into one SQL query.  This development
    models the tables as lists of rows, every prepared statement of
    [NewNoteDAO] as a function on that state, the Go methods as programs
    of a small state monad that threads the database (and the Go heap
    holding the one slice the code appends to), and the SQL text built by
    [findRows] as a plan whose fragments carry both their SQL rendering
    and their meaning on the tables. *)

From Stdlib Require Import ZArith List String Ascii Bool Lia DecimalString.
From Stdlib Require Import Sorted Permutation.
Import ListNotations.

Local Open Scope string_scope.
Local Open Scope list_scope.
Local Open Scope Z_scope.

Infix "+s+" := String.append (right associativity, at level 60).

(** ** Go and SQLite string primitives *)

Module Str.

(** [strings.HasPrefix]: the bytes of [p] open [s]. *)
Fixpoint HasPrefix (s p : string) : bool :=
  match p with
  | EmptyString => true
  | String a p' =>
      match s with
      | EmptyString => false
      | String b s' => (Ascii.eqb a b && HasPrefix s' p')%bool
      end
  end.

(** [strings.TrimPrefix]. *)
Definition TrimPrefix (s p : string) : string :=
  if HasPrefix s p then substring (length p) (length s - length p) s else s.

(** [strings.Join]. *)
Definition Join (l : list string) (sep : string) : string := String.concat sep l.

(** [strings.ReplaceAll s old new] for a non-empty [old]: the
    non-overlapping occurrences of [old], scanned from the left, become
    [new].  [skip] counts the remaining bytes of the occurrence that is
    being replaced. *)
Fixpoint replace_from (skip : nat) (old new s : string) : string :=
  match s with
  | EmptyString => EmptyString
  | String c s' =>
      match skip with
      | S k => replace_from k old new s'
      | O =>
          if HasPrefix s old
          then new +s+ replace_from (Nat.pred (length old)) old new s'
          else String c (replace_from O old new s')
      end
  end.

Definition ReplaceAll (s old new : string) : string := replace_from O old new s.

(** The byte [\x01] used as a separator by the DAO. *)
Definition x01 : string := String (ascii_of_nat 1) EmptyString.

(** The double quote as a one-byte string. *)
Definition dquote : string := String (ascii_of_nat 34) EmptyString.

(** [strconv.FormatInt(i, 10)]. *)
Definition FormatInt (i : Z) : string := NilZero.string_of_int (Z.to_int i).

(** The white space of [unicode.IsSpace], which [strings.TrimSpace]
    removes, in the UTF-8 bytes of a Go string.  In one byte: the tab, the
    line feed, the vertical tab, the form feed, the carriage return and
    the space. *)
Definition is_space (c : ascii) : bool :=
  let n := nat_of_ascii c in
  (Nat.eqb n 32 || (Nat.leb 9 n && Nat.leb n 13))%bool.

(** In two bytes: U+0085 (bytes C2 85) and U+00A0 (C2 A0). *)
Definition is_space2 (c1 c2 : ascii) : bool :=
  let n2 := nat_of_ascii c2 in
  (Nat.eqb (nat_of_ascii c1) 194 && (Nat.eqb n2 133 || Nat.eqb n2 160))%bool.

(** In three bytes: U+1680 (E1 9A 80), U+2000 to U+200A (E2 80 80 to
    E2 80 8A), U+2028, U+2029 and U+202F (E2 80 A8, A9, AF), U+205F
    (E2 81 9F) and U+3000 (E3 80 80). *)
Definition is_space3 (c1 c2 c3 : ascii) : bool :=
  let n1 := nat_of_ascii c1 in
  let n2 := nat_of_ascii c2 in
  let n3 := nat_of_ascii c3 in
  ((Nat.eqb n1 225 && Nat.eqb n2 154 && Nat.eqb n3 128)
   || (Nat.eqb n1 226 && Nat.eqb n2 128
       && ((Nat.leb 128 n3 && Nat.leb n3 138)
           || Nat.eqb n3 168 || Nat.eqb n3 169 || Nat.eqb n3 175))
   || (Nat.eqb n1 226 && Nat.eqb n2 129 && Nat.eqb n3 159)
   || (Nat.eqb n1 227 && Nat.eqb n2 128 && Nat.eqb n3 128))%bool.

(** The white space that opens [s] removed.  With [backwards] the bytes
    of [s] are read as those of a reversed text, the last byte of a
    character first: the white space that ends the text. *)
Fixpoint trim_from (backwards : bool) (s : string) : string :=
  match s with
  | String c s1 =>
      if is_space c then trim_from backwards s1
      else
        match s1 with
        | String c1 s2 =>
            if (if backwards then is_space2 c1 c else is_space2 c c1)
            then trim_from backwards s2
            else
              match s2 with
              | String c2 s3 =>
                  if (if backwards then is_space3 c2 c1 c else is_space3 c c1 c2)
                  then trim_from backwards s3
                  else s
              | EmptyString => s
              end
        | EmptyString => s
        end
  | EmptyString => EmptyString
  end.

Fixpoint rev_onto (s acc : string) : string :=
  match s with
  | EmptyString => acc
  | String c s' => rev_onto s' (String c acc)
  end.

Definition rev (s : string) : string := rev_onto s EmptyString.

(** [strings.TrimSpace]: the white space that opens the text and the
    white space that ends it removed. *)
Definition TrimSpace (s : string) : string :=
  rev (trim_from true (rev (trim_from false s))).

(** [contains_char c s]: the byte [c] occurs in [s]. *)
Fixpoint contains_char (c : ascii) (s : string) : bool :=
  match s with
  | EmptyString => false
  | String d s' => (Ascii.eqb c d || contains_char c s')%bool
  end.

(** SQLite folds the case of ASCII letters only when it compares the
    characters of a [LIKE] pattern. *)
Definition fold_case (c : ascii) : ascii :=
  let n := nat_of_ascii c in
  if (Nat.leb 65 n && Nat.leb n 90)%bool then ascii_of_nat (n + 32) else c.

Definition like_char (p c : ascii) : bool := Ascii.eqb (fold_case p) (fold_case c).

(** [any_suffix k s]: some suffix of [s] (possibly [s] itself or the empty
    one) satisfies [k]; what a [%] of a [LIKE] pattern leaves to the rest
    of the pattern. *)
Fixpoint any_suffix (k : string -> bool) (s : string) : bool :=
  (k s || match s with
          | EmptyString => false
          | String _ s' => any_suffix k s'
          end)%bool.

(** The SQLite operator [s LIKE pattern] without an ESCAPE clause: [%]
    matches any run of characters, [_] exactly one, any other
    character itself up to ASCII case.  Strings are sequences of
    one-byte characters here. *)
Fixpoint like (pattern s : string) : bool :=
  match pattern with
  | EmptyString => match s with EmptyString => true | _ => false end
  | String p pattern' =>
      if Ascii.eqb p "%"%char then any_suffix (like pattern') s
      else
        match s with
        | EmptyString => false
        | String c s' =>
            ((Ascii.eqb p "_"%char || like_char p c) && like pattern' s')%bool
        end
  end.

End Str.


(** ** Values of the Go program *)

(** [core.NoteId] is an [int64]; the ids met here are SQLite row ids. *)
Definition NoteId : Type := Z.

(** Modelled from the spec: [core.NoteId.IsValid] lives in package [core],
    which is not part of these sources; the spec speaks of an optional id,
    and the DAO returns [NoteId(0)] for "none".  An id is valid when it is
    positive. *)
Definition IsValid (id : NoteId) : bool := 0 <? id.

(** Go errors, as far as the DAO tells them apart. *)
Inductive Error : Type :=
| ErrNoRows                    (* sql.ErrNoRows *)
| ErrDatabase (msg : string)   (* any other error coming out of database/sql *)
| ErrMessage (msg : string).   (* errors.New, fmt.Errorf, errors.Wrapf *)

(** [sql.NullInt64]. *)
Record NullInt64 : Type := { Int64 : Z; Valid : bool }.

(** A value decoded from JSON into [interface{}].  The DAO only looks at
    strings and lists; every other value (number, boolean, null, object)
    is carried with the text [fmt.Sprint] prints for it. *)
#[warnings="-register-all"]
Inductive JValue : Type :=
| JString (s : string)
| JList (l : list JValue)
| JOther (sprint : string).

(** [map[string]interface{}]. *)
Definition JObject : Type := list (string * JValue).

(** The JSON text of the [metadata] column, represented by what
    [json.Unmarshal] makes of it: [Some m] for a text that decodes to the
    object [m], [None] for a text that does not decode. *)
Definition JsonText : Type := option JObject.

(** [fmt.Sprint] on a decoded JSON value. *)
Fixpoint Sprint (v : JValue) : string :=
  match v with
  | JString s => s
  | JOther t => t
  | JList l => "[" +s+ String.concat " " (map Sprint l) +s+ "]"
  end.

(** Lookup in a Go map. *)
Fixpoint map_get (m : JObject) (k : string) : option JValue :=
  match m with
  | [] => None
  | (k', v) :: m' => if String.eqb k k' then Some v else map_get m' k
  end.

(** [note.Link]. *)
Module Link.
Record t : Type := {
  Title : string;
  Href : string;
  External : bool;
  Rels : list string;
  Snippet : string;
  SnippetStart : Z;
  SnippetEnd : Z
}.
End Link.

(** [note.Metadata]; times are instants on an integer time line. *)
Module Metadata.
Record t : Type := {
  Path : string;
  Title : string;
  Lead : string;
  Body : string;
  RawContent : string;
  WordCount : Z;
  Links : list Link.t;
  Tags : list string;
  Metadata : JObject;
  Created : Z;
  Modified : Z;
  Checksum : string
}.
End Metadata.

(** ** The tables *)

(** A row of table [notes]. *)
Module notes.
Record row : Type := {
  id : Z;
  path : string;
  sortable_path : string;
  title : string;
  lead : string;
  body : string;
  raw_content : string;
  word_count : Z;
  metadata : JsonText;
  checksum : string;
  created : Z;
  modified : Z
}.
End notes.

(** A row of table [links]; [target_id] is nullable. *)
Module links.
Record row : Type := {
  source_id : Z;
  target_id : option Z;
  title : string;
  href : string;
  external : bool;
  rels : string;
  snippet : string;
  snippet_start : Z;
  snippet_end : Z
}.
Definition set_target (t : option Z) (l : row) : row :=
  {| source_id := source_id l; target_id := t; title := title l; href := href l;
     external := external l; rels := rels l; snippet := snippet l;
     snippet_start := snippet_start l; snippet_end := snippet_end l |}.
End links.

(** A row of table [collections] (tags are the collections of one kind). *)
Module collections.
Record row : Type := { id : Z; kind : string; name : string }.
End collections.

(** The database seen by one transaction.  Tables keep their rows in
    insertion order; [notes_seq] is the last row id handed out for
    [notes]. *)
Record DB : Type := {
  notes_tbl : list notes.row;
  links_tbl : list links.row;
  collections_tbl : list collections.row;
  notes_collections_tbl : list (Z * Z);  (* note_id, collection_id *)
  notes_seq : Z
}.

(** How the next statement sent to the database ends: it runs, it cannot
    be prepared, or it fails while running. *)
Inductive Outcome : Type :=
| Runs
| PrepareFails (msg : string)
| ExecFails (msg : string).

(** A Go slice of note ids: [nil], or a window of [len] cells starting at
    [off] in backing array number [arr], which may grow in place up to
    [cap] cells. *)
Inductive Slice : Type :=
| nil_slice
| slice (arr off len cap : nat).

(** The state threaded through the DAO: the database, the outcomes of the
    statements still to come (none left: they all run), and the backing
    arrays of the Go heap. *)
Record State : Type := {
  db : DB;
  faults : list Outcome;
  heap : list (list NoteId)
}.

Definition set_db (d : DB) (s : State) : State :=
  {| db := d; faults := faults s; heap := heap s |}.
Definition set_faults (f : list Outcome) (s : State) : State :=
  {| db := db s; faults := f; heap := heap s |}.
Definition set_heap (h : list (list NoteId)) (s : State) : State :=
  {| db := db s; faults := faults s; heap := h |}.

Definition set_notes (ns : list notes.row) (d : DB) : DB :=
  {| notes_tbl := ns; links_tbl := links_tbl d; collections_tbl := collections_tbl d;
     notes_collections_tbl := notes_collections_tbl d; notes_seq := notes_seq d |}.
Definition set_links (ls : list links.row) (d : DB) : DB :=
  {| notes_tbl := notes_tbl d; links_tbl := ls; collections_tbl := collections_tbl d;
     notes_collections_tbl := notes_collections_tbl d; notes_seq := notes_seq d |}.
Definition set_seq (n : Z) (d : DB) : DB :=
  {| notes_tbl := notes_tbl d; links_tbl := links_tbl d; collections_tbl := collections_tbl d;
     notes_collections_tbl := notes_collections_tbl d; notes_seq := n |}.

(** ** The monad of the DAO *)

Definition M (A : Type) : Type := State -> A * State.

Definition ret {A : Type} (a : A) : M A := fun s => (a, s).

Definition bind {A B : Type} (m : M A) (k : A -> M B) : M B :=
  fun s => let (a, s') := m s in k a s'.

Notation "x <- c1 ;; c2" := (bind c1 (fun x => c2))
  (at level 61, c1 at next level, right associativity).
Notation "' pat <- c1 ;; c2" := (bind c1 (fun x => match x with pat => c2 end))
  (at level 61, pat pattern, c1 at next level, right associativity).

Definition get : M State := fun s => (s, s).
Definition modify (f : State -> State) : M unit := fun s => (tt, f s).

(** Takes the outcome of the statement that is about to run. *)
Definition next_outcome : M Outcome :=
  fun s => match faults s with
           | [] => (Runs, s)
           | o :: rest => (o, set_faults rest s)
           end.

(** The error, if any, a statement run through [Exec] or [Query] ends with. *)
Definition outcome_error (o : Outcome) : option Error :=
  match o with
  | Runs => None
  | PrepareFails msg => Some (ErrDatabase msg)
  | ExecFails msg => Some (ErrDatabase msg)
  end.

(** ** What the DAO takes from outside these sources *)

(** Packages [util/fts5], [util/icu] and [core/note], the JSON encoder, the
    Go runtime and the SQL functions of the database engine are used by
    the DAO and are not part of it. *)
Record Env : Type := {
  (** [json.Marshal] on the metadata map of a note. *)
  json_Marshal : JObject -> JsonText * option Error;
  (** [fts5.ConvertQuery]. *)
  ConvertQuery : string -> string;
  (** [icu.EscapePattern]. *)
  EscapePattern : string -> string;
  (** [note.CollectionKindTag]. *)
  CollectionKindTag : string;
  (** [path REGEXP pattern], the SQL function registered for ICU patterns. *)
  regexp : string -> string -> bool;
  (** [notes_fts MATCH query] on the full-text row of a note; [None] when
      the engine rejects the query text. *)
  fts_match : string -> option (notes.row -> bool);
  (** [name GLOB pattern]. *)
  glob : string -> string -> bool;
  (** The capacity the runtime gives a slice that outgrows [cap] cells. *)
  growslice : nat -> nat
}.

(** [*sql.Row]: the error kept for [Scan], no row, or the (nullable) id
    column of the first row. *)
Inductive Row : Type :=
| row_error (e : Error)
| row_empty
| row_of (v : option Z).

(** [row.Scan(&id)] into a [sql.NullInt64]. *)
Definition Scan (r : Row) : NullInt64 * option Error :=
  match r with
  | row_error e => ({| Int64 := 0; Valid := false |}, Some e)
  | row_empty => ({| Int64 := 0; Valid := false |}, Some ErrNoRows)
  | row_of (Some v) => ({| Int64 := v; Valid := true |}, None)
  | row_of None => ({| Int64 := 0; Valid := false |}, None)
  end.

(** A [sql.NullInt64] as the value bound to a statement parameter. *)
Definition sql_of_null (v : NullInt64) : option Z :=
  if Valid v then Some (Int64 v) else None.

(** [sql.Result] of an insertion, and its [LastInsertId]. *)
Record Result : Type := { inserted_id : Z }.

Definition LastInsertId (res : Result) : Z * option Error := (inserted_id res, None).

(** [QueryRow] on a statement whose first result row (if any) is [first]:
    a statement that cannot be prepared fails at once, a failure while
    running is kept in the row for [Scan]. *)
Definition query_row (first : DB -> option Z) : M (Row * option Error) :=
  o <- next_outcome ;;
  match o with
  | PrepareFails msg => ret (row_empty, Some (ErrDatabase msg))
  | ExecFails msg => ret (row_error (ErrDatabase msg), None)
  | Runs =>
      s <- get ;;
      match first (db s) with
      | Some v => ret (row_of (Some v), None)
      | None => ret (row_empty, None)
      end
  end.

(** [Exec] on a statement that rewrites the database with [f]. *)
Definition exec (f : DB -> DB) : M (option Error) :=
  o <- next_outcome ;;
  match outcome_error o with
  | Some e => ret (Some e)
  | None => _ <- modify (fun s => set_db (f (db s)) s) ;; ret None
  end.

(** *** The prepared statements of [NewNoteDAO] *)

(** [SELECT id FROM notes WHERE path = ?]. *)
Definition findIdByPathStmt (path : string) : M (Row * option Error) :=
  query_row (fun d =>
    option_map notes.id
      (find (fun n => String.eqb (notes.path n) path) (notes_tbl d))).

(** [SELECT id FROM notes WHERE path LIKE ? || '%']; the rows come in
    table order. *)
Definition findIdByPathPrefixStmt (path : string) : M (Row * option Error) :=
  query_row (fun d =>
    option_map notes.id
      (find (fun n => Str.like (path +s+ "%") (notes.path n)) (notes_tbl d))).

(** Modelled from the spec: the schema is not part of these sources; the
    spec makes [path] unique ([Add] fails on an existing path) and the id
    assigned by the store, here the next value of the table's sequence.
    The statement is [INSERT INTO notes (path, sortable_path, title, lead,
    body, raw_content, word_count, metadata, checksum, created, modified)
    VALUES (?, ?, ?, ?, ?, ?, ?, ?, ?, ?, ?)]. *)
Definition addStmt (path sortable_path title lead body raw_content : string)
    (word_count : Z) (metadata : JsonText) (checksum : string)
    (created modified : Z) : M (Result * option Error) :=
  o <- next_outcome ;;
  match outcome_error o with
  | Some e => ret ({| inserted_id := 0 |}, Some e)
  | None =>
      s <- get ;;
      if existsb (fun n => String.eqb (notes.path n) path) (notes_tbl (db s))
      then ret ({| inserted_id := 0 |},
                Some (ErrDatabase "UNIQUE constraint failed: notes.path"))
      else
        let id := notes_seq (db s) + 1 in
        let r := {| notes.id := id; notes.path := path;
                    notes.sortable_path := sortable_path; notes.title := title;
                    notes.lead := lead; notes.body := body;
                    notes.raw_content := raw_content;
                    notes.word_count := word_count; notes.metadata := metadata;
                    notes.checksum := checksum; notes.created := created;
                    notes.modified := modified |} in
        _ <- modify (fun s =>
               set_db (set_seq id (set_notes (notes_tbl (db s) ++ [r]) (db s))) s) ;;
        ret ({| inserted_id := id |}, None)
  end.

(** [UPDATE notes SET title = ?, lead = ?, body = ?, raw_content = ?,
    word_count = ?, metadata = ?, checksum = ?, modified = ?
    WHERE path = ?]. *)
Definition updateStmt (title lead body raw_content : string) (word_count : Z)
    (metadata : JsonText) (checksum : string) (modified : Z) (path : string)
    : M (option Error) :=
  exec (fun d =>
    set_notes
      (map (fun n =>
              if String.eqb (notes.path n) path then
                {| notes.id := notes.id n; notes.path := notes.path n;
                   notes.sortable_path := notes.sortable_path n;
                   notes.title := title; notes.lead := lead; notes.body := body;
                   notes.raw_content := raw_content;
                   notes.word_count := word_count; notes.metadata := metadata;
                   notes.checksum := checksum; notes.created := notes.created n;
                   notes.modified := modified |}
              else n)
           (notes_tbl d))
      d).

(** [INSERT INTO links (source_id, target_id, title, href, external, rels,
    snippet, snippet_start, snippet_end) VALUES (?, ?, ?, ?, ?, ?, ?, ?, ?)]. *)
Definition addLinkStmt (source_id : Z) (target_id : NullInt64)
    (title href : string) (external : bool) (rels snippet : string)
    (snippet_start snippet_end : Z) : M (option Error) :=
  exec (fun d =>
    set_links
      (links_tbl d ++
       [ {| links.source_id := source_id; links.target_id := sql_of_null target_id;
            links.title := title; links.href := href; links.external := external;
            links.rels := rels; links.snippet := snippet;
            links.snippet_start := snippet_start;
            links.snippet_end := snippet_end |} ])
      d).

(** The rows changed by [setLinksTargetStmt] bound to [(id, path)]:
    [target_id IS NULL AND external = 0 AND ? LIKE href || '%']. *)
Definition misses_target (path : string) (l : links.row) : bool :=
  match links.target_id l with
  | None => (negb (links.external l) && Str.like (links.href l +s+ "%") path)%bool
  | Some _ => false
  end.

(** [UPDATE links SET target_id = ? WHERE target_id IS NULL AND
    external = 0 AND ? LIKE href || '%']. *)
Definition setLinksTargetStmt (target_id : Z) (path : string) : M (option Error) :=
  exec (fun d =>
    set_links
      (map (fun l => if misses_target path l
                     then links.set_target (Some target_id) l else l)
           (links_tbl d))
      d).

(** [DELETE FROM links WHERE source_id = ?]; a NULL parameter equals no
    source. *)
Definition removeLinksStmt (source_id : NullInt64) : M (option Error) :=
  exec (fun d =>
    set_links
      (filter (fun l =>
                 match sql_of_null source_id with
                 | Some i => negb (links.source_id l =? i)
                 | None => true
                 end)
              (links_tbl d))
      d).

(** ** Finder options *)

(** [note.LinkFilter]. *)
Module LinkFilter.
Record t : Type := {
  Paths : list string;
  Negate : bool;
  Recursive : bool;
  MaxDistance : Z
}.
End LinkFilter.

(** [note.SortField]; [orderTerm] panics on any other value. *)
Inductive SortField : Type :=
| SortCreated
| SortModified
| SortPath
| SortRandom
| SortTitle
| SortWordCount.

(** [note.Sorter]. *)
Record Sorter : Type := { Field : SortField; Ascending : bool }.

(** [note.FinderOpts].  A Go slice or pointer that the code compares with
    [nil] is an [option]; [Match] is an [opt.String], [None] being the
    null string; [ExcludeIds], the one slice the DAO appends to, is a
    window on the heap. *)
Record FinderOpts : Type := {
  Match : option string;
  IncludePaths : option (list string);
  ExcludePaths : option (list string);
  ExcludeIds : Slice;
  Tags : option (list string);
  Mention : option (list string);
  LinkedBy : option LinkFilter.t;
  LinkTo : option LinkFilter.t;
  Related : option (list string);
  Orphan : bool;
  CreatedStart : option Z;
  CreatedEnd : option Z;
  ModifiedStart : option Z;
  ModifiedEnd : option Z;
  Limit : Z;
  Sorters : list Sorter
}.

Definition set_ExcludeIds (ids : Slice) (o : FinderOpts) : FinderOpts :=
  {| Match := Match o; IncludePaths := IncludePaths o;
     ExcludePaths := ExcludePaths o; ExcludeIds := ids; Tags := Tags o;
     Mention := Mention o; LinkedBy := LinkedBy o; LinkTo := LinkTo o;
     Related := Related o; Orphan := Orphan o; CreatedStart := CreatedStart o;
     CreatedEnd := CreatedEnd o; ModifiedStart := ModifiedStart o;
     ModifiedEnd := ModifiedEnd o; Limit := Limit o; Sorters := Sorters o |}.

Definition set_Match (m : option string) (o : FinderOpts) : FinderOpts :=
  {| Match := m; IncludePaths := IncludePaths o;
     ExcludePaths := ExcludePaths o; ExcludeIds := ExcludeIds o; Tags := Tags o;
     Mention := Mention o; LinkedBy := LinkedBy o; LinkTo := LinkTo o;
     Related := Related o; Orphan := Orphan o; CreatedStart := CreatedStart o;
     CreatedEnd := CreatedEnd o; ModifiedStart := ModifiedStart o;
     ModifiedEnd := ModifiedEnd o; Limit := Limit o; Sorters := Sorters o |}.

(** Modelled from the spec: package [util/opt] is not part of these
    sources; [opt.String.String] gives the text of the match expression,
    and an absent expression has no text. *)
Definition opt_String (s : option string) : string :=
  match s with
  | Some v => v
  | None => ""
  end.

(** *** Slices of note ids on the heap *)

(** The cells a slice shows. *)
Definition slice_read (h : list (list NoteId)) (s : Slice) : list NoteId :=
  match s with
  | nil_slice => []
  | slice arr off len _ => firstn len (skipn off (nth arr h []))
  end.

(** Cell [i] of a backing array overwritten with [x]. *)
Definition array_write (i : nat) (x : NoteId) (a : list NoteId) : list NoteId :=
  firstn i a ++ x :: skipn (S i) a.

(** Backing array [arr] of the heap replaced by [f] of it. *)
Fixpoint heap_update (arr : nat) (f : list NoteId -> list NoteId)
    (h : list (list NoteId)) {struct h} : list (list NoteId) :=
  match h, arr with
  | [], _ => []
  | a :: h', O => f a :: h'
  | a :: h', S k => a :: heap_update k f h'
  end.

(** ** The methods of [NoteDAO] that write and look up *)

Section NoteDAO.

Variable env : Env.

(** [idToSql]. *)
Definition idToSql (id : NoteId) : NullInt64 :=
  if IsValid id then {| Int64 := id; Valid := true |}
  else {| Int64 := 0; Valid := false |}.

(** [joinIds]. *)
Definition joinIds (ids : list NoteId) (delimiter : string) : string :=
  Str.Join (map Str.FormatInt ids) delimiter.

(** [joinLinkRels]. *)
Definition joinLinkRels (rels : list string) : string :=
  match rels with
  | [] => ""
  | _ => let delimiter := Str.x01 in
         delimiter +s+ Str.Join rels delimiter +s+ delimiter
  end.

(** [metadataToJson]. *)
Definition metadataToJson (note : Metadata.t) : JsonText * option Error :=
  let '(json, err) := json_Marshal env (Metadata.Metadata note) in
  match err with
  | Some _ =>
      (None, Some (ErrMessage ("cannot serialize note metadata to JSON: "
                               +s+ Metadata.Path note)))
  | None => (json, None)
  end.

(** [unmarshalMetadata]: the decoded object, or the wrapped error. *)
Definition unmarshalMetadata (metadataJSON : JsonText) : JObject * option Error :=
  match metadataJSON with
  | Some m => (m, None)
  | None => ([], Some (ErrMessage "cannot parse note metadata from JSON"))
  end.

(** [idForRow]. *)
Definition idForRow (row : Row) : NoteId * option Error :=
  let '(id, err) := Scan row in
  match err with
  | Some ErrNoRows => (0, None)
  | Some e => (0, Some e)
  | None => (Int64 id, None)
  end.

(** [findIdByPath]. *)
Definition findIdByPath (path : string) : M (NoteId * option Error) :=
  '(row, err) <- findIdByPathStmt path ;;
  match err with
  | Some e => ret (0, Some e)
  | None => ret (idForRow row)
  end.

(** [findIdByPathPrefix]. *)
Definition findIdByPathPrefix (path : string) : M (NoteId * option Error) :=
  '(row, err) <- findIdByPathPrefixStmt path ;;
  match err with
  | Some e => ret (0, Some e)
  | None => ret (idForRow row)
  end.

(** The loop of [findIdsByPathPrefixes], [ids] being the slice built so
    far. *)
Fixpoint findIdsByPathPrefixes_from (ids : list NoteId) (paths : list string)
    : M (list NoteId * option Error) :=
  match paths with
  | [] => ret (ids, None)
  | path :: rest =>
      '(id, err) <- findIdByPathPrefix path ;;
      match err with
      | Some e => ret (ids, Some e)
      | None =>
          findIdsByPathPrefixes_from (if IsValid id then ids ++ [id] else ids) rest
      end
  end.

(** [findIdsByPathPrefixes]. *)
Definition findIdsByPathPrefixes (paths : list string)
    : M (list NoteId * option Error) :=
  findIdsByPathPrefixes_from [] paths.

(** The loop of [addLinks] over [note.Links]. *)
Fixpoint addLinks_each (id : NoteId) (ls : list Link.t) : M (option Error) :=
  match ls with
  | [] => ret None
  | link :: rest =>
      '(targetId, err) <- findIdByPathPrefix (Link.Href link) ;;
      match err with
      | Some e => ret (Some e)
      | None =>
          err <- addLinkStmt id (idToSql targetId) (Link.Title link)
                   (Link.Href link) (Link.External link)
                   (joinLinkRels (Link.Rels link)) (Link.Snippet link)
                   (Link.SnippetStart link) (Link.SnippetEnd link) ;;
          match err with
          | Some e => ret (Some e)
          | None => addLinks_each id rest
          end
      end
  end.

(** [addLinks]: inserts the outbound links of the note, then gives every
    link that still misses its target and whose href matches the path of
    the note this note as target. *)
Definition addLinks (id : NoteId) (note : Metadata.t) : M (option Error) :=
  err <- addLinks_each id (Metadata.Links note) ;;
  match err with
  | Some e => ret (Some e)
  | None => setLinksTargetStmt id (Metadata.Path note)
  end.

(** [Add]. *)
Definition Add (note : Metadata.t) : M (NoteId * option Error) :=
  let sortablePath := Str.ReplaceAll (Metadata.Path note) "/" Str.x01 in
  let '(metadata, err) := metadataToJson note in
  match err with
  | Some e => ret (0, Some e)
  | None =>
      '(res, err) <- addStmt (Metadata.Path note) sortablePath
                       (Metadata.Title note) (Metadata.Lead note)
                       (Metadata.Body note) (Metadata.RawContent note)
                       (Metadata.WordCount note) metadata
                       (Metadata.Checksum note) (Metadata.Created note)
                       (Metadata.Modified note) ;;
      match err with
      | Some e => ret (0, Some e)
      | None =>
          let '(lastId, err) := LastInsertId res in
          match err with
          | Some e => ret (0, Some e)
          | None =>
              let id := lastId in
              err <- addLinks id note ;;
              ret (id, err)
          end
      end
  end.

(** [Update]. *)
Definition Update (note : Metadata.t) : M (NoteId * option Error) :=
  '(id, err) <- findIdByPath (Metadata.Path note) ;;
  match err with
  | Some e => ret (0, Some e)
  | None =>
      if negb (IsValid id)
      then ret (0, Some (ErrMessage "note not found in the index"))
      else
        let '(metadata, err) := metadataToJson note in
        match err with
        | Some e => ret (0, Some e)
        | None =>
            err <- updateStmt (Metadata.Title note) (Metadata.Lead note)
                     (Metadata.Body note) (Metadata.RawContent note)
                     (Metadata.WordCount note) metadata
                     (Metadata.Checksum note) (Metadata.Modified note)
                     (Metadata.Path note) ;;
            match err with
            | Some e => ret (id, Some e)
            | None =>
                err <- removeLinksStmt (idToSql id) ;;
                match err with
                | Some e => ret (id, Some e)
                | None =>
                    err <- addLinks id note ;;
                    ret (id, err)
                end
            end
        end
  end.

(** *** Slices of note ids on the heap, continued *)

(** A slice over a fresh backing array holding [ids]. *)
Definition slice_of (ids : list NoteId) : M Slice :=
  fun s =>
    (slice (List.length (heap s)) 0 (List.length ids) (List.length ids),
     set_heap (heap s ++ [ids]) s).

(** [append(sl, x)]: within capacity the cell after the window is
    written in place and the window grows; otherwise the cells move to a
    fresh, larger backing array. *)
Definition append (sl : Slice) (x : NoteId) : M Slice :=
  fun s =>
    match sl with
    | nil_slice =>
        (slice (List.length (heap s)) 0 1 1, set_heap (heap s ++ [[x]]) s)
    | slice arr off len cap =>
        if Nat.ltb len cap then
          (slice arr off (S len) cap,
           set_heap (heap_update arr (array_write (off + len) x) (heap s)) s)
        else
          let newcap := Nat.max (S len) (growslice env cap) in
          (slice (List.length (heap s)) 0 (S len) newcap,
           set_heap (heap s ++ [slice_read (heap s) sl ++ x
                                   :: repeat 0 (newcap - S len)]) s)
    end.

(** [for _, id := range ids { sl = append(sl, id) }]. *)
Fixpoint append_all (sl : Slice) (ids : list NoteId) : M Slice :=
  match ids with
  | [] => ret sl
  | id :: rest => sl' <- append sl id ;; append_all sl' rest
  end.

(** ** Mention expansion *)

(** [tx.Query] of [SELECT title, metadata FROM notes WHERE id IN (ids)];
    the rows come in table order. *)
Definition titlesQuery (ids : list NoteId)
    : M (list (string * JsonText) * option Error) :=
  o <- next_outcome ;;
  match outcome_error o with
  | Some e => ret ([], Some e)
  | None =>
      s <- get ;;
      ret (map (fun n => (notes.title n, notes.metadata n))
               (filter (fun n => existsb (Z.eqb (notes.id n)) ids)
                       (notes_tbl (db s))),
           None)
  end.

(** The closure [appendTitle] of [expandMentionsIntoMatch]. *)
Definition appendTitle (titles : list string) (t : string) : list string :=
  titles ++ [Str.dquote +s+ Str.ReplaceAll t Str.dquote "" +s+ Str.dquote].

(** The body of the loop over the rows of the titles query; a metadata
    text that does not decode is logged and adds no alias. *)
Definition titles_of_row (titles : list string) (row : string * JsonText)
    : list string :=
  let '(title, metadataJSON) := row in
  let titles := appendTitle titles title in
  let '(metadata, err) := unmarshalMetadata metadataJSON in
  match err with
  | Some _ => titles
  | None =>
      match map_get metadata "aliases" with
      | Some (JList aliases) =>
          fold_left (fun ts alias => appendTitle ts (Sprint alias)) aliases titles
      | Some (JString aliases) => appendTitle titles aliases
      | _ => titles
      end
  end.

(** [expandMentionsIntoMatch]. *)
Definition expandMentionsIntoMatch (opts : FinderOpts)
    : M (FinderOpts * option Error) :=
  match Mention opts with
  | None => ret (opts, None)
  | Some mention =>
      let notFoundErr :=
        ErrMessage ("could not find notes at: " +s+ Str.Join mention ",") in
      '(ids, err) <- findIdsByPathPrefixes mention ;;
      match err with
      | Some e => ret (opts, Some e)
      | None =>
          match ids with
          | [] => ret (opts, Some notFoundErr)
          | _ =>
              excluded <- match ExcludeIds opts with
                          | nil_slice => slice_of ids
                          | sl => append_all sl ids
                          end ;;
              let opts := set_ExcludeIds excluded opts in
              '(rows, err) <- titlesQuery ids ;;
              match err with
              | Some e => ret (opts, Some e)
              | None =>
                  let titles := fold_left titles_of_row rows [] in
                  match titles with
                  | [] => ret (opts, Some notFoundErr)
                  | _ =>
                      let match_ := opt_String (Match opts) in
                      let match_ :=
                        match_ +s+ " (" +s+ Str.Join titles " OR " +s+ ")" in
                      ret (set_Match (Some match_) opts, None)
                  end
              end
          end
      end
  end.

(** ** The query built by [findRows] *)

(** The two relations a link filter reads: table [links], or the
    recursive common table expression [transitive_closure]. *)
Inductive LinksSrc : Type :=
| src_links
| src_transitive_closure.

(** An element of [joinClauses]. *)
Inductive JoinClause : Type :=
| join_fts
    (* JOIN notes_fts ON n.id = notes_fts.rowid *)
| join_links (linksSrc : LinksSrc) (direction : Z) (ids : list NoteId).
    (* LEFT JOIN <linksSrc> l ON <joinOns> *)

(** An element of [whereExprs], together with the values it appends to
    [args] for its placeholders. *)
Inductive WhereExpr : Type :=
| where_match (arg : string)
    (* notes_fts MATCH ? *)
| where_include_paths (args : list string)
    (* n.path REGEXP ? OR ... *)
| where_exclude_paths (args : list string)
    (* n.path NOT REGEXP ? AND ... *)
| where_exclude_ids (ids : list NoteId)
    (* n.id NOT IN (ids) *)
| where_tags (negate : bool) (globs : list string)
    (* n.id [NOT] IN (... t.name GLOB ? OR ...) *)
| where_linked (negate : bool) (linksSrc : LinksSrc) (direction : Z)
    (ids : list NoteId)
    (* n.id [NOT] IN (SELECT ... UNION SELECT ...) *)
| where_orphan
    (* n.id NOT IN (SELECT target_id FROM links WHERE target_id IS NOT NULL) *)
| where_created_start (t : Z)    (* created >= ? *)
| where_created_end (t : Z)      (* created < ? *)
| where_modified_start (t : Z)   (* modified >= ? *)
| where_modified_end (t : Z).    (* modified < ? *)

(** The local variables of [findRows] that its steps update. *)
Record Builder : Type := {
  snippetCol : string;
  joinClauses : list JoinClause;
  whereExprs : list WhereExpr;
  additionalOrderTerms : list string;
  groupBy : string;
  transitiveClosure : bool;
  maxDistance : Z
}.

Definition set_snippetCol (v : string) (b : Builder) : Builder :=
  {| snippetCol := v; joinClauses := joinClauses b; whereExprs := whereExprs b;
     additionalOrderTerms := additionalOrderTerms b; groupBy := groupBy b;
     transitiveClosure := transitiveClosure b; maxDistance := maxDistance b |}.
Definition add_join (j : JoinClause) (b : Builder) : Builder :=
  {| snippetCol := snippetCol b; joinClauses := joinClauses b ++ [j];
     whereExprs := whereExprs b;
     additionalOrderTerms := additionalOrderTerms b; groupBy := groupBy b;
     transitiveClosure := transitiveClosure b; maxDistance := maxDistance b |}.
Definition add_where (w : WhereExpr) (b : Builder) : Builder :=
  {| snippetCol := snippetCol b; joinClauses := joinClauses b;
     whereExprs := whereExprs b ++ [w];
     additionalOrderTerms := additionalOrderTerms b; groupBy := groupBy b;
     transitiveClosure := transitiveClosure b; maxDistance := maxDistance b |}.
Definition add_order (t : string) (b : Builder) : Builder :=
  {| snippetCol := snippetCol b; joinClauses := joinClauses b;
     whereExprs := whereExprs b;
     additionalOrderTerms := additionalOrderTerms b ++ [t]; groupBy := groupBy b;
     transitiveClosure := transitiveClosure b; maxDistance := maxDistance b |}.
Definition set_groupBy (v : string) (b : Builder) : Builder :=
  {| snippetCol := snippetCol b; joinClauses := joinClauses b;
     whereExprs := whereExprs b;
     additionalOrderTerms := additionalOrderTerms b; groupBy := v;
     transitiveClosure := transitiveClosure b; maxDistance := maxDistance b |}.
Definition set_transitiveClosure (v : bool) (b : Builder) : Builder :=
  {| snippetCol := snippetCol b; joinClauses := joinClauses b;
     whereExprs := whereExprs b;
     additionalOrderTerms := additionalOrderTerms b; groupBy := groupBy b;
     transitiveClosure := v; maxDistance := maxDistance b |}.
Definition set_maxDistance (v : Z) (b : Builder) : Builder :=
  {| snippetCol := snippetCol b; joinClauses := joinClauses b;
     whereExprs := whereExprs b;
     additionalOrderTerms := additionalOrderTerms b; groupBy := groupBy b;
     transitiveClosure := transitiveClosure b; maxDistance := v |}.

(** The variables as [findRows] declares them. *)
Definition new_builder : Builder :=
  {| snippetCol := "n.lead"; joinClauses := []; whereExprs := [];
     additionalOrderTerms := []; groupBy := "";
     transitiveClosure := false; maxDistance := 0 |}.

(** The query sent to the database: the variables at the end of
    [findRows], the final order terms and the limit. *)
Record Query : Type := {
  built : Builder;
  orderTerms : list string;
  limit : Z
}.

(** [orderTerm]. *)
Definition orderTerm (sorter : Sorter) : string :=
  let order := if Ascending sorter then " ASC" else " DESC" in
  match Field sorter with
  | SortCreated => "n.created" +s+ order
  | SortModified => "n.modified" +s+ order
  | SortPath => "n.path" +s+ order
  | SortRandom => "RANDOM()"
  | SortTitle => "n.title" +s+ order
  | SortWordCount => "n.word_count" +s+ order
  end.

(** [pathRegex]. *)
Definition pathRegex (path : string) : string :=
  let path := EscapePattern env path in
  path +s+ "[^/]*|" +s+ path +s+ "/.+".

(** What [setupLinkFilter] does to the variables of [findRows] once the
    paths have resolved to the ids [ids], of which there is at least one. *)
Definition linkFilterClauses (ids : list NoteId) (direction : Z)
    (negate recursive : bool) (b : Builder) : Builder :=
  let linksSrc := if recursive then src_transitive_closure else src_links in
  let b := if recursive then set_transitiveClosure true b else b in
  let b :=
    if negb negate then
      let b :=
        if negb (direction =? 0) then
          set_snippetCol
            ("GROUP_CONCAT(REPLACE(l.snippet, l.title, '<zk:match>' || l.title || '</zk:match>'), '"
             +s+ Str.x01 +s+ "')") b
        else b in
      let b := add_join (join_links linksSrc direction ids) b in
      set_groupBy "GROUP BY n.id" b
    else b in
  add_where (where_linked negate linksSrc direction ids) b.

(** The closure [setupLinkFilter] of [findRows]. *)
Definition setupLinkFilter (paths : list string) (direction : Z)
    (negate recursive : bool) (b : Builder) : M (Builder * option Error) :=
  '(ids, err) <- findIdsByPathPrefixes paths ;;
  match err with
  | Some e => ret (b, Some e)
  | None =>
      match ids with
      | [] => ret (b, None)
      | _ => ret (linkFilterClauses ids direction negate recursive b, None)
      end
  end.

(** [separatorRegex.Split(tagsArg, -1)] for the expression
    [(\ OR\ )|\|]: the text between the leftmost occurrences of [" OR "]
    or ["|"].  [cur] holds, reversed, the piece being read and [skip] the
    bytes of a separator still to pass. *)
Fixpoint split_tags_from (skip : nat) (cur : string) (s : string) : list string :=
  match s with
  | EmptyString => [Str.rev cur]
  | String c s' =>
      match skip with
      | S k => split_tags_from k cur s'
      | O =>
          if Str.HasPrefix s " OR " then Str.rev cur :: split_tags_from 3 "" s'
          else if Ascii.eqb c "|"%char then Str.rev cur :: split_tags_from 0 "" s'
          else split_tags_from 0 (String c cur) s'
      end
  end.

Definition split_tags (tagsArg : string) : list string :=
  split_tags_from 0 "" tagsArg.

(** The body of the loop over the patterns of one tag group: [negate] and
    the patterns kept so far (one [t.name GLOB ?] each). *)
Definition tag_step (acc : bool * list string) (tag : string) : bool * list string :=
  let '(negate, globs) := acc in
  let tag := Str.TrimSpace tag in
  let '(negate, tag) :=
    if Str.HasPrefix tag "-" then (true, Str.TrimPrefix tag "-")
    else if Str.HasPrefix tag "NOT" then (true, Str.TrimPrefix tag "NOT")
    else (negate, tag) in
  let tag := Str.TrimSpace tag in
  if Nat.eqb (String.length tag) 0 then (negate, globs)
  else (negate, globs ++ [tag]).

(** The loop of [findRows] over [opts.Tags]. *)
Fixpoint setupTags (tags : list string) (b : Builder) : Builder * option Error :=
  match tags with
  | [] => (b, None)
  | tagsArg :: rest =>
      let '(negate, globs) := fold_left tag_step (split_tags tagsArg) (false, []) in
      if Nat.eqb (List.length globs) 0 then setupTags rest b
      else if (negate && Nat.ltb 1 (List.length globs))%bool then
        (b, Some (ErrMessage ("cannot negate a tag in a OR group: " +s+ tagsArg)))
      else setupTags rest (add_where (where_tags negate globs) b)
  end.

(** *** The rows of a query *)

(** A row of [transitive_closure] without the columns [title] and
    [snippet], which select nothing.  [distance] is the number of links
    followed from [source_id] to [target_id]; [path] is the text
    [.source.target1.target2.], here the list of its ids, and NULL like
    the target of a base row whose link has none. *)
Record tc_row : Type := {
  tc_source_id : Z;
  tc_target_id : option Z;
  tc_distance : Z;
  tc_path : option (list Z)
}.

(** The initial select of the recursion, on one row of [links]:
    [SELECT source_id, target_id, title, snippet, 1 AS distance,
    '.' || source_id || '.' || target_id || '.' AS path FROM links]. *)
Definition tc_base (l : links.row) : tc_row :=
  {| tc_source_id := links.source_id l;
     tc_target_id := links.target_id l;
     tc_distance := 1;
     tc_path := option_map (fun t => [links.source_id l; t]) (links.target_id l) |}.

(** [tc.path NOT LIKE '%.' || l.target_id || '.%']: the id is none of the
    ids listed in the path. *)
Definition path_avoids (p : list Z) (t : Z) : bool := negb (existsb (Z.eqb t) p).

(** The recursive select run on the single row [tc]:
    [SELECT tc.source_id, l.target_id, l.title, l.snippet, tc.distance + 1,
    tc.path || l.target_id || '.' AS path FROM links AS l JOIN
    transitive_closure AS tc ON l.source_id = tc.target_id WHERE tc.path
    NOT LIKE '%.' || l.target_id || '.%'], followed by
    [AND tc.distance < maxDistance] when [maxDistance] is not 0.  A NULL
    on either side of a comparison keeps the row out. *)
Definition tc_step (maxDistance : Z) (ls : list links.row) (tc : tc_row)
    : list tc_row :=
  match tc_target_id tc, tc_path tc with
  | Some mid, Some p =>
      flat_map
        (fun l =>
           match links.target_id l with
           | Some t =>
               if ((links.source_id l =? mid) && path_avoids p t
                   && ((maxDistance =? 0) || (tc_distance tc <? maxDistance)))%bool
               then [ {| tc_source_id := tc_source_id tc;
                         tc_target_id := Some t;
                         tc_distance := tc_distance tc + 1;
                         tc_path := Some (p ++ [t]) |} ]
               else []
           | None => []
           end)
        ls
  | _, _ => []
  end.

(** SQLite runs a recursive common table expression from a queue: a row
    leaves the queue, enters the table, and the recursive select run on
    that single row feeds the queue; without ORDER BY the queue is first
    in, first out.  [limit] is what is left of the [LIMIT] on the rows
    that may enter the table. *)
Fixpoint tc_run (limit : nat) (maxDistance : Z) (ls : list links.row)
    (queue : list tc_row) : list tc_row :=
  match limit with
  | O => []
  | S limit' =>
      match queue with
      | [] => []
      | tc :: queue' =>
          tc :: tc_run limit' maxDistance ls (queue' ++ tc_step maxDistance ls tc)
      end
  end.

(** The [LIMIT 100000] that guards the recursion. *)
Definition tc_limit : nat := Z.to_nat 100000.

(** [WITH RECURSIVE transitive_closure(source_id, target_id, title,
    snippet, distance, path) AS (... LIMIT 100000)]. *)
Definition transitive_closure (maxDistance : Z) (ls : list links.row)
    : list tc_row :=
  tc_run tc_limit maxDistance ls (map tc_base ls).

(** The rows of the relation a link filter reads; the rows of [links]
    are shown as their base rows (their [distance] is no column of
    [links], see [query_error]). *)
Definition link_rows (q : Query) (d : DB) (linksSrc : LinksSrc) : list tc_row :=
  match linksSrc with
  | src_links => map tc_base (links_tbl d)
  | src_transitive_closure =>
      transitive_closure (maxDistance (built q)) (links_tbl d)
  end.

(** The ON condition of [LEFT JOIN <linksSrc> l] for the note [n]:
    [(n.id = l.target_id AND l.source_id IN ids)] when
    [direction <= 0], [(n.id = l.source_id AND l.target_id IN ids)] when
    [direction >= 0], joined by OR. *)
Definition joins (direction : Z) (ids : list NoteId) (n : Z) (l : tc_row) : bool :=
  match tc_target_id l with
  | Some t =>
      (((direction <=? 0) && (n =? t) && existsb (Z.eqb (tc_source_id l)) ids)
       || ((direction >=? 0) && (n =? tc_source_id l) && existsb (Z.eqb t) ids))%bool
  | None => false
  end.

(** [MIN(l.distance)] over the rows joined to one note; [None] is NULL. *)
Definition min_distance (rows : list tc_row) : option Z :=
  fold_left
    (fun acc r =>
       match acc with
       | None => Some (tc_distance r)
       | Some m => Some (Z.min m (tc_distance r))
       end)
    rows None.

(** The tags of a note whose name a glob of the group matches:
    [note_id IN (SELECT note_id FROM notes_collections WHERE
    collection_id IN (SELECT id FROM collections t WHERE kind = '<tag>'
    AND (t.name GLOB ? OR ...)))]. *)
Definition has_tag (d : DB) (globs : list string) (n : Z) : bool :=
  existsb
    (fun nc =>
       ((fst nc =? n)
        && existsb
             (fun t =>
                ((collections.id t =? snd nc)
                 && String.eqb (collections.kind t) (CollectionKindTag env)
                 && existsb (fun g => glob env g (collections.name t)) globs)%bool)
             (collections_tbl d))%bool)
    (notes_collections_tbl d).

(** The value, on the note [n], of the text of an element of
    [whereExprs] read on its own. *)
Definition where_holds (q : Query) (d : DB) (n : notes.row) (w : WhereExpr) : bool :=
  match w with
  | where_match arg =>
      match fts_match env arg with
      | Some matches => matches n
      | None => false
      end
  | where_include_paths args =>
      existsb (fun r => regexp env r (notes.path n)) args
  | where_exclude_paths args =>
      forallb (fun r => negb (regexp env r (notes.path n))) args
  | where_exclude_ids ids => negb (existsb (Z.eqb (notes.id n)) ids)
  | where_tags negate globs =>
      if negate then negb (has_tag d globs (notes.id n))
      else has_tag d globs (notes.id n)
  | where_linked negate linksSrc direction ids =>
      let found :=
        existsb (joins direction ids (notes.id n)) (link_rows q d linksSrc) in
      if negate then negb found else found
  | where_orphan =>
      negb (existsb
              (fun l => match links.target_id l with
                        | Some t => t =? notes.id n
                        | None => false
                        end)
              (links_tbl d))
  | where_created_start t => t <=? notes.created n
  | where_created_end t => notes.created n <? t
  | where_modified_start t => t <=? notes.modified n
  | where_modified_end t => notes.modified n <? t
  end.

(** The clause [findRows] appends to [groupBy] for a Related filter. *)
Definition having_distance_2 : string := " HAVING MIN(l.distance) = 2".

(** The relations joined under the alias [l]. *)
Definition l_joins (b : Builder) : list (LinksSrc * Z * list NoteId) :=
  flat_map (fun j => match j with
                     | join_links src direction ids => [(src, direction, ids)]
                     | join_fts => []
                     end)
           (joinClauses b).

(** An element of [whereExprs] that is no SQL expression (an empty
    [strings.Join]) or that the full-text engine rejects. *)
Definition where_rejected (w : WhereExpr) : bool :=
  match w with
  | where_include_paths [] => true
  | where_exclude_paths [] => true
  | where_match arg =>
      match fts_match env arg with
      | Some _ => false
      | None => true
      end
  | _ => false
  end.

(** The element is the [MATCH] of the full-text engine. *)
Definition is_match (w : WhereExpr) : bool :=
  match w with
  | where_match _ => true
  | _ => false
  end.

(** The text of the element holds an [OR] at its top level: the include
    paths, when there are two or more. *)
Definition has_or (w : WhereExpr) : bool :=
  match w with
  | where_include_paths (_ :: _ :: _) => true
  | _ => false
  end.

(** Why SQLite refuses to prepare or run the query, if it does (the
    texts of the errors are indicative).  The column [l.distance], named
    by the order term [l.distance] and by the HAVING clause, exists when
    exactly one relation is joined as [l] and it is [transitive_closure];
    a HAVING clause that follows no GROUP BY is only built when nothing is
    joined as [l]; two relations joined as [l] make every [l.] column
    ambiguous; [transitive_closure] exists when the WITH clause is
    written; and the full-text engine answers [MATCH] only where it
    stands as a condition of the whole WHERE clause, not beside an [OR]. *)
Definition query_error (q : Query) : option Error :=
  let b := built q in
  let uses_distance :=
    (existsb (String.eqb "l.distance") (orderTerms q)
     || String.eqb (groupBy b) ("GROUP BY n.id" +s+ having_distance_2)
     || String.eqb (groupBy b) having_distance_2)%bool in
  if existsb where_rejected (whereExprs b) then
    Some (ErrDatabase "malformed WHERE expression")
  else if (existsb is_match (whereExprs b) && existsb has_or (whereExprs b))%bool then
    Some (ErrDatabase "unable to use function MATCH in the requested context")
  else if Nat.ltb 1 (List.length (l_joins b)) then
    Some (ErrDatabase "ambiguous column name: l.target_id")
  else if String.eqb (groupBy b) having_distance_2 then
    Some (ErrDatabase "no such column: l.distance")
  else if (uses_distance
           && negb (match l_joins b with
                    | [(src_transitive_closure, _, _)] => true
                    | _ => false
                    end))%bool then
    Some (ErrDatabase "no such column: l.distance")
  else if (negb (transitiveClosure b)
           && (existsb (fun j => match j with
                                 | (src_transitive_closure, _, _) => true
                                 | _ => false
                                 end) (l_joins b)
               || existsb (fun w => match w with
                                    | where_linked _ src_transitive_closure _ _ => true
                                    | _ => false
                                    end) (whereExprs b)))%bool then
    Some (ErrDatabase "no such table: transitive_closure")
  else None.

(** The HAVING clause on the group of the note [n]: the least distance
    among the rows of [l] joined to it is 2. *)
Definition having_holds (q : Query) (d : DB) (n : notes.row) : bool :=
  if String.eqb (groupBy (built q)) ("GROUP BY n.id" +s+ having_distance_2) then
    match l_joins (built q) with
    | [(src, direction, ids)] =>
        match min_distance
                (filter (joins direction ids (notes.id n)) (link_rows q d src)) with
        | Some m => m =? 2
        | None => false
        end
    | _ => false
    end
  else true.

(** The two operators [findRows] writes at the top level of the WHERE
    clause. *)
Inductive Connective : Type := sql_AND | sql_OR.

(** What the text of an element of [whereExprs] puts at the top level of
    the WHERE clause: its operands, each with the operator written before
    it.  [findRows] joins the elements with [AND] and writes no
    parentheses around any, so the [OR] of
    [strings.Join(regexes, " OR ")] stands beside those [AND]: the first
    include path follows an [AND] (or opens the clause), each of the
    others an [OR].  The texts of the other elements have no [OR] outside
    parentheses, and count for one operand. *)
Definition where_operands (q : Query) (d : DB) (n : notes.row) (w : WhereExpr)
    : list (Connective * bool) :=
  match w with
  | where_include_paths args =>
      match map (fun r => regexp env r (notes.path n)) args with
      | [] => []
      | v :: vs => (sql_AND, v) :: map (fun v' => (sql_OR, v')) vs
      end
  | _ => [(sql_AND, where_holds q d n w)]
  end.

(** The value of operands as SQL reads them, [AND] binding tighter than
    [OR]; [run] is the value of the conjunction being read. *)
Fixpoint sql_value (run : bool) (ops : list (Connective * bool)) : bool :=
  match ops with
  | [] => run
  | (sql_AND, v) :: ops' => sql_value (run && v) ops'
  | (sql_OR, v) :: ops' => (run || sql_value v ops')%bool
  end.

(** The value of the WHERE clause on the note [n]. *)
Definition where_value (q : Query) (d : DB) (n : notes.row) : bool :=
  sql_value true (flat_map (where_operands q d n) (whereExprs (built q))).

(** The notes the query selects, in table order: one row per note of
    [notes_with_metadata] ([notes_fts] has a row for every note, the LEFT
    JOIN on [l] drops none and the rows of a note are grouped) on which
    the WHERE clause holds, and the HAVING clause if any. *)
Definition select_notes (q : Query) (d : DB) : list notes.row :=
  filter (fun n => (where_value q d n && having_holds q d n)%bool)
         (notes_tbl d).

(** [*sql.Rows] of the query: the selected notes in table order, which
    the engine sorts by [order_by] and cuts after [limit_to] rows when
    that is positive. *)
Record Rows : Type := {
  selected : list notes.row;
  order_by : list string;
  limit_to : Z
}.

Definition no_rows : Rows := {| selected := []; order_by := []; limit_to := 0 |}.

(** [d.tx.Query(query, args...)]. *)
Definition tx_Query (q : Query) : M (Rows * option Error) :=
  o <- next_outcome ;;
  match outcome_error o with
  | Some e => ret (no_rows, Some e)
  | None =>
      match query_error q with
      | Some e => ret (no_rows, Some e)
      | None =>
          s <- get ;;
          ret ({| selected := select_notes q (db s);
                  order_by := orderTerms q;
                  limit_to := limit q |}, None)
      end
  end.

(** *** The SQL text of the query *)

Definition nl : string := String (ascii_of_nat 10) EmptyString.
Definition tab : string := String (ascii_of_nat 9) EmptyString.

Definition src_name (linksSrc : LinksSrc) : string :=
  match linksSrc with
  | src_links => "links"
  | src_transitive_closure => "transitive_closure"
  end.

(** [idsList] of [setupLinkFilter]. *)
Definition idsList (ids : list NoteId) : string := "(" +s+ joinIds ids "," +s+ ")".

(** The text of an element of [joinClauses]. *)
Definition join_sql (j : JoinClause) : string :=
  match j with
  | join_fts => "JOIN notes_fts ON n.id = notes_fts.rowid"
  | join_links linksSrc direction ids =>
      let joinOns :=
        (if direction <=? 0
         then ["(n.id = l.target_id AND l.source_id IN " +s+ idsList ids +s+ ")"]
         else [])
        ++ (if direction >=? 0
            then ["(n.id = l.source_id AND l.target_id IN " +s+ idsList ids +s+ ")"]
            else []) in
      "LEFT JOIN " +s+ src_name linksSrc +s+ " l ON " +s+ Str.Join joinOns " OR "
  end.

(** The text of an element of [whereExprs]. *)
Definition where_sql (w : WhereExpr) : string :=
  match w with
  | where_match _ => "notes_fts MATCH ?"
  | where_include_paths args =>
      Str.Join (map (fun _ => "n.path REGEXP ?") args) " OR "
  | where_exclude_paths args =>
      Str.Join (map (fun _ => "n.path NOT REGEXP ?") args) " AND "
  | where_exclude_ids ids => "n.id NOT IN (" +s+ joinIds ids "," +s+ ")"
  | where_tags negate globs =>
      "n.id" +s+ (if negate then " NOT" else "") +s+ " IN (" +s+ nl
      +s+ "SELECT note_id FROM notes_collections" +s+ nl
      +s+ "WHERE collection_id IN (SELECT id FROM collections t WHERE kind = '"
      +s+ CollectionKindTag env +s+ "' AND ("
      +s+ Str.Join (map (fun _ => "t.name GLOB ?") globs) " OR " +s+ "))" +s+ nl
      +s+ ")"
  | where_linked negate linksSrc direction ids =>
      let idSelects :=
        (if direction <=? 0
         then ["    SELECT target_id FROM " +s+ src_name linksSrc
               +s+ " WHERE target_id IS NOT NULL AND source_id IN " +s+ idsList ids]
         else [])
        ++ (if direction >=? 0
            then ["    SELECT source_id FROM " +s+ src_name linksSrc
                  +s+ " WHERE target_id IS NOT NULL AND target_id IN " +s+ idsList ids]
            else []) in
      "n.id" +s+ (if negate then " NOT" else "") +s+ " IN (" +s+ nl
      +s+ Str.Join idSelects (nl +s+ "    UNION" +s+ nl) +s+ nl +s+ ")"
  | where_orphan =>
      "n.id NOT IN (" +s+ nl +s+ tab +s+ tab +s+ tab
      +s+ "SELECT target_id FROM links WHERE target_id IS NOT NULL" +s+ nl
      +s+ tab +s+ tab +s+ ")"
  | where_created_start _ => "created >= ?"
  | where_created_end _ => "created < ?"
  | where_modified_start _ => "modified >= ?"
  | where_modified_end _ => "modified < ?"
  end.

(** The WITH clause written when [transitiveClosure] is set. *)
Definition closure_sql (maxDistance : Z) : string :=
  "WITH RECURSIVE transitive_closure(source_id, target_id, title, snippet, distance, path) AS (" +s+ nl
  +s+ "    SELECT source_id, target_id, title, snippet," +s+ nl
  +s+ "           1 AS distance," +s+ nl
  +s+ "           '.' || source_id || '.' || target_id || '.' AS path" +s+ nl
  +s+ "      FROM links" +s+ nl
  +s+ " " +s+ nl
  +s+ "     UNION ALL" +s+ nl
  +s+ " " +s+ nl
  +s+ "    SELECT tc.source_id, l.target_id, l.title, l.snippet," +s+ nl
  +s+ "           tc.distance + 1," +s+ nl
  +s+ "           tc.path || l.target_id || '.' AS path" +s+ nl
  +s+ "      FROM links AS l" +s+ nl
  +s+ "      JOIN transitive_closure AS tc" +s+ nl
  +s+ "        ON l.source_id = tc.target_id" +s+ nl
  +s+ "     WHERE tc.path NOT LIKE '%.' || l.target_id || '.%'"
  +s+ (if maxDistance =? 0 then ""
       else " AND tc.distance < " +s+ Str.FormatInt maxDistance)
  +s+ nl +s+ "     LIMIT 100000"
  +s+ nl +s+ ")" +s+ nl.

(** The text [findRows] hands to [d.tx.Query]. *)
Definition query_sql (q : Query) : string :=
  let b := built q in
  (if transitiveClosure b then closure_sql (maxDistance b) else "")
  +s+ "SELECT n.id, n.path, n.title, n.lead, n.body, n.raw_content, n.word_count, n.created, n.modified, n.metadata, n.checksum, n.tags, "
  +s+ snippetCol b +s+ " AS snippet" +s+ nl
  +s+ "FROM notes_with_metadata n" +s+ nl
  +s+ String.concat "" (map (fun clause => join_sql clause +s+ nl) (joinClauses b))
  +s+ (match whereExprs b with
       | [] => ""
       | ws => "WHERE " +s+ Str.Join (map where_sql ws) (nl +s+ "AND ") +s+ nl
       end)
  +s+ (if String.eqb (groupBy b) "" then "" else groupBy b +s+ nl)
  +s+ "ORDER BY " +s+ Str.Join (orderTerms q) ", " +s+ nl
  +s+ (if 0 <? limit q then "LIMIT " +s+ Str.FormatInt (limit q) +s+ nl else "").

(** *** [findRows] *)

(** The steps of [findRows] up to the tag groups. *)
Definition setupMatch (opts : FinderOpts) (b : Builder) : Builder :=
  match Match opts with
  | Some _ =>
      let b := set_snippetCol
                 "snippet(notes_fts, 2, '<zk:match>', '</zk:match>', '…', 20)" b in
      let b := add_join join_fts b in
      let b := add_order "bm25(notes_fts, 1000.0, 500.0, 1.0)" b in
      add_where (where_match (ConvertQuery env (opt_String (Match opts)))) b
  | None => b
  end.

Definition setupPaths (opts : FinderOpts) (b : Builder) : Builder :=
  let b := match IncludePaths opts with
           | Some paths => add_where (where_include_paths (map pathRegex paths)) b
           | None => b
           end in
  match ExcludePaths opts with
  | Some paths => add_where (where_exclude_paths (map pathRegex paths)) b
  | None => b
  end.

Definition setupExcludeIds (opts : FinderOpts) (h : list (list NoteId))
    (b : Builder) : Builder :=
  match ExcludeIds opts with
  | nil_slice => b
  | sl => add_where (where_exclude_ids (slice_read h sl)) b
  end.

(** The three link filters, in the order of [findRows]; each returns at
    the first error. *)
Definition setupLinkedBy (opts : FinderOpts) (b : Builder)
    : M (Builder * option Error) :=
  match LinkedBy opts with
  | Some filter =>
      let b := set_maxDistance (LinkFilter.MaxDistance filter) b in
      setupLinkFilter (LinkFilter.Paths filter) (-1) (LinkFilter.Negate filter)
        (LinkFilter.Recursive filter) b
  | None => ret (b, None)
  end.

Definition setupLinkTo (opts : FinderOpts) (b : Builder)
    : M (Builder * option Error) :=
  match LinkTo opts with
  | Some filter =>
      let b := set_maxDistance (LinkFilter.MaxDistance filter) b in
      setupLinkFilter (LinkFilter.Paths filter) 1 (LinkFilter.Negate filter)
        (LinkFilter.Recursive filter) b
  | None => ret (b, None)
  end.

Definition setupRelated (opts : FinderOpts) (b : Builder)
    : M (Builder * option Error) :=
  match Related opts with
  | Some paths =>
      let b := set_maxDistance 2 b in
      '(b, err) <- setupLinkFilter paths 0 false true b ;;
      match err with
      | Some e => ret (b, Some e)
      | None => ret (set_groupBy (groupBy b +s+ having_distance_2) b, None)
      end
  | None => ret (b, None)
  end.

(** The orphan flag and the four date bounds. *)
Definition setupOrphanAndDates (opts : FinderOpts) (b : Builder) : Builder :=
  let b := if Orphan opts then add_where where_orphan b else b in
  let b := match CreatedStart opts with
           | Some t => add_where (where_created_start t) b
           | None => b
           end in
  let b := match CreatedEnd opts with
           | Some t => add_where (where_created_end t) b
           | None => b
           end in
  let b := match ModifiedStart opts with
           | Some t => add_where (where_modified_start t) b
           | None => b
           end in
  match ModifiedEnd opts with
  | Some t => add_where (where_modified_end t) b
  | None => b
  end.

(** The order terms: the sorters, then the additional terms, then the
    title; ahead of them all the distance when the closure is used. *)
Definition finalOrderTerms (opts : FinderOpts) (b : Builder) : list string :=
  let orderTerms := map orderTerm (Sorters opts) in
  let orderTerms := orderTerms ++ additionalOrderTerms b in
  let orderTerms := orderTerms ++ ["n.title ASC"] in
  if transitiveClosure b then ["l.distance"] ++ orderTerms else orderTerms.

(** The variables of [findRows] when every filter has been looked at, or
    the error that makes it return before. *)
Definition buildFilters (opts : FinderOpts) : M (Builder * option Error) :=
  s <- get ;;
  let b := setupMatch opts new_builder in
  let b := setupPaths opts b in
  let b := setupExcludeIds opts (heap s) b in
  let '(b, err) := match Tags opts with
                   | Some tags => setupTags tags b
                   | None => (b, None)
                   end in
  match err with
  | Some e => ret (b, Some e)
  | None =>
      '(b, err) <- setupLinkedBy opts b ;;
      match err with
      | Some e => ret (b, Some e)
      | None =>
          '(b, err) <- setupLinkTo opts b ;;
          match err with
          | Some e => ret (b, Some e)
          | None =>
              '(b, err) <- setupRelated opts b ;;
              match err with
              | Some e => ret (b, Some e)
              | None => ret (setupOrphanAndDates opts b, None)
              end
          end
      end
  end.

(** The query [findRows] sends for the variables [b]. *)
Definition buildQuery (opts : FinderOpts) (b : Builder) : Query :=
  {| built := b; orderTerms := finalOrderTerms opts b; limit := Limit opts |}.

(** [findRows]. *)
Definition findRows (opts : FinderOpts) : M (Rows * option Error) :=
  '(b, err) <- buildFilters opts ;;
  match err with
  | Some e => ret (no_rows, Some e)
  | None => tx_Query (buildQuery opts b)
  end.

(** [Find]: the matches are the rows of [findRows], decoded one by one
    (the decoding into [note.Match] is left out); on an error no match is
    returned. *)
Definition Find (opts : FinderOpts) : M (Rows * option Error) :=
  '(opts, err) <- expandMentionsIntoMatch opts ;;
  match err with
  | Some e => ret (no_rows, Some e)
  | None =>
      '(rows, err) <- findRows opts ;;
      match err with
      | Some e => ret (no_rows, Some e)
      | None => ret (rows, None)
      end
  end.

End NoteDAO.

(** ** Sample values *)

(** The options with no filter, no sorter and no limit. *)
Definition no_filter : FinderOpts :=
  {| Match := None; IncludePaths := None; ExcludePaths := None;
     ExcludeIds := nil_slice; Tags := None; Mention := None; LinkedBy := None;
     LinkTo := None; Related := None; Orphan := false; CreatedStart := None;
     CreatedEnd := None; ModifiedStart := None; ModifiedEnd := None;
     Limit := 0; Sorters := [] |}.

Definition set_LinkedBy (f : option LinkFilter.t) (o : FinderOpts) : FinderOpts :=
  {| Match := Match o; IncludePaths := IncludePaths o;
     ExcludePaths := ExcludePaths o; ExcludeIds := ExcludeIds o; Tags := Tags o;
     Mention := Mention o; LinkedBy := f; LinkTo := LinkTo o;
     Related := Related o; Orphan := Orphan o; CreatedStart := CreatedStart o;
     CreatedEnd := CreatedEnd o; ModifiedStart := ModifiedStart o;
     ModifiedEnd := ModifiedEnd o; Limit := Limit o; Sorters := Sorters o |}.

Definition set_LinkTo (f : option LinkFilter.t) (o : FinderOpts) : FinderOpts :=
  {| Match := Match o; IncludePaths := IncludePaths o;
     ExcludePaths := ExcludePaths o; ExcludeIds := ExcludeIds o; Tags := Tags o;
     Mention := Mention o; LinkedBy := LinkedBy o; LinkTo := f;
     Related := Related o; Orphan := Orphan o; CreatedStart := CreatedStart o;
     CreatedEnd := CreatedEnd o; ModifiedStart := ModifiedStart o;
     ModifiedEnd := ModifiedEnd o; Limit := Limit o; Sorters := Sorters o |}.

Definition set_Related (paths : option (list string)) (o : FinderOpts) : FinderOpts :=
  {| Match := Match o; IncludePaths := IncludePaths o;
     ExcludePaths := ExcludePaths o; ExcludeIds := ExcludeIds o; Tags := Tags o;
     Mention := Mention o; LinkedBy := LinkedBy o; LinkTo := LinkTo o;
     Related := paths; Orphan := Orphan o; CreatedStart := CreatedStart o;
     CreatedEnd := CreatedEnd o; ModifiedStart := ModifiedStart o;
     ModifiedEnd := ModifiedEnd o; Limit := Limit o; Sorters := Sorters o |}.

Definition set_Mention (paths : option (list string)) (o : FinderOpts) : FinderOpts :=
  {| Match := Match o; IncludePaths := IncludePaths o;
     ExcludePaths := ExcludePaths o; ExcludeIds := ExcludeIds o; Tags := Tags o;
     Mention := paths; LinkedBy := LinkedBy o; LinkTo := LinkTo o;
     Related := Related o; Orphan := Orphan o; CreatedStart := CreatedStart o;
     CreatedEnd := CreatedEnd o; ModifiedStart := ModifiedStart o;
     ModifiedEnd := ModifiedEnd o; Limit := Limit o; Sorters := Sorters o |}.

Definition set_Tags (tags : option (list string)) (o : FinderOpts) : FinderOpts :=
  {| Match := Match o; IncludePaths := IncludePaths o;
     ExcludePaths := ExcludePaths o; ExcludeIds := ExcludeIds o; Tags := tags;
     Mention := Mention o; LinkedBy := LinkedBy o; LinkTo := LinkTo o;
     Related := Related o; Orphan := Orphan o; CreatedStart := CreatedStart o;
     CreatedEnd := CreatedEnd o; ModifiedStart := ModifiedStart o;
     ModifiedEnd := ModifiedEnd o; Limit := Limit o; Sorters := Sorters o |}.

Definition set_Sorters (sorters : list Sorter) (o : FinderOpts) : FinderOpts :=
  {| Match := Match o; IncludePaths := IncludePaths o;
     ExcludePaths := ExcludePaths o; ExcludeIds := ExcludeIds o; Tags := Tags o;
     Mention := Mention o; LinkedBy := LinkedBy o; LinkTo := LinkTo o;
     Related := Related o; Orphan := Orphan o; CreatedStart := CreatedStart o;
     CreatedEnd := CreatedEnd o; ModifiedStart := ModifiedStart o;
     ModifiedEnd := ModifiedEnd o; Limit := Limit o; Sorters := sorters |}.

(** Stand-ins for what lies outside the DAO, for the samples below: a
    JSON encoder that never fails, a query converter and a pattern escape
    that change nothing, a full-text engine that accepts every query and
    matches every note, globs and regular expressions without special
    characters, and a runtime that doubles capacities. *)
Definition sample_env : Env :=
  {| json_Marshal := fun m => (Some m, None);
     ConvertQuery := fun q => q;
     EscapePattern := fun p => p;
     CollectionKindTag := "tag";
     regexp := fun pattern s => String.eqb pattern s;
     fts_match := fun _ => Some (fun _ => true);
     glob := fun pattern s => String.eqb pattern s;
     growslice := fun cap => (2 * cap)%nat |}.

(** An empty index on which every statement runs. *)
Definition empty_index : State :=
  {| db := {| notes_tbl := []; links_tbl := []; collections_tbl := [];
              notes_collections_tbl := []; notes_seq := 0 |};
     faults := [];
     heap := [] |}.

(** An internal link to [href]. *)
Definition internal_link (href : string) : Link.t :=
  {| Link.Title := href; Link.Href := href; Link.External := false;
     Link.Rels := []; Link.Snippet := href; Link.SnippetStart := 0;
     Link.SnippetEnd := 0 |}.

(** A note at [path], titled [title], created at [created], with internal
    links to [hrefs] and the metadata [meta]. *)
Definition note_at (path title : string) (created : Z) (hrefs : list string)
    (meta : JObject) : Metadata.t :=
  {| Metadata.Path := path; Metadata.Title := title; Metadata.Lead := "";
     Metadata.Body := ""; Metadata.RawContent := ""; Metadata.WordCount := 0;
     Metadata.Links := map internal_link hrefs; Metadata.Tags := [];
     Metadata.Metadata := meta; Metadata.Created := created;
     Metadata.Modified := created; Metadata.Checksum := "" |}.

(** The index after the notes [ns] were added one after the other. *)
Definition index_of (ns : list Metadata.t) : State :=
  fold_left (fun s n => snd (Add sample_env n s)) ns empty_index.

(** A link filter on one path. *)
Definition filter_on (path : string) (recursive : bool) (maxDistance : Z)
    : LinkFilter.t :=
  {| LinkFilter.Paths := [path]; LinkFilter.Negate := false;
     LinkFilter.Recursive := recursive; LinkFilter.MaxDistance := maxDistance |}.

(** The paths of the notes a query selects, and its error. *)
Definition found_paths (r : Rows * option Error * State)
    : list string * option Error :=
  (map notes.path (selected (fst (fst r))), snd (fst r)).

(** The chain A -> B -> C -> D; each link is stored before the note it
    points to and gets its target when that note is added. *)
Definition chain_index : State :=
  index_of [ note_at "a" "A" 0 ["b"] []; note_at "b" "B" 0 ["c"] [];
             note_at "c" "C" 0 ["d"] []; note_at "d" "D" 0 [] [] ].

(** A -> B and C -> B. *)
Definition fan_in_index : State :=
  index_of [ note_at "a" "A" 0 ["b"] []; note_at "b" "B" 0 [] [];
             note_at "c" "C" 0 ["b"] [] ].

(** A -> B and B -> C. *)
Definition two_hop_index : State :=
  index_of [ note_at "a" "A" 0 ["b"] []; note_at "b" "B" 0 ["c"] [];
             note_at "c" "C" 0 [] [] ].

(** A links to the path [b/note] before any note is there; then a note is
    added at [b/note]. *)
Definition forward_index : State :=
  index_of [ note_at "a" "A" 0 ["b/note"] []; note_at "b/note" "B" 0 [] [] ].

(** The index of [forward_index] behind a database whose next statement
    fails while it runs. *)
Definition failing_index : State :=
  set_faults [ExecFails "disk I/O error"] forward_index.

(** The relevance term [findRows] adds for a match expression. *)
Definition relevance_term : string := "bm25(notes_fts, 1000.0, 500.0, 1.0)".

(** [grows b b']: the steps from [b] to [b'] kept the additional order
    terms and only added to [whereExprs]. *)
Definition grows (b b' : Builder) : Prop :=
  additionalOrderTerms b' = additionalOrderTerms b
  /\ exists ws, whereExprs b' = whereExprs b ++ ws.

(** A query sorted by creation date whose match expression is [zk]. *)
Definition matched_by_date : FinderOpts :=
  set_Sorters [ {| Field := SortCreated; Ascending := true |} ]
    (set_Match (Some "zk") no_filter).

(** ** Vocabulary of the statements about writes *)

(** The id a path prefix resolves to in the notes [ns]: the first note, in
    table order, whose path matches [prefix || '%'], 0 when there is
    none. *)
Definition resolve (ns : list notes.row) (prefix : string) : NoteId :=
  match find (fun n => Str.like (prefix +s+ "%") (notes.path n)) ns with
  | Some n => notes.id n
  | None => 0
  end.

(** The row of [links] stored for the link [link] of note [id] when the
    notes are [ns]. *)
Definition stored_link (ns : list notes.row) (id : NoteId) (link : Link.t)
    : links.row :=
  {| links.source_id := id;
     links.target_id := sql_of_null (idToSql (resolve ns (Link.Href link)));
     links.title := Link.Title link; links.href := Link.Href link;
     links.external := Link.External link;
     links.rels := joinLinkRels (Link.Rels link);
     links.snippet := Link.Snippet link;
     links.snippet_start := Link.SnippetStart link;
     links.snippet_end := Link.SnippetEnd link |}.

(** What the backfill for the note [id] at [path] makes of a row of
    [links]. *)
Definition heal (id : NoteId) (path : string) (l : links.row) : links.row :=
  if misses_target path l then links.set_target (Some id) l else l.

(** The row of [notes] holds every field of the record [note]. *)
Definition row_holds (note : Metadata.t) (json : JsonText) (n : notes.row) : Prop :=
  notes.path n = Metadata.Path note
  /\ notes.title n = Metadata.Title note
  /\ notes.lead n = Metadata.Lead note
  /\ notes.body n = Metadata.Body note
  /\ notes.raw_content n = Metadata.RawContent note
  /\ notes.word_count n = Metadata.WordCount note
  /\ notes.metadata n = json
  /\ notes.checksum n = Metadata.Checksum note
  /\ notes.created n = Metadata.Created note
  /\ notes.modified n = Metadata.Modified note.

(** The row of [notes] holds the fields [updateStmt] sets from [note]. *)
Definition row_updated (note : Metadata.t) (json : JsonText) (n : notes.row) : Prop :=
  notes.title n = Metadata.Title note
  /\ notes.lead n = Metadata.Lead note
  /\ notes.body n = Metadata.Body note
  /\ notes.raw_content n = Metadata.RawContent note
  /\ notes.word_count n = Metadata.WordCount note
  /\ notes.metadata n = json
  /\ notes.checksum n = Metadata.Checksum note
  /\ notes.modified n = Metadata.Modified note.

(** The index holds the note A, created at 1, with a link to the missing
    path [x]; the record read again from the file says it was created at 2,
    is titled [A2] and links to nothing. *)
Definition index_before_update : State :=
  index_of [ note_at "a" "A" 1 ["x"] [] ].

Definition updated_record : Metadata.t := note_at "a" "A2" 2 [] [].

(** The ids the paths [paths] resolve to, in their order: what
    [findIdsByPathPrefixes] collects when the database does not fail. *)
Definition resolve_all (ns : list notes.row) (paths : list string) : list NoteId :=
  filter IsValid (map (resolve ns) paths).

(** The row [addStmt] stores for the record [note] under the id [id]. *)
Definition stored_note (id : Z) (json : JsonText) (note : Metadata.t) : notes.row :=
  {| notes.id := id; notes.path := Metadata.Path note;
     notes.sortable_path := Str.ReplaceAll (Metadata.Path note) "/" Str.x01;
     notes.title := Metadata.Title note; notes.lead := Metadata.Lead note;
     notes.body := Metadata.Body note;
     notes.raw_content := Metadata.RawContent note;
     notes.word_count := Metadata.WordCount note; notes.metadata := json;
     notes.checksum := Metadata.Checksum note;
     notes.created := Metadata.Created note;
     notes.modified := Metadata.Modified note |}.

(** Options whose only filter is [LinkedBy], [LinkTo] or [Related]. *)
Definition only_LinkedBy (f : LinkFilter.t) : FinderOpts := set_LinkedBy (Some f) no_filter.
Definition only_LinkTo (f : LinkFilter.t) : FinderOpts := set_LinkTo (Some f) no_filter.
Definition only_Related (paths : list string) : FinderOpts :=
  set_Related (Some paths) no_filter.

(** A filter on the one path [path] that is neither negated nor
    recursive. *)
Definition direct_filter (path : string) (maxDistance : Z) : LinkFilter.t :=
  filter_on path false maxDistance.

(** The index with the note A alone, which links to the path [b/note]
    where no note is yet, and the note then added at [b/note]. *)
Definition dangling_index : State := index_of [ note_at "a" "A" 0 ["b/note"] [] ].

Definition late_note : Metadata.t := note_at "b/note" "B" 0 [] [].

(** ** Vocabulary of the statements about the closure *)

(** [reaches ls maxDistance r]: the row [r] stands for a chain of links of
    [ls], each starting where the one before ends, none but the first
    ending at a note already on the chain, and no link added to a chain
    that has [maxDistance] links when that is not 0. *)
Inductive reaches (ls : list links.row) (maxDistance : Z) : tc_row -> Prop :=
| reach_link (l : links.row) :
    In l ls -> reaches ls maxDistance (tc_base l)
| reach_more (tc : tc_row) (l : links.row) (p : list Z) (t : Z) :
    reaches ls maxDistance tc ->
    In l ls ->
    tc_target_id tc = Some (links.source_id l) ->
    tc_path tc = Some p ->
    links.target_id l = Some t ->
    ~ In t p ->
    maxDistance = 0 \/ tc_distance tc < maxDistance ->
    reaches ls maxDistance
      {| tc_source_id := tc_source_id tc; tc_target_id := Some t;
         tc_distance := tc_distance tc + 1; tc_path := Some (p ++ [t]) |}.

(** The row joins the note [n] to a seed by links followed forward from
    the seed ([forward]) or forward from the note ([backward]). *)
Definition forward (ids : list NoteId) (n : Z) (r : tc_row) : Prop :=
  tc_target_id r = Some n /\ In (tc_source_id r) ids.

Definition backward (ids : list NoteId) (n : Z) (r : tc_row) : Prop :=
  tc_source_id r = n /\ exists t, tc_target_id r = Some t /\ In t ids.

(** Recursive filters on one path. *)
Definition closure_filter (path : string) (maxDistance : Z) : LinkFilter.t :=
  filter_on path true maxDistance.

(** [one_link ls ids n]: one link of [ls] goes from a seed to the note
    [n], or from [n] to a seed. *)
Definition one_link (ls : list links.row) (ids : list NoteId) (n : Z) : Prop :=
  exists l t,
    In l ls /\ links.target_id l = Some t
    /\ ((In (links.source_id l) ids /\ t = n)
        \/ (links.source_id l = n /\ In t ids)).

(** [two_links ls ids n]: two links of [ls], the second starting where
    the first ends and ending at neither end of the first, go from a seed
    to the note [n], or from [n] to a seed. *)
Definition two_links (ls : list links.row) (ids : list NoteId) (n : Z) : Prop :=
  exists l1 l2 m t,
    In l1 ls /\ In l2 ls
    /\ links.target_id l1 = Some m /\ links.source_id l2 = m
    /\ links.target_id l2 = Some t
    /\ t <> links.source_id l1 /\ t <> m
    /\ ((In (links.source_id l1) ids /\ t = n)
        \/ (links.source_id l1 = n /\ In t ids)).

(** The closure and its limit are reasoned about, not unfolded, when
    goals are simplified. *)
Arguments tc_limit : simpl never.
Arguments transitive_closure : simpl never.
Arguments min_distance : simpl never.

(** ** Vocabulary of the statements about tags *)

(** A piece of a tag group carries the mark of negation: once trimmed it
    starts with [-] or with [NOT]. *)
Definition is_negated (piece : string) : bool :=
  let tag := Str.TrimSpace piece in
  (Str.HasPrefix tag "-" || Str.HasPrefix tag "NOT")%bool.

(** The pattern of a piece: the piece trimmed, without its mark of
    negation, trimmed again. *)
Definition pattern_of (piece : string) : string :=
  let tag := Str.TrimSpace piece in
  Str.TrimSpace
    (if Str.HasPrefix tag "-" then Str.TrimPrefix tag "-"
     else if Str.HasPrefix tag "NOT" then Str.TrimPrefix tag "NOT"
     else tag).

(** The patterns of a tag group: those of its pieces that are not empty. *)
Definition patterns_of (tagsArg : string) : list string :=
  filter (fun p => negb (Nat.eqb (String.length p) 0))
         (map pattern_of (split_tags tagsArg)).

(** A group is negated when one of its pieces is. *)
Definition group_negated (tagsArg : string) : bool :=
  existsb is_negated (split_tags tagsArg).

(** Three notes: A tagged [foo], B tagged [bar], C without tag. *)
Definition tagged_index : State :=
  let s := index_of [ note_at "a" "A" 0 [] []; note_at "b" "B" 0 [] [];
                      note_at "c" "C" 0 [] [] ] in
  set_db {| notes_tbl := notes_tbl (db s); links_tbl := links_tbl (db s);
            collections_tbl :=
              [ {| collections.id := 1; collections.kind := "tag";
                   collections.name := "foo" |};
                {| collections.id := 2; collections.kind := "tag";
                   collections.name := "bar" |} ];
            notes_collections_tbl := [(1, 1); (2, 2)];
            notes_seq := notes_seq (db s) |} s.

(** Options whose only filter is the list of tag groups [groups]. *)
Definition only_Tags (groups : list string) : FinderOpts :=
  set_Tags (Some groups) no_filter.

(** Two option values that differ at most in their match expression and
    their excluded ids. *)
Definition same_filters (o o' : FinderOpts) : Prop :=
  IncludePaths o' = IncludePaths o /\ ExcludePaths o' = ExcludePaths o
  /\ Tags o' = Tags o /\ Mention o' = Mention o
  /\ LinkedBy o' = LinkedBy o /\ LinkTo o' = LinkTo o
  /\ Related o' = Related o /\ Orphan o' = Orphan o
  /\ CreatedStart o' = CreatedStart o /\ CreatedEnd o' = CreatedEnd o
  /\ ModifiedStart o' = ModifiedStart o /\ ModifiedEnd o' = ModifiedEnd o
  /\ Limit o' = Limit o /\ Sorters o' = Sorters o.

(** ** Vocabulary of the statements about mentions *)

(** The slice lies within its backing array, and the array is on the
    heap. *)
Definition slice_wf (h : list (list NoteId)) (sl : Slice) : Prop :=
  match sl with
  | nil_slice => True
  | slice arr off len cap =>
      (arr < List.length h)%nat /\ (len <= cap)%nat
      /\ (off + cap <= List.length (nth arr h []))%nat
  end.

(** The cell that follows the window of [cur] is no cell of the window
    of [w]. *)
Definition hidden_from (w cur : Slice) : Prop :=
  match w, cur with
  | slice a o l _, slice a' o' l' _ => a <> a' \/ (o + l <= o' + l')%nat
  | _, _ => True
  end.

(** A title or alias as a phrase of the match expression. *)
Definition phrase (t : string) : string :=
  Str.dquote +s+ Str.ReplaceAll t Str.dquote "" +s+ Str.dquote.

(** The aliases in the metadata of a note: the value under [aliases] when
    it is a string, its elements as [fmt.Sprint] prints them when it is a
    list. *)
Definition aliases_of (metadataJSON : JsonText) : list string :=
  match metadataJSON with
  | Some m =>
      match map_get m "aliases" with
      | Some (JString a) => [a]
      | Some (JList l) => map Sprint l
      | _ => []
      end
  | None => []
  end.

(** The notes of [ns] with an id among [ids], in table order. *)
Definition notes_with_ids (ns : list notes.row) (ids : list NoteId) : list notes.row :=
  filter (fun n => existsb (Z.eqb (notes.id n)) ids) ns.

(** The phrases of the mentioned notes: for each note its title, then its
    aliases. *)
Definition mention_phrases (ns : list notes.row) : list string :=
  flat_map (fun n => map phrase (notes.title n :: aliases_of (notes.metadata n))) ns.


(** Options whose only filter is the list of mentions [paths]. *)
Definition only_Mention (paths : list string) : FinderOpts :=
  set_Mention (Some paths) no_filter.



(** ** The other methods of [NoteDAO] *)

(** [DELETE FROM notes WHERE id = ?].  What the deletion of a note does
    to the rows that refer to it is decided by the schema, which is not
    part of these sources: it is the parameter [on_delete], applied to the
    id of the deleted note. *)
Definition removeStmt (on_delete : Z -> DB -> DB) (id : NoteId) : M (option Error) :=
  exec (fun d =>
    on_delete id
      (set_notes (filter (fun n => negb (notes.id n =? id)) (notes_tbl d)) d)).

(** [Remove]. *)
Definition Remove (on_delete : Z -> DB -> DB) (path : string) : M (option Error) :=
  '(id, err) <- findIdByPath path ;;
  match err with
  | Some e => ret (Some e)
  | None =>
      if negb (IsValid id)
      then ret (Some (ErrMessage "note not found in the index"))
      else removeStmt on_delete id
  end.

(** Modelled from the spec: the links of a removed note are removed with
    it, and a link to it goes back to having no target. *)
Definition cascade (id : Z) (d : DB) : DB :=
  set_links
    (map (fun l => match links.target_id l with
                   | Some t => if t =? id then links.set_target None l else l
                   | None => l
                   end)
         (filter (fun l => negb (links.source_id l =? id)) (links_tbl d)))
    d.

(** [x] put in its place in a list ordered by [sortable_path], compared
    byte by byte as SQLite compares texts. *)
Fixpoint insert_sorted (x : notes.row) (l : list notes.row) : list notes.row :=
  match l with
  | [] => [x]
  | y :: l' =>
      match String.compare (notes.sortable_path x) (notes.sortable_path y) with
      | Gt => y :: insert_sorted x l'
      | _ => x :: l
      end
  end.

(** [ORDER BY sortable_path ASC]. *)
Definition order_by_sortable_path (l : list notes.row) : list notes.row :=
  fold_right insert_sorted [] l.

(** [Indexed]: the values sent on the channel until it is closed, in
    their order, for [SELECT path, modified from notes ORDER BY
    sortable_path ASC]; [paths.Metadata] is the pair of a path and a
    modification time. *)
Definition Indexed : M (list (string * Z) * option Error) :=
  o <- next_outcome ;;
  match outcome_error o with
  | Some e => ret ([], Some e)
  | None =>
      s <- get ;;
      ret (map (fun n => (notes.path n, notes.modified n))
               (order_by_sortable_path (notes_tbl (db s))), None)
  end.

(** The order on paths in which the separator [/] comes before every
    other character, and the other characters in the order of their
    bytes. *)
Fixpoint separator_first (a b : string) : comparison :=
  match a, b with
  | EmptyString, EmptyString => Eq
  | EmptyString, String _ _ => Lt
  | String _ _, EmptyString => Gt
  | String c a', String d b' =>
      if Ascii.eqb c d then separator_first a' b'
      else if Ascii.eqb c "/"%char then Lt
      else if Ascii.eqb d "/"%char then Gt
      else Ascii.compare c d
  end.

(** No byte of the path is [\x00] or [\x01]. *)
Fixpoint printable (s : string) : bool :=
  match s with
  | EmptyString => true
  | String c s' => (Nat.ltb 1 (nat_of_ascii c) && printable s')%bool
  end.

(** What the index keeps whatever is written to it: paths and ids are
    borne by one note each, and the ids are positive and not above the
    sequence. *)
Definition index_ok (d : DB) : Prop :=
  NoDup (map notes.path (notes_tbl d))
  /\ NoDup (map notes.id (notes_tbl d))
  /\ 0 <= notes_seq d
  /\ forall n, In n (notes_tbl d) -> 0 < notes.id n <= notes_seq d.

(** The schema leaves the notes and their sequence alone when it
    propagates a deletion. *)
Definition keeps_notes (on_delete : Z -> DB -> DB) : Prop :=
  forall id d,
    notes_tbl (on_delete id d) = notes_tbl d
    /\ notes_seq (on_delete id d) = notes_seq d.

(** [s] contains [x]. *)
Definition contains (s x : string) : Prop :=
  exists pre post, s = pre +s+ x +s+ post.

(** ** The command [zk list]: from its arguments to list options *)

Module cmd.

(** [cmd.List], the arguments of the command. *)
Record List : Type := {
  Path : list string;
  Format : string;
  Match : string;
  Limit : Z;
  Created : string;
  CreatedBefore : string;
  CreatedAfter : string;
  Modified : string;
  ModifiedBefore : string;
  ModifiedAfter : string;
  Exclude : list string
}.

(** The types of package [core/note] the command fills. *)
Module note.

(** [note.DateField] and [note.DateDirection]. *)
Inductive DateField : Type := DateCreated | DateModified.
Inductive DateDirection : Type := DateOn | DateBefore | DateAfter.

(** [note.Filter], as the command builds its values: [note.PathFilter],
    [note.ExcludePathFilter], [note.MatchFilter] and [note.DateFilter]. *)
Inductive Filter : Type :=
| PathFilter (paths : list string)
| ExcludePathFilter (paths : list string)
| MatchFilter (terms : string)
| DateFilter (Date : Z) (Field : DateField) (Direction : DateDirection).

(** [note.ListOpts] with the [note.FinderOpts] the command fills. *)
Record ListOpts : Type := {
  Format : option string;
  Filters : list Filter;
  Limit : Z
}.

End note.

Section Args.

(** [zk.RelPath]: the path relative to the notebook, [None] when it
    returns an error. *)
Variable RelPath : string -> option string.

(** [parseDate], which hands the text to [naturaldate.Parse] together
    with [time.Now()]: the first argument stands for the instant of the
    call. *)
Variable parseDate : nat -> string -> Z * option Error.

(** [opt.NewNotEmptyString], of package [util/opt]. *)
Variable NewNotEmptyString : string -> option string.

(** The loop of [relPaths]. *)
Fixpoint relPaths_from (relPaths : list string) (paths : list string) : list string :=
  match paths with
  | [] => relPaths
  | p :: rest =>
      match RelPath p with
      | Some path => relPaths_from (relPaths ++ [path]) rest
      | None => relPaths_from relPaths rest
      end
  end.

(** [relPaths]. *)
Definition relPaths (paths : list string) : list string * bool :=
  let relPaths := relPaths_from [] paths in
  (relPaths, Nat.ltb 0 (List.length relPaths)).

(** One of the six blocks of [ListOpts] on a date argument, run at the
    instant [now]: an empty argument adds nothing, a date that does not
    parse ends [ListOpts]. *)
Definition dateFilter (now : nat) (arg : string) (field : note.DateField)
    (direction : note.DateDirection) (filters : list note.Filter)
    : list note.Filter * option Error :=
  if String.eqb arg "" then (filters, None)
  else
    let '(date, err) := parseDate now arg in
    match err with
    | Some e => (filters, Some e)
    | None => (filters ++ [note.DateFilter date field direction], None)
    end.

(** [ListOpts]; the six blocks on dates run at the instants 0 to 5. *)
Definition ListOpts (c : List) : option note.ListOpts * option Error :=
  let filters := [] in
  let '(paths, ok) := relPaths (Path c) in
  let filters := if ok then filters ++ [note.PathFilter paths] else filters in
  let '(excludePaths, ok) := relPaths (Exclude c) in
  let filters := if ok then filters ++ [note.ExcludePathFilter excludePaths] else filters in
  let filters := if negb (String.eqb (Match c) "")
                 then filters ++ [note.MatchFilter (Match c)] else filters in
  let '(filters, err) := dateFilter 0 (Created c) note.DateCreated note.DateOn filters in
  match err with
  | Some e => (None, Some e)
  | None =>
  let '(filters, err) := dateFilter 1 (CreatedBefore c) note.DateCreated note.DateBefore filters in
  match err with
  | Some e => (None, Some e)
  | None =>
  let '(filters, err) := dateFilter 2 (CreatedAfter c) note.DateCreated note.DateAfter filters in
  match err with
  | Some e => (None, Some e)
  | None =>
  let '(filters, err) := dateFilter 3 (Modified c) note.DateModified note.DateOn filters in
  match err with
  | Some e => (None, Some e)
  | None =>
  let '(filters, err) := dateFilter 4 (ModifiedBefore c) note.DateModified note.DateBefore filters in
  match err with
  | Some e => (None, Some e)
  | None =>
  let '(filters, err) := dateFilter 5 (ModifiedAfter c) note.DateModified note.DateAfter filters in
  match err with
  | Some e => (None, Some e)
  | None =>
      (Some {| note.Format := NewNotEmptyString (Format c);
               note.Filters := filters;
               note.Limit := Limit c |}, None)
  end end end end end end.

End Args.

(** A date argument of the command: the instant at which [ListOpts]
    reads it, its text, and the field and the direction it stands for. *)
Record DateArg : Type := {
  instant : nat;
  text : string;
  field : note.DateField;
  direction : note.DateDirection
}.

(** The date arguments of the command that are given, in the order
    [ListOpts] reads them. *)
Definition given_dates (c : List) : list DateArg :=
  filter (fun a => negb (String.eqb (text a) ""))
    [ {| instant := 0; text := Created c;
         field := note.DateCreated; direction := note.DateOn |};
      {| instant := 1; text := CreatedBefore c;
         field := note.DateCreated; direction := note.DateBefore |};
      {| instant := 2; text := CreatedAfter c;
         field := note.DateCreated; direction := note.DateAfter |};
      {| instant := 3; text := Modified c;
         field := note.DateModified; direction := note.DateOn |};
      {| instant := 4; text := ModifiedBefore c;
         field := note.DateModified; direction := note.DateBefore |};
      {| instant := 5; text := ModifiedAfter c;
         field := note.DateModified; direction := note.DateAfter |} ].

(** The error, if any, of [parseDate] on a date argument, and the filter
    the argument stands for. *)
Definition date_error (parseDate : nat -> string -> Z * option Error) (a : DateArg)
    : option Error :=
  snd (parseDate (instant a) (text a)).

Definition date_filter (parseDate : nat -> string -> Z * option Error) (a : DateArg)
    : note.Filter :=
  note.DateFilter (fst (parseDate (instant a) (text a))) (field a) (direction a).

(** The paths of [paths] the notebook knows, relative to it. *)
Definition known_paths (RelPath : string -> option string) (paths : list string)
    : list string :=
  flat_map (fun p => match RelPath p with Some r => [r] | None => [] end) paths.

(** The filters that come before the dates. *)
Definition leading_filters (RelPath : string -> option string) (c : List)
    : list note.Filter :=
  (match known_paths RelPath (Path c) with
   | [] => []
   | paths => [note.PathFilter paths]
   end)
  ++ (match known_paths RelPath (Exclude c) with
      | [] => []
      | paths => [note.ExcludePathFilter paths]
      end)
  ++ (if String.eqb (Match c) "" then [] else [note.MatchFilter (Match c)]).

(** A notebook in which the paths under [notes/] are known, and dates
    that parse when they are made of the digit 7. *)
Definition sample_RelPath (p : string) : option string :=
  if Str.HasPrefix p "notes/" then Some p else None.

Definition sample_parseDate (now : nat) (s : string) : Z * option Error :=
  if String.eqb s "7" then (7, None)
  else (0, Some (ErrMessage "naturaldate: unknown date")).

Definition sample_NewNotEmptyString (s : string) : option string :=
  if String.eqb s "" then None else Some s.

Definition sample_args : List :=
  {| Path := ["/tmp/x"; "notes/a"]; Format := ""; Match := "zk"; Limit := 3;
     Created := ""; CreatedBefore := "7"; CreatedAfter := "";
     Modified := "soon"; ModifiedBefore := ""; ModifiedAfter := "7";
     Exclude := ["/tmp/y"] |}.

(** The same arguments with dates that all parse. *)
Definition dated_args : List :=
  {| Path := ["/tmp/x"; "notes/a"]; Format := ""; Match := "zk"; Limit := 3;
     Created := ""; CreatedBefore := "7"; CreatedAfter := "";
     Modified := ""; ModifiedBefore := ""; ModifiedAfter := "7";
     Exclude := ["/tmp/y"] |}.

End cmd.

(** The row of [notes] after [updateStmt] for the record [note]. *)
Definition updated_row (json : JsonText) (note : Metadata.t) (n : notes.row)
    : notes.row :=
  if String.eqb (notes.path n) (Metadata.Path note) then
    {| notes.id := notes.id n; notes.path := notes.path n;
       notes.sortable_path := notes.sortable_path n;
       notes.title := Metadata.Title note; notes.lead := Metadata.Lead note;
       notes.body := Metadata.Body note;
       notes.raw_content := Metadata.RawContent note;
       notes.word_count := Metadata.WordCount note; notes.metadata := json;
       notes.checksum := Metadata.Checksum note; notes.created := notes.created n;
       notes.modified := Metadata.Modified note |}
  else n.

(** The database after a successful [Update] of the note [id] with the
    record [note]. *)
Definition updated_db (json : JsonText) (note : Metadata.t) (id : NoteId) (d : DB)
    : DB :=
  set_links
    (map (heal id (Metadata.Path note))
         (filter (fun l => negb (links.source_id l =? id)) (links_tbl d)
          ++ map (stored_link (map (updated_row json note) (notes_tbl d)) id)
                 (Metadata.Links note)))
    (set_notes (map (updated_row json note) (notes_tbl d)) d).

(** Two databases with the same notes and the same sequence. *)
Definition same_notes (d d' : DB) : Prop :=
  notes_tbl d' = notes_tbl d /\ notes_seq d' = notes_seq d.

(** ** Vocabulary of the statements about reads *)

(** The computation leaves the database as it found it. *)
Definition keeps_db {A : Type} (m : M A) : Prop :=
  forall s, db (snd (m s)) = db s.

(** Three notes created at 1, 5 and 9; the first links to the second. *)
Definition dated_index : State :=
  index_of [ note_at "a" "A" 1 ["b"] []; note_at "b" "B" 5 [] [];
             note_at "c" "C" 9 [] [] ].

(** The orphans created from [lo] on and before [hi]. *)
Definition orphans_between (lo hi : Z) : FinderOpts :=
  {| Match := None; IncludePaths := None; ExcludePaths := None;
     ExcludeIds := nil_slice; Tags := None; Mention := None; LinkedBy := None;
     LinkTo := None; Related := None; Orphan := true; CreatedStart := Some lo;
     CreatedEnd := Some hi; ModifiedStart := None; ModifiedEnd := None;
     Limit := 0; Sorters := [] |}.

(** The notes under one of [paths] and under none of [excluded]. *)
Definition under (paths excluded : list string) : FinderOpts :=
  {| Match := None; IncludePaths := Some paths; ExcludePaths := Some excluded;
     ExcludeIds := nil_slice; Tags := None; Mention := None; LinkedBy := None;
     LinkTo := None; Related := None; Orphan := false; CreatedStart := None;
     CreatedEnd := None; ModifiedStart := None; ModifiedEnd := None;
     Limit := 0; Sorters := [] |}.

(** The row of the first note of [dated_index]. *)
Definition dated_a : notes.row :=
  stored_note 1 (Some []) (note_at "a" "A" 1 ["b"] []).

(** The row of the last note of [dated_index]. *)
Definition dated_c : notes.row :=
  stored_note 3 (Some []) (note_at "c" "C" 9 [] []).

(** The stand-ins of [sample_env], with regular expressions that match
    the texts they start with: the expression [pathRegex p] then matches
    the path [p]. *)
Definition path_env : Env :=
  {| json_Marshal := json_Marshal sample_env;
     ConvertQuery := ConvertQuery sample_env;
     EscapePattern := EscapePattern sample_env;
     CollectionKindTag := CollectionKindTag sample_env;
     regexp := fun pattern s => Str.HasPrefix pattern s;
     fts_match := fts_match sample_env;
     glob := glob sample_env;
     growslice := growslice sample_env |}.

(** Options that exclude the one id held in the first cell of a backing
    array, and [dated_index] with such an array, holding the id 1, on its
    heap. *)
Definition excluding_first : FinderOpts := set_ExcludeIds (slice 0 0 1 3) no_filter.

Definition dated_heap_index : State := set_heap [[1; 0; 0]] dated_index.

(** A link of [ls] goes from one of [ids] to the note [n]. *)
Definition linked_from (ls : list links.row) (ids : list NoteId) (n : Z) : Prop :=
  exists l, In l ls /\ In (links.source_id l) ids /\ links.target_id l = Some n.

(** A link of [ls] goes from the note [n] to one of [ids]. *)
Definition links_into (ls : list links.row) (ids : list NoteId) (n : Z) : Prop :=
  exists l t,
    In l ls /\ links.source_id l = n /\ links.target_id l = Some t /\ In t ids.

(** A filter on one path that is negated and not recursive. *)
Definition negated_filter (path : string) : LinkFilter.t :=
  {| LinkFilter.Paths := [path]; LinkFilter.Negate := true;
     LinkFilter.Recursive := false; LinkFilter.MaxDistance := 0 |}.

(** The row of the note C of [chain_index]. *)
Definition chain_c : notes.row :=
  stored_note 3 (Some []) (note_at "c" "C" 0 ["d"] []).


(** A cycle A -> B -> C -> A. *)
Definition cycle_index : State :=
  index_of [ note_at "a" "A" 0 ["b"] []; note_at "b" "B" 0 ["c"] [];
             note_at "c" "C" 0 ["a"] [] ].

(** The row of the closure of [cycle_index] that goes from A through B
    to C. *)
Definition cycle_a_c : tc_row :=
  {| tc_source_id := 1; tc_target_id := Some 3; tc_distance := 2;
     tc_path := Some [1; 2; 3] |}.

(** The row of the note A of [tagged_index]. *)
Definition tagged_a : notes.row :=
  stored_note 1 (Some []) (note_at "a" "A" 0 [] []).

(** The note [n] carries a tag of the index whose name one of [globs]
    matches. *)
Definition tagged_like (env : Env) (d : DB) (globs : list string) (n : Z) : Prop :=
  exists t p,
    In t (collections_tbl d)
    /\ In (n, collections.id t) (notes_collections_tbl d)
    /\ collections.kind t = CollectionKindTag env
    /\ In p globs
    /\ glob env p (collections.name t) = true.

(** The id is valid and belongs to a note of [d] whose path one of
    [paths] opens (in the sense of [path LIKE ? || '%']). *)
Definition resolves_to (d : DB) (paths : list string) (id : NoteId) : Prop :=
  IsValid id = true
  /\ exists n p,
       In n (notes_tbl d) /\ notes.id n = id /\ In p paths
       /\ Str.like (p +s+ "%") (notes.path n) = true.

(** [a] does not come after [b] in [ORDER BY sortable_path ASC]. *)
Definition sortable_le (a b : notes.row) : Prop :=
  String.compare (notes.sortable_path a) (notes.sortable_path b) <> Gt.

(** Notes in a directory [a], beside a note whose name goes on after
    [a]: in byte order [a-b] comes before [a/x]. *)
Definition nested_index : State :=
  index_of [ note_at "a/x" "X" 0 [] []; note_at "a-b" "B" 0 [] [];
             note_at "a/c" "C" 0 [] [] ].

(** The value is an error. *)
Definition is_error (e : option Error) : bool :=
  match e with
  | Some _ => true
  | None => false
  end.

(** [f] changes of a link at most the target, and only from NULL to [id]
    on a link that is not external. *)
Definition backfills (id : NoteId) (f : links.row -> links.row) : Prop :=
  forall l,
    f l = l
    \/ (links.target_id l = None /\ links.external l = false
        /\ f l = links.set_target (Some id) l).

(** ** Lists in one column *)

(** [sql.NullString]. *)
Module NullString.
Record t : Type := { String : string; Valid : bool }.
End NullString.

(** [strings.Split(s, sep)] for a separator of one byte: the pieces of
    [s] between the occurrences of [sep]; a text without [sep] is its own
    single piece. *)
Fixpoint Split (s : string) (sep : ascii) : list string :=
  match s with
  | EmptyString => [EmptyString]
  | String c s' =>
      if Ascii.eqb c sep then EmptyString :: Split s' sep
      else match Split s' sep with
           | piece :: pieces => String c piece :: pieces
           | [] => [String c EmptyString]
           end
  end.

(** Modelled from the spec: package [util/strings] is not part of these
    sources; the spec has the fragments deduplicated, preserving
    first-seen order.  [res] holds the texts kept so far. *)
Fixpoint RemoveDuplicates_from (res : list string) (l : list string) : list string :=
  match l with
  | [] => res
  | val :: rest =>
      if existsb (String.eqb val) res then RemoveDuplicates_from res rest
      else RemoveDuplicates_from (res ++ [val]) rest
  end.

Definition RemoveDuplicates (l : list string) : list string :=
  RemoveDuplicates_from [] l.

(** [parseListFromNullString]. *)
Definition parseListFromNullString (str : NullString.t) : list string :=
  if (NullString.Valid str && negb (String.eqb (NullString.String str) ""))%bool
  then RemoveDuplicates (Split (NullString.String str) (ascii_of_nat 1))
  else [].

(** The column the engine hands back for the fragments [pieces]
    concatenated with the separator [\x01]. *)
Definition concatenated (pieces : list string) : NullString.t :=
  {| NullString.String := Str.Join pieces Str.x01; NullString.Valid := true |}.

(** ** Vocabulary of the statements about the WHERE clause *)

(** The element is the one of the include paths. *)
Definition is_include (w : WhereExpr) : bool :=
  match w with
  | where_include_paths _ => true
  | _ => false
  end.

(** The text of the element is one operand of the WHERE clause: it is
    not empty and has no [OR] at its top level. *)
Definition plain (w : WhereExpr) : bool :=
  match w with
  | where_include_paths [_] => true
  | where_include_paths _ => false
  | _ => true
  end.

(** The elements [findRows] puts first in [whereExprs]: the match
    expression, then the include paths. *)
Definition leading_exprs (env : Env) (opts : FinderOpts) : list WhereExpr :=
  (match Match opts with
   | Some _ => [where_match (ConvertQuery env (opt_String (Match opts)))]
   | None => []
   end)
  ++ (match IncludePaths opts with
      | Some paths => [where_include_paths (map (pathRegex env) paths)]
      | None => []
      end).

(** [trails b b']: the steps from [b] to [b'] only added to [whereExprs],
    and nothing about include paths. *)
Definition trails (b b' : Builder) : Prop :=
  exists ws, whereExprs b' = whereExprs b ++ ws /\ existsb is_include ws = false.

(** The path of the note matches the expression of an include path that
    is not the last one.  In the WHERE clause an [OR] follows that
    expression, and what comes after the [OR] does not bear on the
    note. *)
Definition escapes (env : Env) (opts : FinderOpts) (n : notes.row) : bool :=
  match IncludePaths opts with
  | Some paths =>
      existsb (fun p => regexp env (pathRegex env p) (notes.path n))
              (removelast paths)
  | None => false
  end.

(** Options that filter on include paths and on tag groups. *)
Definition tagged_under (paths groups : list string) : FinderOpts :=
  {| Match := None; IncludePaths := Some paths; ExcludePaths := None;
     ExcludeIds := nil_slice; Tags := Some groups; Mention := None;
     LinkedBy := None; LinkTo := None; Related := None; Orphan := false;
     CreatedStart := None; CreatedEnd := None; ModifiedStart := None;
     ModifiedEnd := None; Limit := 0; Sorters := [] |}.

(** A title that holds a double quote before [hi], and the index of a
    note with that title. *)
Definition quoted_title : string := "say " +s+ Str.dquote +s+ "hi".

Definition quoted_index : State := index_of [ note_at "q" quoted_title 0 [] [] ].

(** A title or an alias of the note. *)
Definition names (n : notes.row) (t : string) : Prop :=
  t = notes.title n \/ In t (aliases_of (notes.metadata n)).

(** ** Vocabulary of the statement about the order *)

(** The link filter is recursive and its paths resolve, in the notes
    [ns], to at least one note. *)
Definition filter_recurses (ns : list notes.row) (f : option LinkFilter.t) : bool :=
  match f with
  | Some f =>
      (LinkFilter.Recursive f
       && Nat.ltb 0 (List.length (resolve_all ns (LinkFilter.Paths f))))%bool
  | None => false
  end.

(** The query uses the closure: a recursive [LinkedBy] or [LinkTo] filter,
    or a [Related] filter, has paths that resolve to at least one note. *)
Definition uses_closure (ns : list notes.row) (opts : FinderOpts) : bool :=
  (filter_recurses ns (LinkedBy opts)
   || filter_recurses ns (LinkTo opts)
   || match Related opts with
      | Some paths => Nat.ltb 0 (List.length (resolve_all ns paths))
      | None => false
      end)%bool.

(** A recursive filter on a path, sorted by creation date. *)
Definition closure_by_date : FinderOpts :=
  set_Sorters [ {| Field := SortCreated; Ascending := true |} ]
    (only_LinkedBy (closure_filter "a" 0)).

(** * Properties *)

(** ** The primitives on samples *)

Example ReplaceAll_sample : Str.ReplaceAll "a/b/c" "/" "-" = "a-b-c".
Proof. reflexivity. Qed.

Example FormatInt_sample :
  Str.FormatInt 0 = "0" /\ Str.FormatInt 12 = "12" /\ Str.FormatInt (-7) = "-7".
Proof. repeat split; reflexivity. Qed.

Example TrimSpace_sample : Str.TrimSpace "  foo bar  " = "foo bar".
Proof. reflexivity. Qed.

(** The no-break space U+00A0 and the ideographic space U+3000 are white
    space as well. *)
Example TrimSpace_unicode_sample :
  Str.TrimSpace
    (String (ascii_of_nat 194) (String (ascii_of_nat 160)
       ("-foo" +s+ String (ascii_of_nat 227) (String (ascii_of_nat 128)
                     (String (ascii_of_nat 128) " ")))))
  = "-foo".
Proof. reflexivity. Qed.

Example like_sample :
  Str.like "b/no%" "b/note.md" = true
  /\ Str.like "B/NOTE%" "b/note.md" = true
  /\ Str.like "b_note%" "b/note.md" = true
  /\ Str.like "c%" "b/note.md" = false.
Proof. repeat split; reflexivity. Qed.

Example split_tags_sample :
  split_tags "foo OR -bar|baz" = ["foo"; "-bar"; "baz"]
  /\ split_tags "" = [""]
  /\ split_tags "a OR " = ["a"; ""].
Proof. repeat split; reflexivity. Qed.

Example query_sql_sample :
  query_sql sample_env
    (buildQuery (only_LinkedBy (closure_filter "a" 2))
       (fst (fst (buildFilters sample_env (only_LinkedBy (closure_filter "a" 2))
                    chain_index))))
  = closure_sql 2
    +s+ "SELECT n.id, n.path, n.title, n.lead, n.body, n.raw_content, n.word_count, n.created, n.modified, n.metadata, n.checksum, n.tags, GROUP_CONCAT(REPLACE(l.snippet, l.title, '<zk:match>' || l.title || '</zk:match>'), '"
    +s+ Str.x01 +s+ "') AS snippet" +s+ nl
    +s+ "FROM notes_with_metadata n" +s+ nl
    +s+ "LEFT JOIN transitive_closure l ON (n.id = l.target_id AND l.source_id IN (1))" +s+ nl
    +s+ "WHERE n.id IN (" +s+ nl
    +s+ "    SELECT target_id FROM transitive_closure WHERE target_id IS NOT NULL AND source_id IN (1)" +s+ nl
    +s+ ")" +s+ nl
    +s+ "GROUP BY n.id" +s+ nl
    +s+ "ORDER BY l.distance, n.title ASC" +s+ nl.
Proof. vm_compute. reflexivity. Qed.

(** ** Lists *)

Lemma find_all_false {A : Type} (f : A -> bool) (l : list A) :
  (forall x, In x l -> f x = false) -> find f l = None.
Proof.
  induction l as [|a l IH]; intros H; cbn; [reflexivity|].
  rewrite (H a (or_introl eq_refl)). apply IH. intros x Hx. apply H. now right.
Qed.

(** ** Running the statements *)

Lemma next_outcome_runs (s : State) :
  faults s = [] -> next_outcome s = (Runs, s).
Proof. intros H. unfold next_outcome. now rewrite H. Qed.

Lemma exec_runs (f : DB -> DB) (s : State) :
  faults s = [] -> exec f s = (None, set_db (f (db s)) s).
Proof.
  intros H. unfold exec, bind. rewrite (next_outcome_runs s H). reflexivity.
Qed.

Lemma query_row_runs (first : DB -> option Z) (s : State) :
  faults s = [] ->
  query_row first s =
    (match first (db s) with
     | Some v => (row_of (Some v), None)
     | None => (row_empty, None)
     end, s).
Proof.
  intros H. unfold query_row, bind. rewrite (next_outcome_runs s H).
  unfold get, ret. now destruct (first (db s)).
Qed.

(** The id column of the first note at [path], 0 when there is none. *)
Lemma findIdByPath_runs (path : string) (s : State) :
  faults s = [] ->
  findIdByPath path s =
    ((match find (fun n => String.eqb (notes.path n) path) (notes_tbl (db s)) with
      | Some n => notes.id n
      | None => 0
      end, None), s).
Proof.
  intros H. unfold findIdByPath, findIdByPathStmt, bind.
  rewrite (query_row_runs _ s H).
  now destruct (find _ (notes_tbl (db s))).
Qed.

Lemma findIdByPathPrefix_runs (path : string) (s : State) :
  faults s = [] ->
  findIdByPathPrefix path s = ((resolve (notes_tbl (db s)) path, None), s).
Proof.
  intros H. unfold findIdByPathPrefix, findIdByPathPrefixStmt, bind, resolve.
  rewrite (query_row_runs _ s H).
  now destruct (find _ (notes_tbl (db s))).
Qed.

(** What a lookup returns whatever the database does: the id found or 0
    when the statement runs, 0 and the error of the database otherwise. *)
Lemma query_row_id (first : DB -> option Z) (s : State) :
  fst ((bind (query_row first)
          (fun x => match x with
                    | (row, err) =>
                        match err with
                        | Some e => ret (0, Some e)
                        | None => ret (idForRow row)
                        end
                    end)) s) =
    match hd Runs (faults s) with
    | Runs => (match first (db s) with Some v => v | None => 0 end, None)
    | PrepareFails msg => (0, Some (ErrDatabase msg))
    | ExecFails msg => (0, Some (ErrDatabase msg))
    end.
Proof.
  destruct s as [d f h]. unfold query_row, next_outcome, get, ret, bind. cbn.
  destruct f as [|[|msg|msg] rest]; cbn; try reflexivity.
  - now destruct (first d).
  - now destruct (first d).
Qed.

(** ** C10: lookups absorb the absence of a row *)

(** C10. For a path at which no note is, [findIdByPath] returns the
    invalid id 0 and no error whenever its statement runs, whatever other
    paths the index holds (paths that the given one opens included); so
    does [findIdByPathPrefix] for a prefix that matches the path of no
    note.  Whatever the index holds, either lookup returns an error only
    when the database fails (the statement cannot be prepared, or fails
    while it runs), and that error is the one of the database, never the
    absence of a row. *)
Theorem C10_lookup_absorbs_no_rows (s : State) (path : string) :
  IsValid 0 = false
  /\ ((forall n, In n (notes_tbl (db s)) -> notes.path n <> path) ->
      hd Runs (faults s) = Runs ->
      fst (findIdByPath path s) = (0, None))
  /\ ((forall n, In n (notes_tbl (db s)) ->
         Str.like (path +s+ "%") (notes.path n) = false) ->
      hd Runs (faults s) = Runs ->
      fst (findIdByPathPrefix path s) = (0, None))
  /\ (forall lookup id e,
        lookup = findIdByPath \/ lookup = findIdByPathPrefix ->
        fst (lookup path s) = (id, Some e) ->
        id = 0 /\ e <> ErrNoRows
        /\ exists msg, e = ErrDatabase msg
             /\ (hd Runs (faults s) = PrepareFails msg
                 \/ hd Runs (faults s) = ExecFails msg)).
Proof.
  split; [reflexivity|]. split; [|split].
  - intros Habsent Hruns.
    assert (F1 : find (fun n => String.eqb (notes.path n) path) (notes_tbl (db s))
                 = None).
    { apply find_all_false. intros n Hin. apply String.eqb_neq. now apply Habsent. }
    unfold findIdByPath, findIdByPathStmt. rewrite query_row_id.
    rewrite Hruns, F1. reflexivity.
  - intros Habsent Hruns.
    assert (F2 : find (fun n => Str.like (path +s+ "%") (notes.path n))
                   (notes_tbl (db s)) = None).
    { apply find_all_false. intros n Hin. now apply Habsent. }
    unfold findIdByPathPrefix, findIdByPathPrefixStmt.
    rewrite query_row_id.
    rewrite Hruns, F2. reflexivity.
  - intros lookup id e [-> | ->] Hres.
    + unfold findIdByPath, findIdByPathStmt in Hres.
      rewrite query_row_id in Hres.
      destruct (hd Runs (faults s)) as [|msg|msg];
        [destruct (find _ (notes_tbl (db s))); discriminate Hres|..];
        inversion Hres; subst;
        (split; [reflexivity|]); (split; [discriminate|]); exists msg; auto.
    + unfold findIdByPathPrefix, findIdByPathPrefixStmt in Hres.
      rewrite query_row_id in Hres.
      destruct (hd Runs (faults s)) as [|msg|msg];
        [destruct (find _ (notes_tbl (db s))); discriminate Hres|..];
        inversion Hres; subst;
        (split; [reflexivity|]); (split; [discriminate|]); exists msg; auto.
Qed.

(** ** Stripping double quotes *)

(** Replacing the double quote by nothing drops the double quotes one by
    one. *)
Lemma strip_quotes_step (c : ascii) (s : string) :
  Str.ReplaceAll (String c s) Str.dquote "" =
    if Ascii.eqb (ascii_of_nat 34) c then Str.ReplaceAll s Str.dquote ""
    else String c (Str.ReplaceAll s Str.dquote "").
Proof.
  unfold Str.ReplaceAll, Str.dquote. cbn [Str.replace_from Str.HasPrefix].
  destruct s; destruct (Ascii.eqb (ascii_of_nat 34) c); reflexivity.
Qed.

Lemma strip_quotes_clean (s : string) :
  Str.contains_char (ascii_of_nat 34) (Str.ReplaceAll s Str.dquote "") = false.
Proof.
  induction s as [|c s IH]; [reflexivity|].
  rewrite strip_quotes_step.
  destruct (Ascii.eqb (ascii_of_nat 34) c) eqn:E; [exact IH|].
  cbn [Str.contains_char]. now rewrite E, IH.
Qed.

Lemma strip_quotes_id (s : string) :
  Str.contains_char (ascii_of_nat 34) s = false ->
  Str.ReplaceAll s Str.dquote "" = s.
Proof.
  induction s as [|c s IH]; [reflexivity|].
  cbn [Str.contains_char]. intros H. apply orb_false_iff in H as [Hc Hs].
  rewrite strip_quotes_step, Hc. now rewrite IH.
Qed.

Lemma appendTitle_fold (aliases : list JValue) (titles : list string) :
  fold_left (fun ts alias => appendTitle ts (Sprint alias)) aliases titles =
    titles ++ map (fun alias => Str.dquote +s+ Str.ReplaceAll (Sprint alias) Str.dquote ""
                                +s+ Str.dquote) aliases.
Proof.
  revert titles. induction aliases as [|a l IH]; intros titles; cbn [fold_left map].
  - now rewrite app_nil_r.
  - rewrite IH. unfold appendTitle. now rewrite <- app_assoc.
Qed.


(** No note of [forward_index] is at the path [b], which opens the path
    [b/note] of one, and none is at a path that starts with [zk]:
    [findIdByPath] returns the invalid id without an error for [b],
    [findIdByPathPrefix] for [zk], and the only error they return on the
    failing database is the error of the database. *)
Lemma C10_witness :
  fst (findIdByPath "b" forward_index) = (0, None)
  /\ fst (findIdByPathPrefix "b" forward_index) = (2, None)
  /\ fst (findIdByPathPrefix "zk" forward_index) = (0, None)
  /\ fst (findIdByPath "b" failing_index)
     = (0, Some (ErrDatabase "disk I/O error")).
Proof.
  destruct (C10_lookup_absorbs_no_rows forward_index "b") as [_ [Hb _]].
  destruct (C10_lookup_absorbs_no_rows forward_index "zk") as [_ [_ [Hzk _]]].
  destruct (C10_lookup_absorbs_no_rows failing_index "b") as [_ [_ [_ Hfail]]].
  split; [|split; [reflexivity|split]].
  - apply Hb; [|reflexivity].
    intros n Hin. vm_compute in Hin.
    destruct Hin as [<-|[<-|[]]]; discriminate.
  - apply Hzk; [|reflexivity].
    intros n Hin. vm_compute in Hin.
    destruct Hin as [<-|[<-|[]]]; reflexivity.
  - destruct (fst (findIdByPath "b" failing_index)) as [id [e|]] eqn:E.
    + destruct (Hfail findIdByPath id e (or_introl eq_refl) E)
        as [-> [_ [msg [-> [Hm|Hm]]]]]; vm_compute in Hm;
        [discriminate Hm | injection Hm as <-; reflexivity].
    + vm_compute in E. discriminate.
Defined.

(** ** The steps of [findRows] only add *)

Lemma grows_refl (b : Builder) : grows b b.
Proof. split; [reflexivity|]. exists []. now rewrite app_nil_r. Qed.

Lemma grows_trans (b1 b2 b3 : Builder) : grows b1 b2 -> grows b2 b3 -> grows b1 b3.
Proof.
  intros [H1 [w1 E1]] [H2 [w2 E2]]. split; [congruence|].
  exists (w1 ++ w2). now rewrite E2, E1, app_assoc.
Qed.

Lemma grows_add_where (w : WhereExpr) (b : Builder) : grows b (add_where w b).
Proof. split; [reflexivity|]. now exists [w]. Qed.

Lemma grows_where_in (b b' : Builder) (w : WhereExpr) :
  grows b b' -> In w (whereExprs b) -> In w (whereExprs b').
Proof. intros [_ [ws E]] H. rewrite E. apply in_or_app. now left. Qed.

Lemma setupTags_grows (tags : list string) (b : Builder) :
  grows b (fst (setupTags tags b)).
Proof.
  revert b. induction tags as [|g tags IH]; intros b; cbn [setupTags].
  - apply grows_refl.
  - destruct (fold_left tag_step (split_tags g) (false, [])) as [negate globs].
    destruct (Nat.eqb (List.length globs) 0); [apply IH|].
    destruct (negate && Nat.ltb 1 (List.length globs))%bool; [apply grows_refl|].
    eapply grows_trans; [apply grows_add_where | apply IH].
Qed.

Lemma setupLinkFilter_grows (paths : list string) (direction : Z)
    (negate recursive : bool) (b : Builder) (s : State) :
  grows b (fst (fst (setupLinkFilter paths direction negate recursive b s))).
Proof.
  unfold setupLinkFilter, bind.
  destruct (findIdsByPathPrefixes paths s) as [[ids err] s1].
  destruct err; [apply grows_refl|].
  destruct ids as [|i ids]; [apply grows_refl|].
  cbn [ret fst]. unfold linkFilterClauses.
  destruct recursive, negate, (direction =? 0); cbn [negb];
    (split; [reflexivity|]); eexists; cbn; reflexivity.
Qed.

Lemma setupLinkedBy_grows (opts : FinderOpts) (b : Builder) (s : State) :
  grows b (fst (fst (setupLinkedBy opts b s))).
Proof.
  unfold setupLinkedBy. destruct (LinkedBy opts) as [f|]; [|apply grows_refl].
  eapply grows_trans; [|apply setupLinkFilter_grows].
  split; [reflexivity|]. exists []. cbn. now rewrite app_nil_r.
Qed.

Lemma setupLinkTo_grows (opts : FinderOpts) (b : Builder) (s : State) :
  grows b (fst (fst (setupLinkTo opts b s))).
Proof.
  unfold setupLinkTo. destruct (LinkTo opts) as [f|]; [|apply grows_refl].
  eapply grows_trans; [|apply setupLinkFilter_grows].
  split; [reflexivity|]. exists []. cbn. now rewrite app_nil_r.
Qed.

Lemma setupRelated_grows (opts : FinderOpts) (b : Builder) (s : State) :
  grows b (fst (fst (setupRelated opts b s))).
Proof.
  unfold setupRelated. destruct (Related opts) as [paths|]; [|apply grows_refl].
  unfold bind.
  pose proof (setupLinkFilter_grows paths 0 false true (set_maxDistance 2 b) s) as G.
  destruct (setupLinkFilter paths 0 false true (set_maxDistance 2 b) s)
    as [[b1 err] s1].
  cbn [fst] in G.
  assert (G0 : grows b b1).
  { eapply grows_trans; [|exact G].
    split; [reflexivity|]. exists []. cbn. now rewrite app_nil_r. }
  destruct err; cbn [ret fst]; [exact G0|].
  eapply grows_trans; [exact G0|].
  split; [reflexivity|]. exists []. cbn. now rewrite app_nil_r.
Qed.

Lemma setupOrphanAndDates_grows (opts : FinderOpts) (b : Builder) :
  grows b (setupOrphanAndDates opts b).
Proof.
  unfold setupOrphanAndDates.
  destruct (Orphan opts), (CreatedStart opts), (CreatedEnd opts),
    (ModifiedStart opts), (ModifiedEnd opts);
    repeat (first [ apply grows_refl
                  | eapply grows_trans; [|apply grows_add_where] ]).
Qed.

Lemma setupPaths_grows (env : Env) (opts : FinderOpts) (b : Builder) :
  grows b (setupPaths env opts b).
Proof.
  unfold setupPaths.
  destruct (IncludePaths opts), (ExcludePaths opts);
    repeat (first [ apply grows_refl
                  | eapply grows_trans; [|apply grows_add_where] ]).
Qed.

Lemma setupExcludeIds_grows (opts : FinderOpts) (h : list (list NoteId))
    (b : Builder) :
  grows b (setupExcludeIds opts h b).
Proof.
  unfold setupExcludeIds.
  destruct (ExcludeIds opts); [apply grows_refl | apply grows_add_where].
Qed.

(** The builder after the match expression, the paths and the excluded
    ids: the point from which [buildFilters] may fail. *)
Lemma buildFilters_grows (env : Env) (opts : FinderOpts) (s : State) :
  grows (setupExcludeIds opts (heap s)
           (setupPaths env opts (setupMatch env opts new_builder)))
        (fst (fst (buildFilters env opts s))).
Proof.
  unfold buildFilters, bind, get.
  set (b0 := setupExcludeIds opts (heap s) _).
  pose proof (setupTags_grows (match Tags opts with Some t => t | None => [] end) b0) as G1.
  assert (G1' : grows b0 (fst (match Tags opts with
                               | Some tags => setupTags tags b0
                               | None => (b0, None)
                               end))).
  { destruct (Tags opts); [exact G1 | apply grows_refl]. }
  destruct (match Tags opts with
            | Some tags => setupTags tags b0
            | None => (b0, None)
            end) as [b1 e1].
  cbn [fst] in G1'. clear G1.
  destruct e1; cbn [ret fst]; [exact G1'|].
  pose proof (setupLinkedBy_grows opts b1 s) as G2.
  destruct (setupLinkedBy opts b1 s) as [[b2 e2] s2]. cbn [fst] in G2.
  destruct e2; cbn [ret fst]; [eapply grows_trans; eassumption|].
  pose proof (setupLinkTo_grows opts b2 s2) as G3.
  destruct (setupLinkTo opts b2 s2) as [[b3 e3] s3]. cbn [fst] in G3.
  destruct e3; cbn [ret fst];
    [eapply grows_trans; [exact G1'|]; eapply grows_trans; eassumption|].
  pose proof (setupRelated_grows opts b3 s3) as G4.
  destruct (setupRelated opts b3 s3) as [[b4 e4] s4]. cbn [fst] in G4.
  assert (G : grows b0 b4).
  { eapply grows_trans; [exact G1'|]. eapply grows_trans; [exact G2|].
    eapply grows_trans; eassumption. }
  destruct e4; cbn [ret fst]; [exact G|].
  eapply grows_trans; [exact G | apply setupOrphanAndDates_grows].
Qed.

Lemma buildFilters_order (env : Env) (opts : FinderOpts) (s : State) :
  additionalOrderTerms (fst (fst (buildFilters env opts s))) =
    match Match opts with
    | Some _ => [relevance_term]
    | None => []
    end.
Proof.
  destruct (buildFilters_grows env opts s) as [H _]. rewrite H.
  destruct (setupExcludeIds_grows opts (heap s)
              (setupPaths env opts (setupMatch env opts new_builder))) as [H1 _].
  destruct (setupPaths_grows env opts (setupMatch env opts new_builder)) as [H2 _].
  rewrite H1, H2. unfold setupMatch. now destruct (Match opts).
Qed.

(** What [findRows] hands back when it succeeds: the rows of the query it
    built. *)
Lemma findRows_ok (env : Env) (opts : FinderOpts) (s s' : State) (rows : Rows) :
  findRows env opts s = ((rows, None), s') ->
  exists b s1,
    buildFilters env opts s = ((b, None), s1)
    /\ query_error env (buildQuery opts b) = None
    /\ db s' = db s1
    /\ rows = {| selected := select_notes env (buildQuery opts b) (db s1);
                 order_by := finalOrderTerms opts b;
                 limit_to := Limit opts |}.
Proof.
  unfold findRows, bind.
  destruct (buildFilters env opts s) as [[b err] s1].
  destruct err; [discriminate|].
  unfold tx_Query, bind, next_outcome, get, ret.
  intros H. exists b, s1. split; [reflexivity|].
  destruct (faults s1) as [|o rest].
  - cbn in H. destruct (query_error env (buildQuery opts b)); [discriminate|].
    inversion H; subst. auto.
  - destruct (outcome_error o); [discriminate|].
    destruct (query_error env (buildQuery opts b)); [discriminate|].
    inversion H; subst. auto.
Qed.

(** ** Writing links *)

Lemma addLinkStmt_runs (source_id : Z) (target_id : NullInt64)
    (title href : string) (external : bool) (rels snippet : string)
    (snippet_start snippet_end : Z) (s : State) :
  faults s = [] ->
  addLinkStmt source_id target_id title href external rels snippet
    snippet_start snippet_end s
  = (None,
     set_db (set_links
               (links_tbl (db s) ++
                [ {| links.source_id := source_id;
                     links.target_id := sql_of_null target_id;
                     links.title := title; links.href := href;
                     links.external := external; links.rels := rels;
                     links.snippet := snippet;
                     links.snippet_start := snippet_start;
                     links.snippet_end := snippet_end |} ])
               (db s)) s).
Proof. intros H. unfold addLinkStmt. now rewrite exec_runs. Qed.

(** On a database that does not fail, the loop of [addLinks] appends one
    row per link of the note, each resolved against the notes of that
    moment. *)
Lemma addLinks_each_runs (id : NoteId) (ls : list Link.t) (s : State) :
  faults s = [] ->
  addLinks_each id ls s
  = (None,
     set_db (set_links
               (links_tbl (db s) ++ map (stored_link (notes_tbl (db s)) id) ls)
               (db s)) s).
Proof.
  revert s. induction ls as [|link ls IH]; intros s H.
  - cbn. destruct s as [[ns lk cs ncs sq] f h]. cbn. now rewrite app_nil_r.
  - cbn [addLinks_each]. unfold bind.
    rewrite (findIdByPathPrefix_runs _ s H).
    rewrite (addLinkStmt_runs _ _ _ _ _ _ _ _ _ s H).
    rewrite IH by (destruct s; exact H).
    destruct s as [[ns lk cs ncs sq] f h]. cbn.
    now rewrite <- app_assoc.
Qed.

Lemma addLinks_runs (id : NoteId) (note : Metadata.t) (s : State) :
  faults s = [] ->
  addLinks id note s
  = (None,
     set_db (set_links
               (map (heal id (Metadata.Path note))
                    (links_tbl (db s)
                     ++ map (stored_link (notes_tbl (db s)) id) (Metadata.Links note)))
               (db s)) s).
Proof.
  intros H. unfold addLinks, bind. rewrite (addLinks_each_runs _ _ s H).
  unfold setLinksTargetStmt. rewrite exec_runs by (destruct s; exact H).
  destruct s as [[ns lk cs ncs sq] f h]. reflexivity.
Qed.

(** ** C6: what [Update] replaces *)

(** C6 (amended). On a database that does not fail and for a record whose
    metadata encode to JSON, [Update] fails with "note not found in the
    index", changing nothing, when no note is at the path of the record.
    Otherwise it returns the id of the note at that path; the row of that
    note then holds the title, lead, body, raw content, word count,
    metadata, checksum and modification time of the record, while its id,
    path, sortable path and creation time are the ones it had; the other
    rows of [notes] are untouched; and the links of the note are replaced:
    every link that had the note as source is deleted, whatever the record
    says, before the links of the record are stored and the backfill for
    the path of the note is run. *)
Theorem C6_update_replaces (env : Env) (note : Metadata.t) (json : JsonText)
    (s : State)
    (Hruns : faults s = [])
    (Hjson : json_Marshal env (Metadata.Metadata note) = (json, None))
    (Hids : forall n, In n (notes_tbl (db s)) -> 0 < notes.id n) :
  match find (fun n => String.eqb (notes.path n) (Metadata.Path note))
             (notes_tbl (db s)) with
  | None =>
      Update env note s
      = ((0, Some (ErrMessage "note not found in the index")), s)
  | Some old =>
      exists s',
        Update env note s = ((notes.id old, None), s')
        /\ map notes.path (notes_tbl (db s')) = map notes.path (notes_tbl (db s))
        /\ (forall n', In n' (notes_tbl (db s')) ->
              notes.path n' = Metadata.Path note ->
              row_updated note json n'
              /\ exists n, In n (notes_tbl (db s))
                   /\ notes.id n' = notes.id n
                   /\ notes.path n' = notes.path n
                   /\ notes.sortable_path n' = notes.sortable_path n
                   /\ notes.created n' = notes.created n)
        /\ (forall n', In n' (notes_tbl (db s')) ->
              notes.path n' <> Metadata.Path note -> In n' (notes_tbl (db s)))
        /\ links_tbl (db s')
           = map (heal (notes.id old) (Metadata.Path note))
               (filter (fun l => negb (links.source_id l =? notes.id old))
                       (links_tbl (db s))
                ++ map (stored_link (notes_tbl (db s')) (notes.id old))
                       (Metadata.Links note))
  end.
Proof.
  unfold Update, bind. rewrite (findIdByPath_runs _ s Hruns).
  destruct (find _ (notes_tbl (db s))) as [old|] eqn:F.
  - apply find_some in F as [Hin Hpath].
    assert (Hv : IsValid (notes.id old) = true).
    { unfold IsValid. apply Z.ltb_lt. now apply Hids. }
    rewrite Hv. cbn [negb]. unfold metadataToJson. rewrite Hjson.
    unfold updateStmt. rewrite (exec_runs _ s Hruns).
    unfold removeLinksStmt. rewrite exec_runs by (destruct s; exact Hruns).
    rewrite addLinks_runs by (destruct s; exact Hruns).
    eexists. split; [reflexivity|].
    destruct s as [[ns lk cs ncs sq] f h]. cbn in *.
    unfold idToSql, sql_of_null. rewrite Hv. cbn.
    split; [|split; [|split; [|reflexivity]]].
    + rewrite map_map. apply map_ext. intros n.
      now destruct (String.eqb (notes.path n) (Metadata.Path note)).
    + intros n' Hn' Hp. apply in_map_iff in Hn' as [n [E Hn]].
      destruct (String.eqb (notes.path n) (Metadata.Path note)) eqn:Ep.
      * subst n'. cbn. split; [repeat split|]. exists n. auto.
      * subst n'. apply String.eqb_neq in Ep. contradiction.
    + intros n' Hn' Hp. apply in_map_iff in Hn' as [n [E Hn]].
      destruct (String.eqb (notes.path n) (Metadata.Path note)) eqn:Ep.
      * subst n'. cbn in Hp. apply String.eqb_eq in Ep. contradiction.
      * now subst n'.
  - reflexivity.
Qed.

(** [Update] of the note A with a record that links to nothing: the link
    A had is deleted, and none is stored. *)
Lemma C6_witness :
  faults index_before_update = []
  /\ (forall n, In n (notes_tbl (db index_before_update)) -> 0 < notes.id n)
  /\ exists s',
       Update sample_env updated_record index_before_update = ((1, None), s')
       /\ links_tbl (db index_before_update) <> []
       /\ links_tbl (db s') = [].
Proof.
  assert (Hids : forall n, In n (notes_tbl (db index_before_update)) ->
                   0 < notes.id n).
  { intros n Hin. vm_compute in Hin. destruct Hin as [<-|[]]. reflexivity. }
  split; [reflexivity|]. split; [exact Hids|].
  pose proof (C6_update_replaces sample_env updated_record (Some [])
                index_before_update eq_refl eq_refl Hids) as H.
  vm_compute in H. destruct H as [s' [E [_ [_ [_ L]]]]].
  exists s'. split; [exact E|]. split; [discriminate|exact L].
Defined.

(** The record says the note was created at 2; after [Update] the row of
    the note still says 1, so no row holds every field of the record. *)
Lemma C6_created_is_kept :
  snd (fst (Update sample_env updated_record index_before_update)) = None
  /\ Metadata.Created updated_record = 2
  /\ map notes.created
       (notes_tbl (db (snd (Update sample_env updated_record index_before_update))))
     = [1]
  /\ ~ (exists n json,
          In n (notes_tbl
                  (db (snd (Update sample_env updated_record index_before_update))))
          /\ row_holds updated_record json n).
Proof.
  split; [reflexivity|]. split; [reflexivity|]. split; [vm_compute; reflexivity|].
  intros [n [json [Hin Hrow]]]. vm_compute in Hin. destruct Hin as [<-|[]].
  unfold row_holds in Hrow. cbn in Hrow.
  destruct Hrow as [_ [_ [_ [_ [_ [_ [_ [_ [Hc _]]]]]]]]]. discriminate.
Qed.

(** ** Statements on a database that may fail *)

Lemma next_outcome_db (s : State) : db (snd (next_outcome s)) = db s.
Proof. unfold next_outcome. now destruct (faults s). Qed.

Lemma exec_cases (f : DB -> DB) (s : State) :
  (fst (exec f s) <> None /\ db (snd (exec f s)) = db s)
  \/ (fst (exec f s) = None /\ db (snd (exec f s)) = f (db s)).
Proof.
  unfold exec, bind, modify, ret.
  pose proof (next_outcome_db s) as H.
  destruct (next_outcome s) as [o s1]. cbn [snd] in H.
  destruct (outcome_error o); cbn [fst snd].
  - left. split; [discriminate|exact H].
  - right. split; [reflexivity|]. cbn. now rewrite H.
Qed.

Lemma query_row_db (first : DB -> option Z) (s : State) :
  db (snd (query_row first s)) = db s.
Proof.
  unfold query_row, bind, get, ret.
  pose proof (next_outcome_db s) as H.
  destruct (next_outcome s) as [o s1]. cbn [snd] in H.
  destruct o; [destruct (first (db s1))|..]; exact H.
Qed.

Lemma findIdByPathPrefix_db (path : string) (s : State) :
  db (snd (findIdByPathPrefix path s)) = db s.
Proof.
  unfold findIdByPathPrefix, findIdByPathPrefixStmt, bind.
  pose proof (query_row_db
                (fun d => option_map notes.id
                   (find (fun n => Str.like (path +s+ "%") (notes.path n))
                         (notes_tbl d))) s) as H.
  destruct (query_row _ s) as [[row err] s1]. cbn [snd] in H.
  now destruct err.
Qed.

(** Whatever the database does, the loop of [addLinks] only appends links
    of the note to table [links]. *)
Lemma addLinks_each_appends (id : NoteId) (ls : list Link.t) (s : State) :
  exists own,
    links_tbl (db (snd (addLinks_each id ls s))) = links_tbl (db s) ++ own
    /\ Forall (fun l => links.source_id l = id) own.
Proof.
  revert s. induction ls as [|link ls IH]; intros s.
  - exists []. cbn. now rewrite app_nil_r.
  - cbn [addLinks_each]. unfold bind.
    pose proof (findIdByPathPrefix_db (Link.Href link) s) as H1.
    destruct (findIdByPathPrefix (Link.Href link) s) as [[targetId err] s1].
    cbn [snd] in H1.
    destruct err as [e|].
    { exists []. cbn. now rewrite H1, app_nil_r. }
    unfold addLinkStmt.
    match goal with
    | |- context [exec ?f s1] =>
        destruct (exec_cases f s1) as [[He Hd]|[He Hd]];
        destruct (exec f s1) as [err2 s2]
    end; cbn [fst snd] in He, Hd.
    + destruct err2 as [e|]; [|contradiction].
      exists []. cbn. now rewrite Hd, H1, app_nil_r.
    + subst err2. destruct (IH s2) as [own [E F]].
      eexists. split.
      * rewrite E, Hd, H1. cbn. rewrite <- app_assoc. reflexivity.
      * constructor; [reflexivity|exact F].
Qed.

(** When [addLinks] returns no error, the links it leaves are the links it
    found and the links it stored for the note, all passed through the
    backfill. *)
Lemma addLinks_ok (id : NoteId) (note : Metadata.t) (s : State) :
  fst (addLinks id note s) = None ->
  exists own,
    links_tbl (db (snd (addLinks id note s)))
    = map (heal id (Metadata.Path note)) (links_tbl (db s) ++ own)
    /\ Forall (fun l => links.source_id l = id) own.
Proof.
  unfold addLinks, bind.
  destruct (addLinks_each_appends id (Metadata.Links note) s) as [own [E F]].
  destruct (addLinks_each id (Metadata.Links note) s) as [err s1].
  cbn [snd] in E. destruct err as [e|]; [discriminate|].
  unfold setLinksTargetStmt.
  match goal with
  | |- context [exec ?f s1] =>
      destruct (exec_cases f s1) as [[He Hd]|[He Hd]];
      destruct (exec f s1) as [err2 s2]
  end; cbn [fst snd] in *.
  - intros ->. contradiction.
  - intros _. exists own. split; [|exact F].
    rewrite Hd. cbn. now rewrite E.
Qed.

(** ** C3: the backfill of forward references *)






Lemma findIdsByPathPrefixes_from_runs (ids : list NoteId) (paths : list string)
    (s : State) :
  faults s = [] ->
  findIdsByPathPrefixes_from ids paths s
  = ((ids ++ resolve_all (notes_tbl (db s)) paths, None), s).
Proof.
  intros H. revert ids. induction paths as [|p paths IH]; intros ids.
  - cbn. unfold ret. now rewrite app_nil_r.
  - cbn [findIdsByPathPrefixes_from]. unfold bind.
    rewrite (findIdByPathPrefix_runs p s H).
    rewrite IH. unfold resolve_all. cbn [map filter].
    destruct (IsValid (resolve (notes_tbl (db s)) p)).
    + now rewrite <- app_assoc.
    + reflexivity.
Qed.

Lemma findIdsByPathPrefixes_runs (paths : list string) (s : State) :
  faults s = [] ->
  findIdsByPathPrefixes paths s = ((resolve_all (notes_tbl (db s)) paths, None), s).
Proof. intros H. unfold findIdsByPathPrefixes. now rewrite findIdsByPathPrefixes_from_runs. Qed.

Lemma setupLinkFilter_runs (paths : list string) (direction : Z)
    (negate recursive : bool) (b : Builder) (s : State) :
  faults s = [] ->
  setupLinkFilter paths direction negate recursive b s
  = ((match resolve_all (notes_tbl (db s)) paths with
      | [] => b
      | ids => linkFilterClauses ids direction negate recursive b
      end, None), s).
Proof.
  intros H. unfold setupLinkFilter, bind.
  rewrite (findIdsByPathPrefixes_runs paths s H).
  now destruct (resolve_all (notes_tbl (db s)) paths).
Qed.

Lemma tx_Query_runs (env : Env) (q : Query) (s : State) :
  faults s = [] ->
  tx_Query env q s
  = (match query_error env q with
     | Some e => (no_rows, Some e)
     | None => ({| selected := select_notes env q (db s);
                   order_by := orderTerms q; limit_to := limit q |}, None)
     end, s).
Proof.
  intros H. unfold tx_Query, bind. rewrite (next_outcome_runs s H). cbn.
  now destruct (query_error env q).
Qed.

(** What a successful [Add] leaves: the id is the next of the sequence,
    the row of the note is appended to [notes], and [links] holds the
    links found and the links of the note, passed through the backfill. *)
Lemma Add_ok (env : Env) (note : Metadata.t) (s s' : State) (id : NoteId) :
  Add env note s = ((id, None), s') ->
  id = notes_seq (db s) + 1
  /\ (exists json,
        notes_tbl (db s') = notes_tbl (db s) ++ [stored_note id json note])
  /\ exists own,
       links_tbl (db s')
       = map (heal id (Metadata.Path note)) (links_tbl (db s) ++ own)
       /\ Forall (fun l => links.source_id l = id) own.
Proof.
  unfold Add, metadataToJson.
  destruct (json_Marshal env (Metadata.Metadata note)) as [json [e|]];
    [discriminate|].
  unfold bind at 1. unfold addStmt, bind at 1.
  pose proof (next_outcome_db s) as Hd.
  destruct (next_outcome s) as [o s1]. cbn [snd] in Hd.
  destruct (outcome_error o); [discriminate|].
  unfold bind at 1, get.
  destruct (existsb _ (notes_tbl (db s1))); [discriminate|].
  unfold bind at 1, modify, ret. cbn [LastInsertId inserted_id].
  unfold bind.
  match goal with
  | |- context [addLinks ?i note ?st] =>
      pose proof (addLinks_ok i note st) as Hl;
      assert (Hn : notes_tbl (db (snd (addLinks i note st))) = notes_tbl (db st));
      [|destruct (addLinks i note st) as [err s2]]
  end.
  { unfold addLinks, bind.
    match goal with
    | |- context [addLinks_each ?i ?ls ?st] =>
        assert (Hn1 : notes_tbl (db (snd (addLinks_each i ls st)))
                      = notes_tbl (db st));
        [|destruct (addLinks_each i ls st) as [e1 s3]]
    end.
    { generalize (Metadata.Links note).
      match goal with |- forall l, notes_tbl (db (snd (addLinks_each _ l ?st))) = _ =>
        generalize st end.
      intros st l. revert st. induction l as [|link l IH]; intros st; [reflexivity|].
      cbn [addLinks_each]. unfold bind.
      pose proof (findIdByPathPrefix_db (Link.Href link) st) as H1.
      destruct (findIdByPathPrefix (Link.Href link) st) as [[t e] st1].
      cbn [snd] in H1. destruct e; [cbn; now rewrite H1|].
      unfold addLinkStmt.
      match goal with
      | |- context [exec ?f st1] =>
          destruct (exec_cases f st1) as [[He Hd']|[He Hd']];
          destruct (exec f st1) as [e2 st2]
      end; cbn [fst snd] in He, Hd'.
      - destruct e2; [|contradiction]. cbn. now rewrite Hd', H1.
      - subst e2. rewrite IH, Hd', <- H1. reflexivity. }
    cbn [snd] in Hn1. destruct e1; [exact Hn1|].
    unfold setLinksTargetStmt.
    match goal with
    | |- context [exec ?f s3] =>
        destruct (exec_cases f s3) as [[He Hd']|[He Hd']];
        destruct (exec f s3) as [e2 st2]
    end; cbn [fst snd] in *; rewrite Hd'; [exact Hn1|].
    cbn. exact Hn1. }
  cbn [fst snd] in Hl, Hn. intros H. inversion H; subst. clear H.
  cbn in Hn, Hl. rewrite Hd in Hn, Hl. rewrite Hd.
  split; [reflexivity|]. split; [exists json; exact Hn | exact (Hl eq_refl)].
Qed.

(** ** Queries with one link filter *)

Lemma findRows_error_no_rows (env : Env) (opts : FinderOpts) (s : State) (e : Error) :
  snd (fst (findRows env opts s)) = Some e ->
  fst (fst (findRows env opts s)) = no_rows.
Proof.
  unfold findRows, bind.
  destruct (buildFilters env opts s) as [[b err] s1].
  destruct err; [reflexivity|].
  unfold tx_Query, bind, get, ret.
  destruct (next_outcome s1) as [o s2].
  destruct (outcome_error o); [reflexivity|].
  destruct (query_error env (buildQuery opts b)); [reflexivity|discriminate].
Qed.

(** Without mentions, [Find] is [findRows]. *)
Lemma Find_no_mention (env : Env) (opts : FinderOpts) (s : State) :
  Mention opts = None -> Find env opts s = findRows env opts s.
Proof.
  intros H. unfold Find, expandMentionsIntoMatch. rewrite H.
  unfold bind at 1. unfold ret at 1. unfold bind.
  pose proof (findRows_error_no_rows env opts s) as Hn.
  destruct (findRows env opts s) as [[rows err] s1]. cbn [fst snd] in Hn.
  destruct err as [e|]; [|reflexivity].
  unfold ret. now rewrite (Hn e eq_refl).
Qed.

Lemma buildFilters_only_LinkedBy (env : Env) (f : LinkFilter.t) (s : State) :
  faults s = [] ->
  buildFilters env (only_LinkedBy f) s
  = ((match resolve_all (notes_tbl (db s)) (LinkFilter.Paths f) with
      | [] => set_maxDistance (LinkFilter.MaxDistance f) new_builder
      | ids => linkFilterClauses ids (-1) (LinkFilter.Negate f)
                 (LinkFilter.Recursive f)
                 (set_maxDistance (LinkFilter.MaxDistance f) new_builder)
      end, None), s).
Proof.
  intros H. unfold buildFilters, bind, get, only_LinkedBy. cbn.
  unfold setupLinkedBy. cbn. rewrite (setupLinkFilter_runs _ _ _ _ _ s H).
  now destruct (resolve_all (notes_tbl (db s)) (LinkFilter.Paths f)).
Qed.

Lemma buildFilters_only_LinkTo (env : Env) (f : LinkFilter.t) (s : State) :
  faults s = [] ->
  buildFilters env (only_LinkTo f) s
  = ((match resolve_all (notes_tbl (db s)) (LinkFilter.Paths f) with
      | [] => set_maxDistance (LinkFilter.MaxDistance f) new_builder
      | ids => linkFilterClauses ids 1 (LinkFilter.Negate f)
                 (LinkFilter.Recursive f)
                 (set_maxDistance (LinkFilter.MaxDistance f) new_builder)
      end, None), s).
Proof.
  intros H. unfold buildFilters, bind, get, only_LinkTo. cbn.
  unfold setupLinkTo. cbn. rewrite (setupLinkFilter_runs _ _ _ _ _ s H).
  now destruct (resolve_all (notes_tbl (db s)) (LinkFilter.Paths f)).
Qed.


(** ** C1: the order of the results *)

Lemma orderTerm_not_relevance (sorter : Sorter) : orderTerm sorter <> relevance_term.
Proof. destruct sorter as [[] []]; discriminate. Qed.

Lemma setupTags_closure (tags : list string) (b : Builder) :
  transitiveClosure (fst (setupTags tags b)) = transitiveClosure b.
Proof.
  revert b. induction tags as [|g tags IH]; intros b; cbn [setupTags];
    [reflexivity|].
  destruct (fold_left tag_step (split_tags g) (false, [])) as [negate globs].
  destruct (Nat.eqb (List.length globs) 0); [apply IH|].
  destruct (negate && Nat.ltb 1 (List.length globs))%bool; [reflexivity|].
  now rewrite IH.
Qed.

Lemma linkFilterClauses_closure (ids : list NoteId) (direction : Z)
    (negate recursive : bool) (b : Builder) :
  transitiveClosure (linkFilterClauses ids direction negate recursive b)
  = (recursive || transitiveClosure b)%bool.
Proof.
  unfold linkFilterClauses.
  now destruct recursive, negate, (direction =? 0).
Qed.

Lemma setupOrphanAndDates_closure (opts : FinderOpts) (b : Builder) :
  transitiveClosure (setupOrphanAndDates opts b) = transitiveClosure b.
Proof.
  unfold setupOrphanAndDates.
  now destruct (Orphan opts), (CreatedStart opts), (CreatedEnd opts),
    (ModifiedStart opts), (ModifiedEnd opts).
Qed.

(** A lookup by prefix that returns no error has run: it returns the id
    the prefix resolves to and leaves the database as it is. *)
Lemma findIdByPathPrefix_ok (path : string) (s s1 : State) (id : NoteId) :
  findIdByPathPrefix path s = ((id, None), s1) ->
  id = resolve (notes_tbl (db s)) path /\ db s1 = db s.
Proof.
  destruct s as [d f h].
  unfold findIdByPathPrefix, findIdByPathPrefixStmt, query_row, next_outcome,
    get, ret, bind, resolve. cbn.
  destruct f as [|[|msg|msg] rest]; cbn; try discriminate.
  - destruct (find _ (notes_tbl d)); cbn; intros H; injection H as <- <-; now split.
  - destruct (find _ (notes_tbl d)); cbn; intros H; injection H as <- <-; now split.
Qed.

Lemma findIdsByPathPrefixes_from_ok (paths : list string) (ids ids' : list NoteId)
    (s s1 : State) :
  findIdsByPathPrefixes_from ids paths s = ((ids', None), s1) ->
  ids' = ids ++ resolve_all (notes_tbl (db s)) paths /\ db s1 = db s.
Proof.
  revert ids s. induction paths as [|p paths IH]; intros ids s.
  - cbn. unfold ret. intros H. injection H as <- <-. now rewrite app_nil_r.
  - cbn [findIdsByPathPrefixes_from]. unfold bind.
    pose proof (findIdByPathPrefix_ok p s) as Hp.
    destruct (findIdByPathPrefix p s) as [[id err] s2].
    destruct err as [e|]; [discriminate|].
    destruct (Hp s2 id eq_refl) as [-> Hdb]. intros H.
    destruct (IH _ _ H) as [-> Hdb']. rewrite Hdb in *. split; [|exact Hdb'].
    unfold resolve_all. cbn [map filter].
    destruct (IsValid (resolve (notes_tbl (db s)) p)).
    + now rewrite <- app_assoc.
    + reflexivity.
Qed.

(** A link filter that is set up without error resolved its paths in the
    database as it is. *)
Lemma setupLinkFilter_ok (paths : list string) (direction : Z)
    (negate recursive : bool) (b b' : Builder) (s s1 : State) :
  setupLinkFilter paths direction negate recursive b s = ((b', None), s1) ->
  b' = match resolve_all (notes_tbl (db s)) paths with
       | [] => b
       | ids => linkFilterClauses ids direction negate recursive b
       end
  /\ db s1 = db s.
Proof.
  unfold setupLinkFilter, findIdsByPathPrefixes, bind.
  pose proof (fun ids' s1 => findIdsByPathPrefixes_from_ok paths [] ids' s s1) as Hp.
  destruct (findIdsByPathPrefixes_from [] paths s) as [[ids err] s2].
  destruct err as [e|]; [discriminate|].
  destruct (Hp ids s2 eq_refl) as [-> Hdb]. cbn [app].
  destruct (resolve_all (notes_tbl (db s)) paths); unfold ret;
    intros H; injection H as <- <-; now split.
Qed.

(** What a link filter that is set up without error does to
    [transitiveClosure]. *)
Lemma setupLinkFilter_closure (paths : list string) (direction : Z)
    (negate recursive : bool) (b b' : Builder) (s s1 : State) :
  setupLinkFilter paths direction negate recursive b s = ((b', None), s1) ->
  transitiveClosure b'
  = (recursive && Nat.ltb 0 (List.length (resolve_all (notes_tbl (db s)) paths))
     || transitiveClosure b)%bool
  /\ db s1 = db s.
Proof.
  intros H. destruct (setupLinkFilter_ok _ _ _ _ _ _ _ _ H) as [-> Hdb].
  split; [|exact Hdb].
  destruct (resolve_all (notes_tbl (db s)) paths).
  - cbn. now rewrite andb_false_r.
  - rewrite linkFilterClauses_closure. cbn. now rewrite andb_true_r.
Qed.

(** [findRows] sets [transitiveClosure] exactly when the query uses the
    closure, whatever the failures of the database it has met. *)
Lemma buildFilters_closure (env : Env) (opts : FinderOpts) (s s1 : State)
    (b : Builder) :
  buildFilters env opts s = ((b, None), s1) ->
  transitiveClosure b = uses_closure (notes_tbl (db s)) opts.
Proof.
  unfold buildFilters, bind, get.
  set (b0 := setupExcludeIds opts (heap s) _).
  assert (H0 : transitiveClosure b0 = false).
  { subst b0. unfold setupExcludeIds, setupPaths, setupMatch.
    now destruct (ExcludeIds opts), (IncludePaths opts), (ExcludePaths opts),
      (Match opts). }
  assert (H1 : transitiveClosure (fst (match Tags opts with
                                       | Some tags => setupTags tags b0
                                       | None => (b0, None)
                                       end)) = false).
  { destruct (Tags opts); [now rewrite setupTags_closure|exact H0]. }
  destruct (match Tags opts with
            | Some tags => setupTags tags b0
            | None => (b0, None)
            end) as [b1 e1].
  cbn [fst] in H1. clear H0 b0. destruct e1; [discriminate|].
  unfold uses_closure, filter_recurses.
  (* LinkedBy *)
  assert (S1 : forall b2 e2 s2, setupLinkedBy opts b1 s = ((b2, e2), s2) ->
               e2 = None ->
               transitiveClosure b2
               = match LinkedBy opts with
                 | Some f =>
                     (LinkFilter.Recursive f
                      && Nat.ltb 0 (List.length
                           (resolve_all (notes_tbl (db s)) (LinkFilter.Paths f))))%bool
                 | None => false
                 end
               /\ db s2 = db s).
  { intros b2 e2 s2 H ->. unfold setupLinkedBy in H.
    destruct (LinkedBy opts) as [f|].
    - destruct (setupLinkFilter_closure _ _ _ _ _ _ _ _ H) as [E Hdb].
      cbn [transitiveClosure set_maxDistance] in E.
      rewrite E, H1, orb_false_r. now split.
    - unfold ret in H. injection H as <- <-. now split. }
  destruct (setupLinkedBy opts b1 s) as [[b2 e2] s2].
  destruct e2 as [e|]; [discriminate|].
  destruct (S1 b2 None s2 eq_refl eq_refl) as [E2 D2]. clear S1.
  (* LinkTo *)
  assert (S2 : forall b3 e3 s3, setupLinkTo opts b2 s2 = ((b3, e3), s3) ->
               e3 = None ->
               transitiveClosure b3
               = (match LinkTo opts with
                  | Some f =>
                      (LinkFilter.Recursive f
                       && Nat.ltb 0 (List.length
                            (resolve_all (notes_tbl (db s)) (LinkFilter.Paths f))))%bool
                  | None => false
                  end || transitiveClosure b2)%bool
               /\ db s3 = db s).
  { intros b3 e3 s3 H ->. unfold setupLinkTo in H.
    destruct (LinkTo opts) as [f|].
    - destruct (setupLinkFilter_closure _ _ _ _ _ _ _ _ H) as [E Hdb].
      cbn [transitiveClosure set_maxDistance] in E.
      rewrite D2 in E, Hdb. now split.
    - unfold ret in H. injection H as <- <-. now split. }
  destruct (setupLinkTo opts b2 s2) as [[b3 e3] s3].
  destruct e3 as [e|]; [discriminate|].
  destruct (S2 b3 None s3 eq_refl eq_refl) as [E3 D3]. clear S2.
  (* Related *)
  assert (S3 : forall b4 e4 s4, setupRelated opts b3 s3 = ((b4, e4), s4) ->
               e4 = None ->
               transitiveClosure b4
               = (match Related opts with
                  | Some paths =>
                      Nat.ltb 0 (List.length (resolve_all (notes_tbl (db s)) paths))
                  | None => false
                  end || transitiveClosure b3)%bool).
  { intros b4 e4 s4 H ->. unfold setupRelated, bind in H.
    destruct (Related opts) as [paths|].
    - pose proof (fun b' s1 =>
                    setupLinkFilter_closure paths 0 false true
                      (set_maxDistance 2 b3) b' s3 s1) as Hc.
      destruct (setupLinkFilter paths 0 false true (set_maxDistance 2 b3) s3)
        as [[b5 e5] s5].
      destruct e5 as [e|]; [discriminate|].
      destruct (Hc b5 s5 eq_refl) as [E _]. rewrite D3 in E.
      unfold ret in H. injection H as <- _.
      cbn [groupBy set_groupBy set_maxDistance transitiveClosure andb] in E |- *.
      exact E.
    - unfold ret in H. injection H as <- _. reflexivity. }
  destruct (setupRelated opts b3 s3) as [[b4 e4] s4].
  destruct e4 as [e|]; [discriminate|].
  pose proof (S3 b4 None s4 eq_refl eq_refl) as E4. clear S3.
  unfold ret. intros H. injection H as <- _.
  rewrite setupOrphanAndDates_closure, E4, E3, E2.
  match goal with
  | |- (?r || (?t || ?l))%bool = _ => now destruct r, t, l
  end.
Qed.

(** C1 (amended). When [findRows] succeeds, the order terms of its query
    are, from first to last: the link distance when [findRows] has set
    [transitiveClosure], the user's sort keys in their order, the
    relevance score when (and only when) a match expression is present,
    and the title ascending.  [transitiveClosure] is set, and the link
    distance comes first, exactly when a recursive [LinkedBy] or [LinkTo]
    filter, or a [Related] filter, has paths that resolve to at least one
    note of the index.  The relevance score thus
    comes after every user-specified sort key, the title tie-break is
    always last, and a query without match expression has no relevance
    term. *)
Theorem C1_order_terms (env : Env) (opts : FinderOpts) (s s' : State) (rows : Rows)
    (Hfound : findRows env opts s = ((rows, None), s')) :
  (exists b s1,
     buildFilters env opts s = ((b, None), s1)
     /\ order_by rows =
          (if transitiveClosure b then ["l.distance"] else [])
          ++ map orderTerm (Sorters opts)
          ++ (match Match opts with Some _ => [relevance_term] | None => [] end)
          ++ ["n.title ASC"]
     /\ transitiveClosure b = uses_closure (notes_tbl (db s)) opts)
  /\ order_by rows =
       (if uses_closure (notes_tbl (db s)) opts then ["l.distance"] else [])
       ++ map orderTerm (Sorters opts)
       ++ (match Match opts with Some _ => [relevance_term] | None => [] end)
       ++ ["n.title ASC"]
  /\ last (order_by rows) "" = "n.title ASC"
  /\ (Match opts = None -> ~ In relevance_term (order_by rows)).
Proof.
  destruct (findRows_ok env opts s s' rows Hfound) as [b [s1 [Hb [_ [_ ->]]]]].
  cbn [order_by]. unfold finalOrderTerms.
  pose proof (buildFilters_order env opts s) as Ho. rewrite Hb in Ho. cbn [fst] in Ho.
  rewrite Ho.
  assert (E : (if transitiveClosure b
               then ["l.distance"] ++
                    (map orderTerm (Sorters opts) ++
                     match Match opts with Some _ => [relevance_term] | None => [] end)
                    ++ ["n.title ASC"]
               else (map orderTerm (Sorters opts) ++
                     match Match opts with Some _ => [relevance_term] | None => [] end)
                    ++ ["n.title ASC"])
              = (if transitiveClosure b then ["l.distance"] else [])
                ++ map orderTerm (Sorters opts)
                ++ (match Match opts with Some _ => [relevance_term] | None => [] end)
                ++ ["n.title ASC"]).
  { destruct (transitiveClosure b); cbn [app]; now rewrite <- app_assoc. }
  rewrite E. split; [|split; [|split]].
  - exists b, s1. split; [exact Hb|]. split; [reflexivity|].
    exact (buildFilters_closure env opts s s1 b Hb).
  - now rewrite (buildFilters_closure env opts s s1 b Hb).
  - rewrite !app_assoc. apply last_last.
  - intros Hm. rewrite Hm. cbn [app]. intros Hin.
    apply in_app_or in Hin as [Hin|Hin].
    + destruct (transitiveClosure b); [|contradiction].
      destruct Hin as [Hin|[]]. discriminate.
    + apply in_app_or in Hin as [Hin|Hin].
      * apply in_map_iff in Hin as [sorter [Hs _]].
        exact (orderTerm_not_relevance sorter Hs).
      * destruct Hin as [Hin|[]]. discriminate.
Qed.

(** The query [matched_by_date] succeeds on [forward_index]; its last
    order term is the title and its relevance term follows the sort key.
    The query [closure_by_date], a recursive filter on the note A of the
    chain, is ordered by the distance first. *)
Lemma C1_witness :
  findRows sample_env matched_by_date forward_index
  = ((fst (fst (findRows sample_env matched_by_date forward_index)), None),
     snd (findRows sample_env matched_by_date forward_index))
  /\ last (order_by (fst (fst (findRows sample_env matched_by_date forward_index)))) ""
     = "n.title ASC"
  /\ order_by (fst (fst (findRows sample_env closure_by_date chain_index)))
     = ["l.distance"; "n.created ASC"; "n.title ASC"].
Proof.
  assert (H : findRows sample_env matched_by_date forward_index
              = ((fst (fst (findRows sample_env matched_by_date forward_index)), None),
                 snd (findRows sample_env matched_by_date forward_index))).
  { vm_compute. reflexivity. }
  assert (H' : findRows sample_env closure_by_date chain_index
               = ((fst (fst (findRows sample_env closure_by_date chain_index)), None),
                  snd (findRows sample_env closure_by_date chain_index))).
  { vm_compute. reflexivity. }
  split; [exact H|]. split.
  - exact (proj1 (proj2 (proj2
             (C1_order_terms sample_env matched_by_date forward_index _ _ H)))).
  - rewrite (proj1 (proj2
               (C1_order_terms sample_env closure_by_date chain_index _ _ H'))).
    vm_compute. reflexivity.
Defined.

(** With a match expression and the sort key [created], the relevance
    score is not the first order term: the query is ordered by
    [n.created ASC, bm25(...), n.title ASC]. *)
Lemma C1_relevance_not_first :
  Match matched_by_date <> None
  /\ order_by (fst (fst (findRows sample_env matched_by_date forward_index)))
     = ["n.created ASC"; relevance_term; "n.title ASC"]
  /\ ~ (exists rest,
          order_by (fst (fst (findRows sample_env matched_by_date forward_index)))
          = relevance_term :: rest).
Proof.
  split; [discriminate|]. split; [vm_compute; reflexivity|].
  intros [rest H]. vm_compute in H. discriminate.
Qed.

(** ** C3: the backfill, and the query that sees it *)




(** ** The transitive closure *)

Lemma path_avoids_spec (p : list Z) (t : Z) :
  path_avoids p t = true <-> ~ In t p.
Proof.
  unfold path_avoids. rewrite negb_true_iff. split.
  - intros H Hin. assert (E : existsb (Z.eqb t) p = true).
    { apply existsb_exists. exists t. split; [exact Hin|apply Z.eqb_refl]. }
    congruence.
  - intros H. destruct (existsb (Z.eqb t) p) eqn:E; [|reflexivity].
    apply existsb_exists in E as [x [Hx Ex]]. apply Z.eqb_eq in Ex. now subst x.
Qed.

(** The rows the recursive select derives from a chain are chains. *)
Lemma tc_step_sound (ls : list links.row) (maxDistance : Z) (tc r : tc_row) :
  reaches ls maxDistance tc ->
  In r (tc_step maxDistance ls tc) ->
  reaches ls maxDistance r.
Proof.
  intros Htc Hr. unfold tc_step in Hr.
  destruct (tc_target_id tc) as [mid|] eqn:Et; [|contradiction].
  destruct (tc_path tc) as [p|] eqn:Ep; [|contradiction].
  apply in_flat_map in Hr as [l [Hl Hr]].
  destruct (links.target_id l) as [t|] eqn:El; [|contradiction].
  destruct ((links.source_id l =? mid) && path_avoids p t
            && ((maxDistance =? 0) || (tc_distance tc <? maxDistance)))%bool eqn:C;
    [|contradiction].
  destruct Hr as [<-|[]].
  apply andb_true_iff in C as [C Cd]. apply andb_true_iff in C as [Cs Cp].
  apply Z.eqb_eq in Cs. apply path_avoids_spec in Cp.
  apply (reach_more ls maxDistance tc l p t); auto.
  - now rewrite Cs.
  - apply orb_true_iff in Cd as [Cd|Cd]; [left; now apply Z.eqb_eq|right; now apply Z.ltb_lt].
Qed.

(** Every link a chain can be extended by is tried by the recursive
    select. *)
Lemma tc_step_complete (ls : list links.row) (maxDistance : Z) (tc : tc_row)
    (l : links.row) (p : list Z) (t : Z) :
  In l ls ->
  tc_target_id tc = Some (links.source_id l) ->
  tc_path tc = Some p ->
  links.target_id l = Some t ->
  ~ In t p ->
  maxDistance = 0 \/ tc_distance tc < maxDistance ->
  In {| tc_source_id := tc_source_id tc; tc_target_id := Some t;
        tc_distance := tc_distance tc + 1; tc_path := Some (p ++ [t]) |}
     (tc_step maxDistance ls tc).
Proof.
  intros Hl Et Ep El Hp Hd. unfold tc_step. rewrite Et, Ep.
  apply in_flat_map. exists l. split; [exact Hl|]. rewrite El.
  rewrite Z.eqb_refl. apply path_avoids_spec in Hp. rewrite Hp. cbn [andb].
  assert (C : ((maxDistance =? 0) || (tc_distance tc <? maxDistance))%bool = true).
  { apply orb_true_iff. destruct Hd as [Hd|Hd];
      [left; now apply Z.eqb_eq|right; now apply Z.ltb_lt]. }
  rewrite C. now left.
Qed.

(** The rows that enter the table are chains when the queue holds
    chains. *)
Lemma tc_run_sound (ls : list links.row) (maxDistance : Z) (limit : nat) :
  forall queue,
    (forall r, In r queue -> reaches ls maxDistance r) ->
    forall r, In r (tc_run limit maxDistance ls queue) -> reaches ls maxDistance r.
Proof.
  induction limit as [|limit IH]; intros queue Hq r Hr; [contradiction|].
  cbn [tc_run] in Hr. destruct queue as [|tc queue]; [contradiction|].
  destruct Hr as [<-|Hr]; [apply Hq; now left|].
  apply (IH (queue ++ tc_step maxDistance ls tc)); [|exact Hr].
  intros r' Hr'. apply in_app_or in Hr' as [Hr'|Hr'].
  - apply Hq. now right.
  - apply (tc_step_sound ls maxDistance tc); [apply Hq; now left|exact Hr'].
Qed.

(** When fewer rows entered the table than the limit allows, the queue
    ran empty: every row of the queue entered, and so did every row
    derived from a row that entered. *)
Lemma tc_run_complete (ls : list links.row) (maxDistance : Z) (limit : nat) :
  forall queue,
    (List.length (tc_run limit maxDistance ls queue) < limit)%nat ->
    (forall r, In r queue -> In r (tc_run limit maxDistance ls queue))
    /\ (forall r r', In r (tc_run limit maxDistance ls queue) ->
          In r' (tc_step maxDistance ls r) ->
          In r' (tc_run limit maxDistance ls queue)).
Proof.
  induction limit as [|limit IH]; intros queue Hlen; [inversion Hlen|].
  cbn [tc_run] in *. destruct queue as [|tc queue].
  - split; intros r; contradiction.
  - cbn [List.length] in Hlen. apply PeanoNat.lt_S_n in Hlen.
    destruct (IH _ Hlen) as [Hq Hc]. split.
    + intros r [<-|Hr]; [now left|]. right. apply Hq. apply in_or_app. now left.
    + intros r r' [<-|Hr] Hr'.
      * right. apply Hq. apply in_or_app. now right.
      * right. now apply (Hc r r').
Qed.

Lemma transitive_closure_sound (ls : list links.row) (maxDistance : Z) (r : tc_row) :
  In r (transitive_closure maxDistance ls) -> reaches ls maxDistance r.
Proof.
  apply tc_run_sound. intros r' Hr'. apply in_map_iff in Hr' as [l [<- Hl]].
  now apply reach_link.
Qed.

Lemma transitive_closure_complete (ls : list links.row) (maxDistance : Z) (r : tc_row) :
  (List.length (transitive_closure maxDistance ls) < tc_limit)%nat ->
  reaches ls maxDistance r -> In r (transitive_closure maxDistance ls).
Proof.
  intros Hlen Hr. unfold transitive_closure in *.
  destruct (tc_run_complete ls maxDistance tc_limit _ Hlen) as [Hq Hc].
  induction Hr as [l Hl|tc l p t Htc IH Hl Et Ep El Hp Hd].
  - apply Hq. now apply in_map.
  - apply (Hc tc); [exact IH|]. now apply (tc_step_complete ls maxDistance tc l p t).
Qed.

(** A chain has at least one link, and at most [maxDistance] when that
    is positive. *)
Lemma reaches_distance (ls : list links.row) (maxDistance : Z) (r : tc_row) :
  reaches ls maxDistance r ->
  1 <= tc_distance r /\ (0 < maxDistance -> tc_distance r <= maxDistance).
Proof.
  induction 1 as [l Hl|tc l p t Htc IH Hl Et Ep El Hp Hd]; cbn.
  - lia.
  - lia.
Qed.

(** ** The rows a link filter joins *)

Lemma existsb_eqb_In (x : Z) (l : list Z) : existsb (Z.eqb x) l = true <-> In x l.
Proof.
  rewrite existsb_exists. split.
  - intros [y [Hy E]]. apply Z.eqb_eq in E. now subst y.
  - intros H. exists x. split; [exact H|apply Z.eqb_refl].
Qed.

Lemma joins_forward (ids : list NoteId) (n : Z) (r : tc_row) :
  joins (-1) ids n r = true <-> forward ids n r.
Proof.
  unfold joins, forward. destruct (tc_target_id r) as [t|].
  - cbn. rewrite orb_false_r, andb_true_iff, Z.eqb_eq, existsb_eqb_In.
    split; [intros [-> H]; auto|intros [E H]; inversion E; auto].
  - split; [discriminate|intros [E _]; discriminate].
Qed.

Lemma joins_backward (ids : list NoteId) (n : Z) (r : tc_row) :
  joins 1 ids n r = true <-> backward ids n r.
Proof.
  unfold joins, backward. destruct (tc_target_id r) as [t|].
  - cbn. rewrite andb_true_iff, Z.eqb_eq, existsb_eqb_In.
    split.
    + intros [-> H]. split; [reflexivity|]. now exists t.
    + intros [E [t' [Et H]]]. inversion Et; subst. auto.
  - split; [discriminate|intros [_ [t [E _]]]; discriminate].
Qed.

Lemma joins_both (ids : list NoteId) (n : Z) (r : tc_row) :
  joins 0 ids n r = true <-> forward ids n r \/ backward ids n r.
Proof.
  unfold joins, forward, backward. destruct (tc_target_id r) as [t|].
  - cbn. rewrite orb_true_iff, !andb_true_iff, !Z.eqb_eq, !existsb_eqb_In.
    split.
    + intros [[-> H]|[-> H]]; [left; auto|right; split; [reflexivity|now exists t]].
    + intros [[E H]|[E [t' [Et H]]]]; [inversion E; auto|inversion Et; subst; auto].
  - split; [discriminate|intros [[E _]|[_ [t [E _]]]]; discriminate].
Qed.

(** The notes a query with one recursive, not negated [LinkedBy] or
    [LinkTo] filter selects: those a row of the closure joins to a seed. *)
Lemma select_recursive (env : Env) (opts : FinderOpts) (direction maxDistance : Z)
    (ids : list NoteId) (d : DB) (n : notes.row) :
  direction <> 0 ->
  In n (select_notes env
          (buildQuery opts
             (linkFilterClauses ids direction false true
                (set_maxDistance maxDistance new_builder))) d)
  <-> In n (notes_tbl d)
      /\ exists r, In r (transitive_closure maxDistance (links_tbl d))
           /\ joins direction ids (notes.id n) r = true.
Proof.
  intros Hd. unfold select_notes. rewrite filter_In.
  apply Z.eqb_neq in Hd.
  unfold linkFilterClauses. rewrite Hd. cbn.
  rewrite !andb_true_r, existsb_exists. reflexivity.
Qed.

(** ** C4: the bound of the closure *)

(** C4 (amended). Take a query whose only filter is a recursive, not
    negated link filter with a bound [maxDistance], whose paths resolve to
    at least one note, on a database that does not fail.  Every row of the
    closure is a chain of links that never returns to a note it has
    passed; it has at least one link and, when [maxDistance] is positive,
    at most [maxDistance]; when [maxDistance] is 0 its length is bounded
    by nothing but that rule and the cap of 100000 rows; and as long as
    the cap is not reached every such chain is a row.  The filter
    [LinkedBy] selects the notes at the end of a row that starts at a
    seed, the filter [LinkTo] the notes at the start of a row that ends at
    a seed.  On the chain A -> B -> C -> D, [LinkedBy] A with bound 2
    selects B and C and not D, with bound 0 it selects B, C and D;
    [LinkTo] A selects nothing, and [LinkTo] D with bound 2 selects B and
    C. *)
Theorem C4_closure_bound (env : Env) (f : LinkFilter.t) (s : State)
    (i : NoteId) (ids : list NoteId)
    (Hruns : faults s = [])
    (Hrec : LinkFilter.Recursive f = true)
    (Hneg : LinkFilter.Negate f = false)
    (Hids : resolve_all (notes_tbl (db s)) (LinkFilter.Paths f) = i :: ids) :
  (forall r,
     In r (transitive_closure (LinkFilter.MaxDistance f) (links_tbl (db s))) ->
     reaches (links_tbl (db s)) (LinkFilter.MaxDistance f) r
     /\ 1 <= tc_distance r
     /\ (0 < LinkFilter.MaxDistance f -> tc_distance r <= LinkFilter.MaxDistance f))
  /\ ((List.length (transitive_closure (LinkFilter.MaxDistance f)
                      (links_tbl (db s))) < tc_limit)%nat ->
      forall r,
        reaches (links_tbl (db s)) (LinkFilter.MaxDistance f) r ->
        In r (transitive_closure (LinkFilter.MaxDistance f) (links_tbl (db s))))
  /\ (exists rows,
        fst (Find env (only_LinkedBy f) s) = (rows, None)
        /\ forall n,
             In n (selected rows)
             <-> In n (notes_tbl (db s))
                 /\ exists r,
                      In r (transitive_closure (LinkFilter.MaxDistance f)
                              (links_tbl (db s)))
                      /\ forward (i :: ids) (notes.id n) r)
  /\ (exists rows,
        fst (Find env (only_LinkTo f) s) = (rows, None)
        /\ forall n,
             In n (selected rows)
             <-> In n (notes_tbl (db s))
                 /\ exists r,
                      In r (transitive_closure (LinkFilter.MaxDistance f)
                              (links_tbl (db s)))
                      /\ backward (i :: ids) (notes.id n) r)
  /\ found_paths (Find sample_env (only_LinkedBy (closure_filter "a" 2)) chain_index)
     = (["b"; "c"], None)
  /\ found_paths (Find sample_env (only_LinkedBy (closure_filter "a" 0)) chain_index)
     = (["b"; "c"; "d"], None)
  /\ found_paths (Find sample_env (only_LinkTo (closure_filter "a" 2)) chain_index)
     = ([], None)
  /\ found_paths (Find sample_env (only_LinkTo (closure_filter "d" 2)) chain_index)
     = (["b"; "c"], None).
Proof.
  split.
  { intros r Hr. apply transitive_closure_sound in Hr.
    split; [exact Hr|]. exact (reaches_distance _ _ _ Hr). }
  split; [intros Hcap r Hr; now apply transitive_closure_complete|].
  split.
  { rewrite Find_no_mention by reflexivity. unfold findRows, bind.
    rewrite (buildFilters_only_LinkedBy env f s Hruns), Hids, Hrec, Hneg.
    rewrite tx_Query_runs by exact Hruns.
    match goal with
    | |- context [query_error env ?q] =>
        assert (Hq : query_error env q = None) by reflexivity; rewrite Hq
    end.
    eexists. split; [reflexivity|]. intros n. cbn [selected].
    rewrite select_recursive by discriminate.
    split; intros [Hn [r [Hr Hj]]]; (split; [exact Hn|]); exists r;
      (split; [exact Hr|]); now apply joins_forward. }
  split.
  { rewrite Find_no_mention by reflexivity. unfold findRows, bind.
    rewrite (buildFilters_only_LinkTo env f s Hruns), Hids, Hrec, Hneg.
    rewrite tx_Query_runs by exact Hruns.
    match goal with
    | |- context [query_error env ?q] =>
        assert (Hq : query_error env q = None) by reflexivity; rewrite Hq
    end.
    eexists. split; [reflexivity|]. intros n. cbn [selected].
    rewrite select_recursive by discriminate.
    split; intros [Hn [r [Hr Hj]]]; (split; [exact Hn|]); exists r;
      (split; [exact Hr|]); now apply joins_backward. }
  repeat split; vm_compute; reflexivity.
Qed.

(** On the chain, the path [a] resolves to the note 1, the closure with
    bound 2 stays below the cap, and its rows have one or two links. *)
Lemma C4_witness :
  resolve_all (notes_tbl (db chain_index)) ["a"] = [1]
  /\ (List.length (transitive_closure 2 (links_tbl (db chain_index))) < tc_limit)%nat
  /\ (forall r, In r (transitive_closure 2 (links_tbl (db chain_index))) ->
        1 <= tc_distance r <= 2)
  /\ In {| tc_source_id := 1; tc_target_id := Some 3; tc_distance := 2;
           tc_path := Some [1; 2; 3] |}
        (transitive_closure 2 (links_tbl (db chain_index))).
Proof.
  assert (Hids : resolve_all (notes_tbl (db chain_index))
                   (LinkFilter.Paths (closure_filter "a" 2)) = [1]).
  { vm_compute. reflexivity. }
  assert (Hcap : (List.length (transitive_closure 2 (links_tbl (db chain_index)))
                  < tc_limit)%nat).
  { apply PeanoNat.Nat.ltb_lt. vm_compute. reflexivity. }
  destruct (C4_closure_bound sample_env (closure_filter "a" 2) chain_index 1 []
              eq_refl eq_refl eq_refl Hids) as [Hsound [Hcomplete _]].
  split; [exact Hids|]. split; [exact Hcap|]. split.
  - intros r Hr. destruct (Hsound r Hr) as [_ [H1 H2]].
    split; [exact H1|exact (H2 eq_refl)].
  - apply (Hcomplete Hcap).
    pose (ab := links.set_target (Some 2) (stored_link [] 1 (internal_link "b"))).
    pose (bc := links.set_target (Some 3) (stored_link [] 2 (internal_link "c"))).
    apply (reach_more (links_tbl (db chain_index)) 2 (tc_base ab) bc [1; 2] 3).
    + apply reach_link. vm_compute. left. reflexivity.
    + vm_compute. right. left. reflexivity.
    + reflexivity.
    + reflexivity.
    + reflexivity.
    + intros [H|[H|[]]]; discriminate.
    + right. reflexivity.
Defined.

(** On the chain A -> B -> C -> D the recursive filter [LinkTo] on A with
    bound 2 selects neither B nor C: no note links to A. *)
Lemma C4_LinkTo_selects_nothing :
  map (fun l => (links.source_id l, links.target_id l)) (links_tbl (db chain_index))
  = [(1, Some 2); (2, Some 3); (3, Some 4)]
  /\ snd (found_paths (Find sample_env (only_LinkTo (closure_filter "a" 2))
                         chain_index)) = None
  /\ ~ In "b" (fst (found_paths (Find sample_env (only_LinkTo (closure_filter "a" 2))
                                   chain_index)))
  /\ ~ In "c" (fst (found_paths (Find sample_env (only_LinkTo (closure_filter "a" 2))
                                   chain_index))).
Proof.
  split; [vm_compute; reflexivity|]. split; [vm_compute; reflexivity|].
  split; intros H; vm_compute in H; exact H.
Qed.

(** ** The least distance of a group *)

Lemma min_distance_from (rows : list tc_row) (acc : option Z) :
  match fold_left
          (fun acc r => match acc with
                        | None => Some (tc_distance r)
                        | Some m => Some (Z.min m (tc_distance r))
                        end) rows acc with
  | None => acc = None /\ rows = []
  | Some m =>
      (acc = Some m \/ exists r, In r rows /\ tc_distance r = m)
      /\ (forall a, acc = Some a -> m <= a)
      /\ (forall r, In r rows -> m <= tc_distance r)
  end.
Proof.
  revert acc. induction rows as [|r rows IH]; intros acc.
  - cbn. destruct acc as [a|]; [|auto].
    split; [now left|]. split; [intros a' E; inversion E; lia|intros r []].
  - cbn [fold_left].
    specialize (IH (match acc with
                    | None => Some (tc_distance r)
                    | Some m => Some (Z.min m (tc_distance r))
                    end)).
    destruct (fold_left _ rows _) as [m|].
    + destruct IH as [Hex [Hacc Hall]]. split; [|split].
      * destruct Hex as [E|[r' [Hr' E]]].
        -- destruct acc as [a|]; inversion E.
           ++ destruct (Z.min_spec a (tc_distance r)) as [[_ Em]|[_ Em]].
              ** left. congruence.
              ** right. exists r. split; [now left|]. congruence.
           ++ right. exists r. split; [now left|reflexivity].
        -- right. exists r'. split; [now right|exact E].
      * intros a ->. specialize (Hacc _ eq_refl). lia.
      * intros r' [<-|Hr']; [|now apply Hall].
        destruct acc as [a|]; specialize (Hacc _ eq_refl); lia.
    + destruct IH as [E _]. destruct acc; discriminate.
Qed.

(** The least distance is 2 exactly when some row of the group has
    distance 2 and none has less. *)
Lemma min_distance_two (rows : list tc_row) :
  (forall r, In r rows -> 1 <= tc_distance r) ->
  match min_distance rows with
  | Some m => m =? 2
  | None => false
  end = true
  <-> (exists r, In r rows /\ tc_distance r = 2)
      /\ ~ (exists r, In r rows /\ tc_distance r = 1).
Proof.
  intros Hpos. unfold min_distance.
  pose proof (min_distance_from rows None) as H.
  destruct (fold_left _ rows None) as [m|].
  - destruct H as [[E|[r [Hr E]]] [_ Hall]]; [discriminate|].
    rewrite Z.eqb_eq. split.
    + intros ->. split; [now exists r|].
      intros [r' [Hr' E']]. specialize (Hall r' Hr'). lia.
    + intros [[r2 [Hr2 E2]] Hno].
      pose proof (Hall r2 Hr2). pose proof (Hpos r Hr).
      assert (m <> 1) by (intros ->; apply Hno; now exists r).
      lia.
  - destruct H as [_ ->]. split; [discriminate|].
    intros [[r [[] _]] _].
Qed.

(** ** Rows of one and of two links *)

Lemma reaches_one (ls : list links.row) (maxDistance : Z) (r : tc_row) :
  reaches ls maxDistance r -> tc_distance r = 1 -> exists l, In l ls /\ r = tc_base l.
Proof.
  intros H E. destruct H as [l Hl|tc l p t Htc Hl Et Ep El Hp Hd].
  - now exists l.
  - cbn in E. pose proof (reaches_distance _ _ _ Htc). lia.
Qed.

Lemma reaches_two (ls : list links.row) (maxDistance : Z) (r : tc_row) :
  reaches ls maxDistance r -> tc_distance r = 2 ->
  exists l1 l2 m t,
    In l1 ls /\ In l2 ls
    /\ links.target_id l1 = Some m /\ links.source_id l2 = m
    /\ links.target_id l2 = Some t
    /\ t <> links.source_id l1 /\ t <> m
    /\ r = {| tc_source_id := links.source_id l1; tc_target_id := Some t;
              tc_distance := 2; tc_path := Some [links.source_id l1; m; t] |}.
Proof.
  intros H E. destruct H as [l Hl|tc l p t Htc Hl Et Ep El Hp Hd].
  - discriminate.
  - cbn in E. assert (E1 : tc_distance tc = 1) by lia.
    destruct (reaches_one _ _ _ Htc E1) as [l1 [Hl1 ->]].
    cbn in Et, Ep. destruct (links.target_id l1) as [m|] eqn:Em; [|discriminate].
    cbn in Ep. inversion Et; subst. inversion Ep; subst.
    exists l1, l, (links.source_id l), t.
    repeat split; auto.
    + intros ->. apply Hp. now left.
    + intros ->. apply Hp. right. now left.
Qed.

Lemma two_links_row (ls : list links.row) (l1 l2 : links.row) (m t : Z) :
  In l1 ls -> In l2 ls ->
  links.target_id l1 = Some m -> links.source_id l2 = m ->
  links.target_id l2 = Some t ->
  t <> links.source_id l1 -> t <> m ->
  reaches ls 2
    {| tc_source_id := links.source_id l1; tc_target_id := Some t;
       tc_distance := 2; tc_path := Some [links.source_id l1; m; t] |}.
Proof.
  intros H1 H2 Em Es Et N1 N2.
  pose proof (reach_more ls 2 (tc_base l1) l2 [links.source_id l1; m] t) as R.
  cbn in R. rewrite Em in R. cbn in R. apply R; auto.
  - now apply reach_link.
  - now rewrite Es.
  - intros [H|[H|[]]]; congruence.
  - right. lia.
Qed.

(** ** C2: related notes *)

Lemma buildFilters_only_Related (env : Env) (paths : list string) (s : State) :
  faults s = [] ->
  buildFilters env (only_Related paths) s
  = ((match resolve_all (notes_tbl (db s)) paths with
      | [] => set_groupBy having_distance_2 (set_maxDistance 2 new_builder)
      | ids =>
          set_groupBy ("GROUP BY n.id" +s+ having_distance_2)
            (linkFilterClauses ids 0 false true (set_maxDistance 2 new_builder))
      end, None), s).
Proof.
  intros H. unfold buildFilters, bind, get, only_Related. cbn.
  unfold setupRelated, bind. cbn. rewrite (setupLinkFilter_runs _ _ _ _ _ s H).
  now destruct (resolve_all (notes_tbl (db s)) paths).
Qed.

(** The notes a query with a Related filter alone selects: the least
    distance of the rows that join them to a seed is 2. *)
Lemma select_related (env : Env) (paths : list string) (ids : list NoteId)
    (d : DB) (n : notes.row) :
  In n (select_notes env
          (buildQuery (only_Related paths)
             (set_groupBy ("GROUP BY n.id" +s+ having_distance_2)
                (linkFilterClauses ids 0 false true
                   (set_maxDistance 2 new_builder)))) d)
  <-> In n (notes_tbl d)
      /\ match min_distance
                 (filter (joins 0 ids (notes.id n))
                         (transitive_closure 2 (links_tbl d))) with
         | Some m => m =? 2
         | None => false
         end = true.
Proof.
  unfold select_notes. rewrite filter_In. cbn. split.
  - intros [Hn H]. apply andb_true_iff in H as [_ H]. auto.
  - intros [Hn H]. split; [exact Hn|]. apply andb_true_iff. split; [|exact H].
    destruct (filter (joins 0 ids (notes.id n))
                     (transitive_closure 2 (links_tbl d))) as [|r rows] eqn:E.
    + cbn in H. discriminate.
    + apply existsb_exists. exists r.
      assert (Hr : In r (filter (joins 0 ids (notes.id n))
                                (transitive_closure 2 (links_tbl d)))).
      { rewrite E. now left. }
      now apply filter_In in Hr.
Qed.

Lemma joined_one_link (ls : list links.row) (ids : list NoteId) (n : Z) :
  (List.length (transitive_closure 2 ls) < tc_limit)%nat ->
  (exists r, In r (filter (joins 0 ids n) (transitive_closure 2 ls))
             /\ tc_distance r = 1)
  <-> one_link ls ids n.
Proof.
  intros Hcap. split.
  - clear Hcap. intros [r [Hr E]]. apply filter_In in Hr as [Hr Hj].
    apply transitive_closure_sound in Hr.
    destruct (reaches_one _ _ _ Hr E) as [l [Hl ->]].
    apply joins_both in Hj. unfold forward, backward in Hj. cbn in Hj.
    destruct Hj as [[Et Hs]|[Es [t [Et Ht]]]].
    + exists l, n. auto.
    + exists l, t. auto.
  - intros [l [t [Hl [Et H]]]]. exists (tc_base l). split; [|reflexivity].
    apply filter_In. split.
    + apply transitive_closure_complete; [exact Hcap|].
      apply reach_link. exact Hl.
    + clear Hcap. apply joins_both. unfold forward, backward. cbn. rewrite Et.
      destruct H as [[Hs ->]|[Hs Ht]]; [left; auto|right; split; [exact Hs|now exists t]].
Qed.

Lemma joined_two_links (ls : list links.row) (ids : list NoteId) (n : Z) :
  (List.length (transitive_closure 2 ls) < tc_limit)%nat ->
  (exists r, In r (filter (joins 0 ids n) (transitive_closure 2 ls))
             /\ tc_distance r = 2)
  <-> two_links ls ids n.
Proof.
  intros Hcap. split.
  - clear Hcap. intros [r [Hr E]]. apply filter_In in Hr as [Hr Hj].
    apply transitive_closure_sound in Hr.
    destruct (reaches_two _ _ _ Hr E)
      as [l1 [l2 [m [t [H1 [H2 [Em [Es [Et [N1 [N2 ->]]]]]]]]]]].
    apply joins_both in Hj. unfold forward, backward in Hj. cbn in Hj.
    exists l1, l2, m, t. repeat (split; [assumption|]).
    destruct Hj as [[E' Hs]|[Es' [t' [E' Ht]]]]; inversion E'; subst; auto.
  - intros [l1 [l2 [m [t [H1 [H2 [Em [Es [Et [N1 [N2 H]]]]]]]]]]].
    exists {| tc_source_id := links.source_id l1; tc_target_id := Some t;
              tc_distance := 2; tc_path := Some [links.source_id l1; m; t] |}.
    split; [|reflexivity]. apply filter_In. split.
    + apply transitive_closure_complete; [exact Hcap|].
      clear Hcap. now apply (two_links_row ls l1 l2 m t).
    + clear Hcap. apply joins_both. unfold forward, backward. cbn.
      destruct H as [[Hs ->]|[Hs Ht]]; [left; auto|right; split; [exact Hs|now exists t]].
Qed.

Lemma setupLinkFilter_maxDistance (paths : list string) (direction : Z)
    (negate recursive : bool) (b : Builder) (s : State) :
  maxDistance (fst (fst (setupLinkFilter paths direction negate recursive b s)))
  = maxDistance b.
Proof.
  unfold setupLinkFilter, bind.
  destruct (findIdsByPathPrefixes paths s) as [[ids err] s1].
  destruct err; [reflexivity|]. destruct ids; [reflexivity|].
  cbn [ret fst]. unfold linkFilterClauses.
  now destruct recursive, negate, (direction =? 0).
Qed.

Lemma setupOrphanAndDates_maxDistance (opts : FinderOpts) (b : Builder) :
  maxDistance (setupOrphanAndDates opts b) = maxDistance b.
Proof.
  unfold setupOrphanAndDates.
  now destruct (Orphan opts), (CreatedStart opts), (CreatedEnd opts),
    (ModifiedStart opts), (ModifiedEnd opts).
Qed.

(** Whatever bounds the other link filters carry, the closure of a query
    with a Related filter is built with the bound 2. *)
Lemma related_maxDistance (env : Env) (opts : FinderOpts) (paths : list string)
    (s s' : State) (b : Builder) :
  Related opts = Some paths ->
  buildFilters env opts s = ((b, None), s') ->
  maxDistance b = 2.
Proof.
  intros Hrel. unfold buildFilters, bind, get.
  destruct (match Tags opts with
            | Some tags => setupTags tags _
            | None => _
            end) as [b1 e1].
  destruct e1; [discriminate|].
  destruct (setupLinkedBy opts b1 s) as [[b2 e2] s2].
  destruct e2; [discriminate|].
  destruct (setupLinkTo opts b2 s2) as [[b3 e3] s3].
  destruct e3; [discriminate|].
  unfold setupRelated. rewrite Hrel. unfold bind.
  pose proof (setupLinkFilter_maxDistance paths 0 false true
                (set_maxDistance 2 b3) s3) as Hm.
  destruct (setupLinkFilter paths 0 false true (set_maxDistance 2 b3) s3)
    as [[b4 e4] s4].
  cbn [fst] in Hm. destruct e4; [discriminate|].
  unfold ret. intros H. inversion H; subst.
  rewrite setupOrphanAndDates_maxDistance. exact Hm.
Qed.

(** C2 (amended). Take a query whose only filter is a Related filter
    whose paths resolve to at least one note, on a database that does not
    fail and whose closure stays below the cap.  It selects exactly the
    notes that two consecutive links join to a seed, both followed in
    their own direction (from a seed to the note, or from the note to a
    seed), the second link ending at neither end of the first, and that no
    single link joins to a seed in either direction: the direct neighbours
    of the seeds are excluded, and so is the seed when there is only one.
    Links are never followed against their direction: with A -> B and
    C -> B, Related A selects nothing (C is not selected); with A -> B and
    B -> C it selects C and neither A nor B.  The distance 2 is a constant:
    whatever bounds the other link filters of the query carry, the
    closure of a query with a Related filter is built with the bound 2. *)
Theorem C2_related_notes (env : Env) (paths : list string) (s : State)
    (i : NoteId) (ids : list NoteId)
    (Hruns : faults s = [])
    (Hids : resolve_all (notes_tbl (db s)) paths = i :: ids)
    (Hcap : (List.length (transitive_closure 2 (links_tbl (db s))) < tc_limit)%nat) :
  (exists rows,
     fst (Find env (only_Related paths) s) = (rows, None)
     /\ (forall n,
           In n (selected rows)
           <-> In n (notes_tbl (db s))
               /\ two_links (links_tbl (db s)) (i :: ids) (notes.id n)
               /\ ~ one_link (links_tbl (db s)) (i :: ids) (notes.id n))
     /\ (ids = [] -> forall n, In n (selected rows) -> notes.id n <> i))
  /\ (forall opts paths' s0 s1 b,
        Related opts = Some paths' ->
        buildFilters env opts s0 = ((b, None), s1) ->
        maxDistance b = 2)
  /\ found_paths (Find sample_env (only_Related ["a"]) fan_in_index) = ([], None)
  /\ found_paths (Find sample_env (only_Related ["a"]) two_hop_index)
     = (["c"], None).
Proof.
  split; [|split; [|split; vm_compute; reflexivity]].
  - rewrite Find_no_mention by reflexivity. unfold findRows, bind.
    rewrite (buildFilters_only_Related env paths s Hruns), Hids.
    rewrite tx_Query_runs by exact Hruns.
    match goal with
    | |- context [query_error env ?q] =>
        assert (Hq : query_error env q = None) by reflexivity; rewrite Hq
    end.
    eexists. split; [reflexivity|]. cbn [selected].
    assert (Hsel : forall n,
              In n (select_notes env
                      (buildQuery (only_Related paths)
                         (set_groupBy ("GROUP BY n.id" +s+ having_distance_2)
                            (linkFilterClauses (i :: ids) 0 false true
                               (set_maxDistance 2 new_builder)))) (db s))
              <-> In n (notes_tbl (db s))
                  /\ two_links (links_tbl (db s)) (i :: ids) (notes.id n)
                  /\ ~ one_link (links_tbl (db s)) (i :: ids) (notes.id n)).
    { intros n. rewrite select_related.
      rewrite min_distance_two.
      - rewrite (joined_one_link _ _ _ Hcap), (joined_two_links _ _ _ Hcap).
        reflexivity.
      - clear Hcap. intros r Hr. apply filter_In in Hr as [Hr _].
        apply transitive_closure_sound in Hr.
        exact (proj1 (reaches_distance _ _ _ Hr)). }
    split; [exact Hsel|].
    clear Hcap Hq. intros -> n Hn E. apply Hsel in Hn as [_ [Htwo _]].
    destruct Htwo as [l1 [l2 [m [t [_ [_ [_ [_ [_ [N1 [_ H]]]]]]]]]]].
    destruct H as [[[H|[]] Ht]|[Hs [H|[]]]]; congruence.
  - intros opts paths' s0 s1 b. apply related_maxDistance.
Qed.

(** With A -> B and B -> C, the path [a] resolves to the note 1 alone, the
    closure stays below the cap, and the Related filter on A does not
    select A. *)
Lemma C2_witness :
  faults two_hop_index = []
  /\ resolve_all (notes_tbl (db two_hop_index)) ["a"] = [1]
  /\ (List.length (transitive_closure 2 (links_tbl (db two_hop_index))) < tc_limit)%nat
  /\ forall n,
       In n (selected (fst (fst (Find sample_env (only_Related ["a"]) two_hop_index)))) ->
       notes.id n <> 1.
Proof.
  assert (Hids : resolve_all (notes_tbl (db two_hop_index)) ["a"] = [1]).
  { vm_compute. reflexivity. }
  assert (Hcap : (List.length (transitive_closure 2 (links_tbl (db two_hop_index)))
                  < tc_limit)%nat).
  { apply PeanoNat.Nat.ltb_lt. vm_compute. reflexivity. }
  split; [reflexivity|]. split; [exact Hids|]. split; [exact Hcap|].
  destruct (C2_related_notes sample_env ["a"] two_hop_index 1 [] eq_refl Hids Hcap)
    as [[rows [E [_ Hseed]]] _].
  intros n Hn. apply (Hseed eq_refl).
  replace rows with (fst (fst (Find sample_env (only_Related ["a"]) two_hop_index))).
  - exact Hn.
  - destruct (Find sample_env (only_Related ["a"]) two_hop_index) as [[rows' err] s'].
    cbn [fst] in E. inversion E. reflexivity.
Defined.

(** With A -> B and C -> B the Related filter on A does not select C: no
    chain of links followed in their direction joins A and C. *)
Lemma C2_related_misses_the_sibling :
  map (fun l => (links.source_id l, links.target_id l)) (links_tbl (db fan_in_index))
  = [(1, Some 2); (3, Some 2)]
  /\ map (fun n => (notes.id n, notes.path n)) (notes_tbl (db fan_in_index))
     = [(1, "a"); (2, "b"); (3, "c")]
  /\ snd (found_paths (Find sample_env (only_Related ["a"]) fan_in_index)) = None
  /\ ~ In "c" (fst (found_paths (Find sample_env (only_Related ["a"]) fan_in_index))).
Proof.
  split; [vm_compute; reflexivity|]. split; [vm_compute; reflexivity|].
  split; [vm_compute; reflexivity|].
  intros H. vm_compute in H. exact H.
Qed.

(** ** C5: tag groups *)

Lemma tag_step_spec (negate : bool) (globs : list string) (piece : string) :
  tag_step (negate, globs) piece
  = ((negate || is_negated piece)%bool,
     if Nat.eqb (String.length (pattern_of piece)) 0 then globs
     else globs ++ [pattern_of piece]).
Proof.
  unfold tag_step, is_negated, pattern_of.
  destruct (Str.HasPrefix (Str.TrimSpace piece) "-");
    [|destruct (Str.HasPrefix (Str.TrimSpace piece) "NOT")];
    cbn [orb]; rewrite ?orb_true_r, ?orb_false_r;
    match goal with
    | |- context [Nat.eqb ?n 0] => destruct (Nat.eqb n 0)
    end; reflexivity.
Qed.

Lemma tag_fold_spec (pieces : list string) (negate : bool) (globs : list string) :
  fold_left tag_step pieces (negate, globs)
  = ((negate || existsb is_negated pieces)%bool,
     globs ++ filter (fun p => negb (Nat.eqb (String.length p) 0))
                     (map pattern_of pieces)).
Proof.
  revert negate globs. induction pieces as [|piece pieces IH]; intros negate globs.
  - cbn. now rewrite orb_false_r, app_nil_r.
  - cbn [fold_left]. rewrite tag_step_spec, IH. cbn [existsb map filter].
    rewrite orb_assoc.
    destruct (Nat.eqb (String.length (pattern_of piece)) 0); cbn [negb].
    + reflexivity.
    + now rewrite <- app_assoc.
Qed.

(** What the loop over the tag groups makes of one group. *)
Lemma tag_group_spec (tagsArg : string) :
  fold_left tag_step (split_tags tagsArg) (false, [])
  = (group_negated tagsArg, patterns_of tagsArg).
Proof. unfold group_negated, patterns_of. now rewrite tag_fold_spec. Qed.

(** A negated group with two patterns or more stops the loop: some such
    group of the list is reported. *)
Lemma setupTags_rejects (groups : list string) (g : string) (b : Builder) :
  In g groups ->
  group_negated g = true ->
  (2 <= List.length (patterns_of g))%nat ->
  exists g',
    In g' groups /\ group_negated g' = true
    /\ (2 <= List.length (patterns_of g'))%nat
    /\ snd (setupTags groups b)
       = Some (ErrMessage ("cannot negate a tag in a OR group: " +s+ g')).
Proof.
  revert b. induction groups as [|g0 groups IH]; intros b Hin Hneg Hlen;
    [contradiction|].
  cbn [setupTags]. rewrite tag_group_spec.
  destruct (Nat.eqb (List.length (patterns_of g0)) 0) eqn:E0.
  - destruct Hin as [->|Hin].
    + apply PeanoNat.Nat.eqb_eq in E0. lia.
    + destruct (IH b Hin Hneg Hlen) as [g' [H1 H2]]. exists g'. split; [now right|exact H2].
  - destruct (group_negated g0 && Nat.ltb 1 (List.length (patterns_of g0)))%bool eqn:E1.
    + apply andb_true_iff in E1 as [En El]. apply PeanoNat.Nat.ltb_lt in El.
      exists g0. repeat split; auto. now left.
    + destruct Hin as [->|Hin].
      * rewrite Hneg in E1. cbn [andb] in E1. apply PeanoNat.Nat.ltb_ge in E1. lia.
      * destruct (IH (add_where (where_tags (group_negated g0) (patterns_of g0)) b)
                    Hin Hneg Hlen) as [g' [H1 H2]].
        exists g'. split; [now right|exact H2].
Qed.

(** When the loop ends without error, every group with a pattern has its
    expression among [whereExprs]. *)
Lemma setupTags_adds (groups : list string) (g : string) (b : Builder) :
  snd (setupTags groups b) = None ->
  In g groups ->
  patterns_of g <> [] ->
  In (where_tags (group_negated g) (patterns_of g))
     (whereExprs (fst (setupTags groups b))).
Proof.
  revert b. induction groups as [|g0 groups IH]; intros b Hok Hin Hpat;
    [contradiction|].
  cbn [setupTags] in *. rewrite tag_group_spec in *.
  destruct (Nat.eqb (List.length (patterns_of g0)) 0) eqn:E0.
  - destruct Hin as [->|Hin]; [|now apply IH].
    apply PeanoNat.Nat.eqb_eq in E0. destruct (patterns_of g); [contradiction|discriminate].
  - destruct (group_negated g0 && Nat.ltb 1 (List.length (patterns_of g0)))%bool;
      [discriminate|].
    destruct Hin as [->|Hin]; [|now apply IH].
    eapply grows_where_in; [apply setupTags_grows|].
    cbn. apply in_or_app. right. now left.
Qed.

(** A successful [buildFilters] went through the tag groups without
    error, and kept their expressions. *)
Lemma buildFilters_tags (env : Env) (opts : FinderOpts) (groups : list string)
    (s s1 : State) (b : Builder) :
  Tags opts = Some groups ->
  buildFilters env opts s = ((b, None), s1) ->
  exists b0,
    snd (setupTags groups b0) = None
    /\ grows (fst (setupTags groups b0)) b.
Proof.
  intros Ht. unfold buildFilters, bind, get. rewrite Ht.
  set (b0 := setupExcludeIds opts (heap s) _).
  destruct (setupTags groups b0) as [b1 e1] eqn:E1.
  destruct e1; [discriminate|].
  pose proof (setupLinkedBy_grows opts b1 s) as G2.
  destruct (setupLinkedBy opts b1 s) as [[b2 e2] s2]. cbn [fst] in G2.
  destruct e2; [discriminate|].
  pose proof (setupLinkTo_grows opts b2 s2) as G3.
  destruct (setupLinkTo opts b2 s2) as [[b3 e3] s3]. cbn [fst] in G3.
  destruct e3; [discriminate|].
  pose proof (setupRelated_grows opts b3 s3) as G4.
  destruct (setupRelated opts b3 s3) as [[b4 e4] s4]. cbn [fst] in G4.
  destruct e4; [discriminate|].
  unfold ret. intros H. inversion H; subst.
  exists b0. rewrite E1. split; [reflexivity|]. cbn [fst].
  eapply grows_trans; [exact G2|]. eapply grows_trans; [exact G3|].
  eapply grows_trans; [exact G4|]. apply setupOrphanAndDates_grows.
Qed.

(** ** The WHERE clause as SQL reads it *)

Lemma removelast_map {A B : Type} (f : A -> B) (l : list A) :
  removelast (map f l) = map f (removelast l).
Proof.
  induction l as [|a l IH]; [reflexivity|]. cbn [map removelast].
  destruct l as [|a' l]; [reflexivity|]. cbn [map] in *. now rewrite IH.
Qed.

Lemma existsb_map_id {A : Type} (f : A -> bool) (l : list A) :
  existsb (fun v => v) (map f l) = existsb f l.
Proof. induction l as [|a l IH]; cbn; [reflexivity|now rewrite IH]. Qed.

Lemma forallb_map_id {A : Type} (f : A -> bool) (l : list A) :
  forallb (fun v => v) (map f l) = forallb f l.
Proof. induction l as [|a l IH]; cbn; [reflexivity|now rewrite IH]. Qed.

Lemma sql_value_ands (run : bool) (vs : list bool) :
  sql_value run (map (fun v => (sql_AND, v)) vs) = (run && forallb (fun v => v) vs)%bool.
Proof.
  revert run. induction vs as [|v vs IH]; intros run; cbn.
  - now rewrite andb_true_r.
  - rewrite IH. now rewrite andb_assoc.
Qed.

Lemma where_operands_plain (env : Env) (q : Query) (d : DB) (n : notes.row)
    (w : WhereExpr) :
  plain w = true ->
  where_operands env q d n w = [(sql_AND, where_holds env q d n w)].
Proof.
  destruct w as [arg|args|args|ids|negate globs|negate src direction ids| | | | |];
    try reflexivity.
  destruct args as [|r [|r' args]]; try discriminate.
  intros _. cbn. now rewrite orb_false_r.
Qed.

Lemma operands_plain (env : Env) (q : Query) (d : DB) (n : notes.row)
    (ws : list WhereExpr) :
  forallb plain ws = true ->
  flat_map (where_operands env q d n) ws
  = map (fun v => (sql_AND, v)) (map (where_holds env q d n) ws).
Proof.
  induction ws as [|w ws IH]; [reflexivity|].
  cbn [forallb flat_map map]. intros H. apply andb_true_iff in H as [Hw Hws].
  rewrite (where_operands_plain env q d n w Hw), (IH Hws). reflexivity.
Qed.

(** Without an [OR] the WHERE clause is the conjunction of the elements
    of [whereExprs]. *)
Lemma where_value_plain (env : Env) (q : Query) (d : DB) (n : notes.row) :
  forallb plain (whereExprs (built q)) = true ->
  where_value env q d n = forallb (where_holds env q d n) (whereExprs (built q)).
Proof.
  intros H. unfold where_value. rewrite (operands_plain env q d n _ H).
  rewrite sql_value_ands. cbn [andb]. apply forallb_map_id.
Qed.


Lemma existsb_map {A B : Type} (f : B -> bool) (h : A -> B) (l : list A) :
  existsb f (map h l) = existsb (fun x => f (h x)) l.
Proof. induction l as [|a l IH]; cbn; [reflexivity|now rewrite IH]. Qed.

Lemma existsb_last (vs : list bool) :
  existsb (fun v => v) vs
  = (existsb (fun v => v) (removelast vs) || last vs false)%bool.
Proof.
  induction vs as [|a l IHl]; [reflexivity|].
  destruct l as [|a' l]; [cbn; now rewrite orb_false_r|].
  cbn [existsb removelast last] in *. rewrite IHl. now rewrite orb_assoc.
Qed.

Lemma include_operands (env : Env) (q : Query) (d : DB) (n : notes.row)
    (p1 : string) (ps : list string) :
  where_operands env q d n (where_include_paths (map (pathRegex env) (p1 :: ps)))
  = (sql_AND, regexp env (pathRegex env p1) (notes.path n))
    :: map (fun v => (sql_OR, v))
         (map (fun p => regexp env (pathRegex env p) (notes.path n)) ps).
Proof. cbn. do 2 f_equal. apply map_map. Qed.

(** The value of a run of alternatives followed by conditions: one of
    the alternatives but the last, or the last and the conditions. *)
Lemma sql_value_ors (run : bool) (vs ws : list bool) :
  sql_value run (map (fun v => (sql_OR, v)) vs ++ map (fun v => (sql_AND, v)) ws)
  = match vs with
    | [] => (run && forallb (fun v => v) ws)%bool
    | _ => (run || existsb (fun v => v) (removelast vs)
            || (last vs false && forallb (fun v => v) ws))%bool
    end.
Proof.
  revert run. induction vs as [|v vs IH]; intros run.
  - cbn [map app]. apply sql_value_ands.
  - cbn [map app sql_value]. rewrite IH. destruct vs as [|v' vs].
    + cbn. now rewrite orb_false_r.
    + cbn [removelast last existsb]. now rewrite !orb_assoc.
Qed.

(** Include paths followed by conditions: one of the paths but the last
    matches, or one of the paths matches and the conditions hold. *)
Lemma sql_value_alternatives (v1 : bool) (vs ws : list bool) :
  vs <> [] ->
  sql_value true ((sql_AND, v1) :: map (fun v => (sql_OR, v)) vs
                                ++ map (fun v => (sql_AND, v)) ws)
  = (existsb (fun v => v) (removelast (v1 :: vs))
     || (existsb (fun v => v) (v1 :: vs) && forallb (fun v => v) ws))%bool.
Proof.
  intros Hvs. cbn [sql_value andb]. rewrite sql_value_ors.
  destruct vs as [|v vs]; [contradiction|].
  change (removelast (v1 :: v :: vs)) with (v1 :: removelast (v :: vs)).
  change (existsb (fun v0 => v0) (v1 :: v :: vs))
    with (v1 || existsb (fun v0 => v0) (v :: vs))%bool.
  rewrite (existsb_last (v :: vs)).
  change (existsb (fun v0 => v0) (v1 :: removelast (v :: vs)))
    with (v1 || existsb (fun v0 => v0) (removelast (v :: vs)))%bool.
  destruct v1, (existsb (fun v0 => v0) (removelast (v :: vs))),
    (last (v :: vs) false), (forallb (fun v0 => v0) ws); reflexivity.
Qed.

Lemma trails_refl (b : Builder) : trails b b.
Proof. exists []. split; [now rewrite app_nil_r|reflexivity]. Qed.

Lemma trails_trans (b1 b2 b3 : Builder) : trails b1 b2 -> trails b2 b3 -> trails b1 b3.
Proof.
  intros [ws1 [E1 H1]] [ws2 [E2 H2]]. exists (ws1 ++ ws2). split.
  - now rewrite E2, E1, app_assoc.
  - now rewrite existsb_app, H1, H2.
Qed.

Lemma trails_add_where (w : WhereExpr) (b : Builder) :
  is_include w = false -> trails b (add_where w b).
Proof. intros H. exists [w]. split; [reflexivity|]. cbn. now rewrite H. Qed.

Lemma trails_same (b b' : Builder) : whereExprs b' = whereExprs b -> trails b b'.
Proof. intros E. exists []. split; [now rewrite app_nil_r|reflexivity]. Qed.

Lemma setupTags_trails (tags : list string) (b : Builder) :
  trails b (fst (setupTags tags b)).
Proof.
  revert b. induction tags as [|g tags IH]; intros b; cbn [setupTags].
  - apply trails_refl.
  - destruct (fold_left tag_step (split_tags g) (false, [])) as [negate globs].
    destruct (Nat.eqb (List.length globs) 0); [apply IH|].
    destruct (negate && Nat.ltb 1 (List.length globs))%bool; [apply trails_refl|].
    eapply trails_trans; [|apply IH]. now apply trails_add_where.
Qed.

Lemma setupLinkFilter_trails (paths : list string) (direction : Z)
    (negate recursive : bool) (b : Builder) (s : State) :
  trails b (fst (fst (setupLinkFilter paths direction negate recursive b s))).
Proof.
  unfold setupLinkFilter, bind.
  destruct (findIdsByPathPrefixes paths s) as [[ids err] s1].
  destruct err; [apply trails_refl|].
  destruct ids as [|i ids]; [apply trails_refl|].
  cbn [ret fst]. unfold linkFilterClauses.
  destruct recursive, negate, (direction =? 0); cbn [negb];
    eexists; (split; [cbn; reflexivity|reflexivity]).
Qed.

Lemma setupLinkedBy_trails (opts : FinderOpts) (b : Builder) (s : State) :
  trails b (fst (fst (setupLinkedBy opts b s))).
Proof.
  unfold setupLinkedBy. destruct (LinkedBy opts) as [f|]; [|apply trails_refl].
  eapply trails_trans; [|apply setupLinkFilter_trails]. now apply trails_same.
Qed.

Lemma setupLinkTo_trails (opts : FinderOpts) (b : Builder) (s : State) :
  trails b (fst (fst (setupLinkTo opts b s))).
Proof.
  unfold setupLinkTo. destruct (LinkTo opts) as [f|]; [|apply trails_refl].
  eapply trails_trans; [|apply setupLinkFilter_trails]. now apply trails_same.
Qed.

Lemma setupRelated_trails (opts : FinderOpts) (b : Builder) (s : State) :
  trails b (fst (fst (setupRelated opts b s))).
Proof.
  unfold setupRelated. destruct (Related opts) as [paths|]; [|apply trails_refl].
  unfold bind.
  pose proof (setupLinkFilter_trails paths 0 false true (set_maxDistance 2 b) s) as G.
  destruct (setupLinkFilter paths 0 false true (set_maxDistance 2 b) s)
    as [[b1 err] s1].
  cbn [fst] in G.
  assert (G0 : trails b b1).
  { eapply trails_trans; [|exact G]. now apply trails_same. }
  destruct err; cbn [ret fst]; [exact G0|].
  eapply trails_trans; [exact G0|]. now apply trails_same.
Qed.

Lemma setupOrphanAndDates_trails (opts : FinderOpts) (b : Builder) :
  trails b (setupOrphanAndDates opts b).
Proof.
  unfold setupOrphanAndDates.
  destruct (Orphan opts), (CreatedStart opts), (CreatedEnd opts),
    (ModifiedStart opts), (ModifiedEnd opts);
    repeat (first [ apply trails_refl
                  | eapply trails_trans; [|now apply trails_add_where] ]).
Qed.

(** The elements of [whereExprs] when [buildFilters] succeeds: the match
    expression and the include paths, then elements that are no include
    paths. *)
Lemma buildFilters_shape (env : Env) (opts : FinderOpts) (s s1 : State)
    (b : Builder) :
  buildFilters env opts s = ((b, None), s1) ->
  exists post,
    whereExprs b = leading_exprs env opts ++ post
    /\ existsb is_include post = false.
Proof.
  intros Hb.
  assert (T : trails (setupPaths env opts (setupMatch env opts new_builder)) b).
  { revert Hb. unfold buildFilters, bind, get.
    set (b0 := setupPaths env opts _).
    assert (G0 : trails b0 (setupExcludeIds opts (heap s) b0)).
    { unfold setupExcludeIds.
      destruct (ExcludeIds opts); [apply trails_refl|now apply trails_add_where]. }
    set (bx := setupExcludeIds opts (heap s) b0) in *.
    assert (G1 : trails bx (fst (match Tags opts with
                                 | Some tags => setupTags tags bx
                                 | None => (bx, None)
                                 end))).
    { destruct (Tags opts); [apply setupTags_trails | apply trails_refl]. }
    destruct (match Tags opts with
              | Some tags => setupTags tags bx
              | None => (bx, None)
              end) as [b1 e1].
    cbn [fst] in G1. destruct e1; [discriminate|].
    pose proof (setupLinkedBy_trails opts b1 s) as G2.
    destruct (setupLinkedBy opts b1 s) as [[b2 e2] s2]. cbn [fst] in G2.
    destruct e2; [discriminate|].
    pose proof (setupLinkTo_trails opts b2 s2) as G3.
    destruct (setupLinkTo opts b2 s2) as [[b3 e3] s3]. cbn [fst] in G3.
    destruct e3; [discriminate|].
    pose proof (setupRelated_trails opts b3 s3) as G4.
    destruct (setupRelated opts b3 s3) as [[b4 e4] s4]. cbn [fst] in G4.
    destruct e4; [discriminate|].
    unfold ret. intros H. injection H as <- _.
    eapply trails_trans; [exact G0|]. eapply trails_trans; [exact G1|].
    eapply trails_trans; [exact G2|]. eapply trails_trans; [exact G3|].
    eapply trails_trans; [exact G4|]. apply setupOrphanAndDates_trails. }
  destruct T as [ws [E Hws]]. rewrite E.
  unfold setupPaths, setupMatch, leading_exprs.
  destruct (Match opts), (IncludePaths opts), (ExcludePaths opts);
    cbn [whereExprs add_where add_order add_join set_snippetCol new_builder app];
    eexists; (split; [rewrite <- ?app_assoc; cbn [app]; reflexivity|]);
    cbn [existsb is_include orb]; exact Hws.
Qed.

(** What a query that is not refused says of its WHERE clause. *)
Lemma query_runs_where (env : Env) (q : Query) :
  query_error env q = None ->
  existsb (where_rejected env) (whereExprs (built q)) = false
  /\ (existsb is_match (whereExprs (built q))
      && existsb has_or (whereExprs (built q)))%bool = false.
Proof.
  unfold query_error.
  destruct (existsb (where_rejected env) (whereExprs (built q))); [discriminate|].
  destruct (existsb is_match (whereExprs (built q))
            && existsb has_or (whereExprs (built q)))%bool; [discriminate|].
  auto.
Qed.

Lemma plain_spec (env : Env) (w : WhereExpr) :
  where_rejected env w = false -> has_or w = false -> plain w = true.
Proof.
  destruct w as [arg|args|args|ids|negate globs|negate src direction ids| | | | |];
    try reflexivity.
  destruct args as [|r [|r' args]]; cbn; congruence.
Qed.

Lemma all_plain (env : Env) (ws : list WhereExpr) :
  existsb (where_rejected env) ws = false -> existsb has_or ws = false ->
  forallb plain ws = true.
Proof.
  induction ws as [|w ws IH]; [reflexivity|]. cbn [existsb forallb].
  intros H1 H2. apply orb_false_iff in H1 as [H1 H1']. apply orb_false_iff in H2 as [H2 H2'].
  now rewrite (plain_spec env w H1 H2), IH.
Qed.

Lemma no_include_no_or (ws : list WhereExpr) :
  existsb is_include ws = false -> existsb has_or ws = false.
Proof.
  induction ws as [|w ws IH]; [reflexivity|]. cbn [existsb].
  intros H. apply orb_false_iff in H as [H H']. rewrite (IH H').
  destruct w; try reflexivity. discriminate.
Qed.

Lemma no_include_plain (env : Env) (q : Query) (d : DB) (n : notes.row)
    (ws : list WhereExpr) :
  existsb is_include ws = false ->
  flat_map (where_operands env q d n) ws
  = map (fun v => (sql_AND, v)) (map (where_holds env q d n) ws).
Proof.
  intros H. apply operands_plain.
  induction ws as [|w ws IH]; [reflexivity|]. cbn [existsb forallb] in *.
  apply orb_false_iff in H as [H H']. rewrite (IH H').
  destruct w; try reflexivity. discriminate.
Qed.

(** The value of the WHERE clause of a query of [findRows] that is not
    refused: on a note that does not escape through an include path, the
    conjunction of the elements of [whereExprs]; a note that escapes is
    selected by the WHERE clause whatever the other elements. *)
Lemma where_value_spec (env : Env) (opts : FinderOpts) (s s1 : State)
    (b : Builder) (d : DB) (n : notes.row) :
  buildFilters env opts s = ((b, None), s1) ->
  query_error env (buildQuery opts b) = None ->
  where_value env (buildQuery opts b) d n
  = (escapes env opts n
     || forallb (where_holds env (buildQuery opts b) d n) (whereExprs b))%bool.
Proof.
  intros Hb Hq.
  destruct (buildFilters_shape env opts s s1 b Hb) as [post [E Hpost]].
  destruct (query_runs_where env _ Hq) as [Hrej Hor]. cbn [built buildQuery] in Hrej, Hor.
  destruct (existsb has_or (whereExprs b)) eqn:Eor.
  - (* two include paths or more, and no match expression *)
    rewrite andb_true_r in Hor.
    assert (Hm : Match opts = None).
    { destruct (Match opts) eqn:Em; [|reflexivity].
      rewrite E in Hor. unfold leading_exprs in Hor. rewrite Em in Hor.
      cbn in Hor. discriminate. }
    rewrite E in Eor. unfold leading_exprs in E, Eor. rewrite Hm in E, Eor.
    cbn [app] in E, Eor. rewrite existsb_app, (no_include_no_or post Hpost) in Eor.
    rewrite orb_false_r in Eor.
    unfold escapes.
    destruct (IncludePaths opts) as [[|p1 [|p2 ps]]|]; try discriminate.
    cbn [app] in E. unfold where_value. cbn [built buildQuery]. rewrite E.
    cbn [flat_map]. rewrite (no_include_plain env _ d n post Hpost).
    rewrite include_operands, <- app_comm_cons.
    rewrite sql_value_alternatives by discriminate.
    set (g := fun p => regexp env (pathRegex env p) (notes.path n)).
    change (regexp env (pathRegex env p1) (notes.path n) :: map g (p2 :: ps))
      with (map g (p1 :: p2 :: ps)).
    rewrite removelast_map, !existsb_map_id, forallb_map_id.
    cbn [forallb where_holds]. rewrite existsb_map. fold g.
    destruct (existsb g (removelast (p1 :: p2 :: ps))), (existsb g (p1 :: p2 :: ps));
      reflexivity.
  - (* no OR: a conjunction *)
    assert (Hp : forallb plain (whereExprs b) = true)
      by (apply (all_plain env); assumption).
    rewrite (where_value_plain env (buildQuery opts b) d n Hp). cbn [built buildQuery].
    assert (Hesc : escapes env opts n = false).
    { unfold escapes. rewrite E in Eor. unfold leading_exprs in Eor.
      rewrite existsb_app in Eor. apply orb_false_iff in Eor as [Eor _].
      rewrite existsb_app in Eor. apply orb_false_iff in Eor as [_ Eor].
      destruct (IncludePaths opts) as [[|p1 [|p2 ps]]|]; try reflexivity.
      cbn in Eor. discriminate. }
    now rewrite Hesc.
Qed.

(** A note the query of [findRows] selects, and that does not escape
    through an include path, satisfies every element of [whereExprs]. *)
Lemma selected_holds (env : Env) (opts : FinderOpts) (s s1 : State)
    (b : Builder) (d : DB) (n : notes.row) (w : WhereExpr) :
  buildFilters env opts s = ((b, None), s1) ->
  query_error env (buildQuery opts b) = None ->
  In n (select_notes env (buildQuery opts b) d) ->
  escapes env opts n = false ->
  In w (whereExprs b) ->
  where_holds env (buildQuery opts b) d n w = true.
Proof.
  intros Hb Hq Hn Hesc Hw. unfold select_notes in Hn.
  apply filter_In in Hn as [_ H]. apply andb_true_iff in H as [H _].
  rewrite (where_value_spec env opts s s1 b d n Hb Hq), Hesc in H.
  cbn [orb] in H. rewrite forallb_forall in H. now apply H.
Qed.


Lemma same_filters_refl (o : FinderOpts) : same_filters o o.
Proof. unfold same_filters. repeat split. Qed.

(** Mention expansion touches the match expression and the excluded ids
    only. *)
Lemma expandMentions_same_filters (env : Env) (opts : FinderOpts) (s : State) :
  same_filters opts (fst (fst (expandMentionsIntoMatch env opts s))).
Proof.
  unfold expandMentionsIntoMatch.
  destruct (Mention opts) as [mention|]; [|apply same_filters_refl].
  unfold bind.
  destruct (findIdsByPathPrefixes mention s) as [[ids err] s1].
  destruct err; [apply same_filters_refl|].
  destruct ids as [|i ids]; [apply same_filters_refl|].
  destruct (match ExcludeIds opts with
            | nil_slice => slice_of (i :: ids)
            | slice arr off len cap =>
                append_all env (slice arr off len cap) (i :: ids)
            end s1) as [excluded s2].
  destruct (titlesQuery (i :: ids) s2) as [[rows err] s3].
  destruct err; [cbn; unfold same_filters; repeat split|].
  destruct (fold_left titles_of_row rows []);
    cbn; unfold same_filters; repeat split.
Qed.

(** [findRows] stops at a negated tag group with several patterns. *)
Lemma findRows_rejects_tags (env : Env) (opts : FinderOpts) (groups : list string)
    (g : string) (s : State) :
  Tags opts = Some groups ->
  In g groups ->
  group_negated g = true ->
  (2 <= List.length (patterns_of g))%nat ->
  exists g',
    In g' groups /\ group_negated g' = true
    /\ (2 <= List.length (patterns_of g'))%nat
    /\ findRows env opts s
       = ((no_rows,
           Some (ErrMessage ("cannot negate a tag in a OR group: " +s+ g'))), s).
Proof.
  intros Ht Hin Hneg Hlen.
  unfold findRows, buildFilters, bind, get. rewrite Ht.
  set (b0 := setupExcludeIds opts (heap s) _).
  destruct (setupTags_rejects groups g b0 Hin Hneg Hlen) as [g' [H1 [H2 [H3 H4]]]].
  exists g'. repeat (split; [assumption|]).
  destruct (setupTags groups b0) as [b1 e1]. cbn [snd] in H4. subst e1.
  reflexivity.
Qed.

(** C5. In a query whose tag groups include a group that carries a mark
    of negation (a piece that, trimmed, starts with [-] or [NOT]):
    when the group has two patterns or more, [findRows] fails, before it
    sends anything to the database, with the error "cannot negate a tag in
    a OR group" on such a group, and so [Find] fails and returns no row;
    when the group has a single pattern and the query succeeds, no
    selected note carries a tag whose name matches the pattern, unless
    the path of the note matches an include path that is not the last
    one.  On notes A tagged [foo], B tagged [bar] and C without tag, the
    group [-foo] selects B and C, and the group [foo OR -bar] fails.
    With the include paths [a] and [b] the group [-foo] does not exclude
    A: the WHERE clause reads
    [n.path REGEXP ? OR n.path REGEXP ? AND n.id NOT IN (...)], in which
    the condition on tags belongs to the second path alone. *)
Theorem C5_tag_negation (env : Env) (opts : FinderOpts) (groups : list string)
    (g : string) (s : State)
    (Htags : Tags opts = Some groups)
    (Hin : In g groups)
    (Hneg : group_negated g = true) :
  ((2 <= List.length (patterns_of g))%nat ->
   (exists g',
      In g' groups /\ group_negated g' = true
      /\ (2 <= List.length (patterns_of g'))%nat
      /\ findRows env opts s
         = ((no_rows,
             Some (ErrMessage ("cannot negate a tag in a OR group: " +s+ g'))), s))
   /\ exists e, fst (Find env opts s) = (no_rows, Some e))
  /\ (forall p rows s',
        patterns_of g = [p] ->
        findRows env opts s = ((rows, None), s') ->
        forall n,
          In n (selected rows) ->
          escapes env opts n = false ->
          has_tag env (db s') [p] (notes.id n) = false
          /\ forall t,
               In t (collections_tbl (db s')) ->
               collections.kind t = CollectionKindTag env ->
               glob env p (collections.name t) = true ->
               ~ In (notes.id n, collections.id t) (notes_collections_tbl (db s')))
  /\ found_paths (Find sample_env (only_Tags ["-foo"]) tagged_index)
     = (["b"; "c"], None)
  /\ found_paths (Find sample_env (only_Tags ["foo OR -bar"]) tagged_index)
     = ([], Some (ErrMessage "cannot negate a tag in a OR group: foo OR -bar"))
  /\ found_paths (Find path_env (tagged_under ["a"; "b"] ["-foo"]) tagged_index)
     = (["a"; "b"], None)
  /\ has_tag path_env (db tagged_index) ["foo"] (notes.id tagged_a) = true
  /\ notes.path tagged_a = "a".
Proof.
  split; [|split; [|repeat split; vm_compute; reflexivity]].
  - intros Hlen. split; [now apply (findRows_rejects_tags env opts groups g s)|].
    unfold Find, bind.
    pose proof (expandMentions_same_filters env opts s) as Hsame.
    destruct (expandMentionsIntoMatch env opts s) as [[opts' err] s1].
    cbn [fst] in Hsame. destruct err as [e|]; [now exists e|].
    destruct Hsame as [_ [_ [Ht' _]]].
    destruct (findRows_rejects_tags env opts' groups g s1)
      as [g' [_ [_ [_ E]]]]; auto; [congruence|].
    rewrite E. eexists. reflexivity.
  - intros p rows s' Hp Hfound n Hn Hesc.
    destruct (findRows_ok env opts s s' rows Hfound) as [b [s1 [Hb [Hq [Hdb ->]]]]].
    cbn [selected] in Hn.
    destruct (buildFilters_tags env opts groups s s1 b Htags Hb) as [b0 [Hok Hg]].
    assert (Hw : In (where_tags true [p]) (whereExprs b)).
    { eapply grows_where_in; [exact Hg|].
      rewrite <- Hneg, <- Hp. apply setupTags_adds; auto.
      rewrite Hp. discriminate. }
    pose proof (selected_holds env opts s s1 b _ n _ Hb Hq Hn Hesc Hw) as H.
    cbn [where_holds] in H. apply negb_true_iff in H. rewrite Hdb.
    split; [exact H|].
    intros t Ht Hk Hglob Hnc.
    assert (E : has_tag env (db s1) [p] (notes.id n) = true).
    { unfold has_tag. apply existsb_exists.
      exists (notes.id n, collections.id t). split; [exact Hnc|].
      cbn [fst snd]. rewrite Z.eqb_refl. cbn [andb].
      apply existsb_exists. exists t. split; [exact Ht|].
      rewrite Z.eqb_refl, Hk, String.eqb_refl. cbn [andb existsb].
      now rewrite Hglob. }
    congruence.
Qed.

(** Two groups on the tagged notes: [-foo] is negated with the single
    pattern [foo], and no note it selects is tagged [foo]; [foo OR -bar]
    is negated with two patterns, and the query fails. *)
Lemma C5_witness :
  group_negated "-foo" = true
  /\ patterns_of "-foo" = ["foo"]
  /\ (forall n,
        In n (selected (fst (fst (findRows sample_env (only_Tags ["-foo"])
                                    tagged_index)))) ->
        has_tag sample_env (db tagged_index) ["foo"] (notes.id n) = false)
  /\ group_negated "foo OR -bar" = true
  /\ patterns_of "foo OR -bar" = ["foo"; "bar"]
  /\ exists e,
       fst (Find sample_env (only_Tags ["foo OR -bar"]) tagged_index)
       = (no_rows, Some e).
Proof.
  split; [reflexivity|]. split; [reflexivity|]. split.
  - destruct (C5_tag_negation sample_env (only_Tags ["-foo"]) ["-foo"] "-foo"
                tagged_index eq_refl (or_introl eq_refl) eq_refl) as [_ [H _]].
    intros n Hn.
    assert (E : findRows sample_env (only_Tags ["-foo"]) tagged_index
                = ((fst (fst (findRows sample_env (only_Tags ["-foo"]) tagged_index)),
                    None), tagged_index)).
    { vm_compute. reflexivity. }
    exact (proj1 (H "foo" _ _ eq_refl E n Hn eq_refl)).
  - split; [reflexivity|]. split; [reflexivity|].
    destruct (C5_tag_negation sample_env (only_Tags ["foo OR -bar"])
                ["foo OR -bar"] "foo OR -bar" tagged_index eq_refl
                (or_introl eq_refl) eq_refl) as [H _].
    apply H. vm_compute. lia.
Defined.

(** ** The heap of excluded ids *)

Lemma window_before {A : Type} (pre post : list A) (off len : nat) :
  (off + len <= List.length pre)%nat ->
  firstn len (skipn off (pre ++ post)) = firstn len (skipn off pre).
Proof.
  intros H. rewrite skipn_app.
  replace (off - List.length pre)%nat with O by lia. cbn [skipn].
  rewrite firstn_app, length_skipn.
  replace (len - (List.length pre - off))%nat with O by lia.
  cbn [firstn]. now rewrite app_nil_r.
Qed.

Lemma window_upto {A : Type} (pre : list A) (y : A) (post : list A)
    (off len : nat) :
  (off + len = List.length pre)%nat ->
  firstn (S len) (skipn off (pre ++ y :: post)) = skipn off pre ++ [y].
Proof.
  intros H. rewrite skipn_app.
  replace (off - List.length pre)%nat with O by lia. cbn [skipn].
  rewrite firstn_app, length_skipn.
  replace (S len - (List.length pre - off))%nat with 1%nat by lia.
  rewrite firstn_all2 by (rewrite length_skipn; lia). reflexivity.
Qed.

(** A window that ends at cell [i] or before lies in the first [i]
    cells. *)
Lemma window_in_prefix (a : list NoteId) (i off len : nat) :
  (i <= List.length a)%nat -> (off + len <= i)%nat ->
  firstn len (skipn off a) = firstn len (skipn off (firstn i a)).
Proof.
  intros Hi H.
  transitivity (firstn len (skipn off (firstn i a ++ skipn i a))).
  - now rewrite firstn_skipn.
  - apply window_before. rewrite length_firstn. lia.
Qed.

(** Writing a cell leaves every window that ends before it as it was. *)
Lemma array_write_before (a : list NoteId) (i : nat) (x : NoteId) (off len : nat) :
  (i < List.length a)%nat -> (off + len <= i)%nat ->
  firstn len (skipn off (array_write i x a)) = firstn len (skipn off a).
Proof.
  intros Hi H. unfold array_write.
  rewrite window_before by (rewrite length_firstn; lia).
  symmetry. apply window_in_prefix; lia.
Qed.

(** Writing the cell after a window makes the window one cell longer. *)
Lemma array_write_next (a : list NoteId) (x : NoteId) (off len : nat) :
  (off + len < List.length a)%nat ->
  firstn (S len) (skipn off (array_write (off + len) x a))
  = firstn len (skipn off a) ++ [x].
Proof.
  intros Hi. unfold array_write.
  rewrite window_upto by (rewrite length_firstn; lia).
  rewrite (window_in_prefix a (off + len) off len) by lia.
  rewrite (firstn_all2 (n := len) (skipn off (firstn (off + len) a)));
    [reflexivity|].
  rewrite length_skipn, length_firstn. lia.
Qed.

Lemma array_write_length (a : list NoteId) (i : nat) (x : NoteId) :
  (i < List.length a)%nat -> List.length (array_write i x a) = List.length a.
Proof.
  intros H. unfold array_write.
  rewrite length_app, length_firstn. cbn [List.length]. rewrite length_skipn. lia.
Qed.

Lemma heap_update_length (arr : nat) (f : list NoteId -> list NoteId)
    (h : list (list NoteId)) :
  List.length (heap_update arr f h) = List.length h.
Proof.
  revert arr. induction h as [|a h IH]; intros arr; [reflexivity|].
  destruct arr; cbn; [reflexivity|now rewrite IH].
Qed.

Lemma heap_update_same (arr : nat) (f : list NoteId -> list NoteId)
    (h : list (list NoteId)) :
  (arr < List.length h)%nat ->
  nth arr (heap_update arr f h) [] = f (nth arr h []).
Proof.
  revert arr. induction h as [|a h IH]; intros arr H; [cbn in H; lia|].
  destruct arr; cbn; [reflexivity|]. apply IH. cbn in H. lia.
Qed.

Lemma heap_update_other (arr arr' : nat) (f : list NoteId -> list NoteId)
    (h : list (list NoteId)) :
  arr' <> arr -> nth arr' (heap_update arr f h) [] = nth arr' h [].
Proof.
  revert arr arr'. induction h as [|a h IH]; intros arr arr' H.
  - now destruct arr'.
  - destruct arr, arr'; cbn; try reflexivity; try congruence.
    apply IH. congruence.
Qed.

Lemma slice_read_length (h : list (list NoteId)) (arr off len cap : nat) :
  slice_wf h (slice arr off len cap) ->
  List.length (slice_read h (slice arr off len cap)) = len.
Proof.
  intros [_ [H1 H2]]. cbn. rewrite length_firstn, length_skipn. lia.
Qed.

(** [append] on a slice that is not nil: the new slice shows the cells of
    the old one and the new value, the database is left alone, and every
    slice that did not show the cell after the old window shows what it
    showed. *)
Lemma append_spec (env : Env) (arr off len cap : nat) (x : NoteId) (s : State) :
  slice_wf (heap s) (slice arr off len cap) ->
  slice_wf (heap (snd (append env (slice arr off len cap) x s)))
           (fst (append env (slice arr off len cap) x s))
  /\ fst (append env (slice arr off len cap) x s) <> nil_slice
  /\ slice_read (heap (snd (append env (slice arr off len cap) x s)))
                (fst (append env (slice arr off len cap) x s))
     = slice_read (heap s) (slice arr off len cap) ++ [x]
  /\ db (snd (append env (slice arr off len cap) x s)) = db s
  /\ faults (snd (append env (slice arr off len cap) x s)) = faults s
  /\ forall w,
       slice_wf (heap s) w ->
       hidden_from w (slice arr off len cap) ->
       slice_wf (heap (snd (append env (slice arr off len cap) x s))) w
       /\ hidden_from w (fst (append env (slice arr off len cap) x s))
       /\ slice_read (heap (snd (append env (slice arr off len cap) x s))) w
          = slice_read (heap s) w.
Proof.
  intros Hwf. pose proof Hwf as [Ha [Hl Hc]].
  unfold append. destruct (Nat.ltb len cap) eqn:E.
  - apply PeanoNat.Nat.ltb_lt in E. cbn [fst snd heap set_heap db faults].
    assert (Hi : (off + len < List.length (nth arr (heap s) []))%nat) by lia.
    split; [|split; [discriminate|split; [|split; [reflexivity|split; [reflexivity|]]]]].
    + cbn. rewrite heap_update_length, heap_update_same by exact Ha.
      rewrite array_write_length by exact Hi. lia.
    + cbn. rewrite heap_update_same by exact Ha. now apply array_write_next.
    + intros [|a o l c] Hw Hh; [cbn; auto|].
      destruct Hw as [Hwa [Hwl Hwc]]. cbn in Hh.
      destruct (PeanoNat.Nat.eq_dec a arr) as [->|Hne].
      * assert (Ho : (o + l <= off + len)%nat) by (destruct Hh; [congruence|lia]).
        cbn. rewrite heap_update_length, heap_update_same by exact Ha.
        rewrite array_write_length by exact Hi.
        rewrite array_write_before by lia.
        repeat split; auto; lia.
      * cbn. rewrite heap_update_length, heap_update_other by exact Hne.
        repeat split; auto.
  - apply PeanoNat.Nat.ltb_ge in E. cbn [fst snd heap set_heap db faults].
    pose proof (slice_read_length _ _ _ _ _ Hwf) as Hlen.
    set (newcap := Nat.max (S len) (growslice env cap)).
    assert (Hn : (S len <= newcap)%nat) by (unfold newcap; lia).
    set (r := slice_read (heap s) (slice arr off len cap)) in *.
    split; [|split; [discriminate|split; [|split; [reflexivity|split; [reflexivity|]]]]].
    + unfold slice_wf. rewrite length_app. cbn [List.length].
      rewrite nth_middle, length_app. cbn [List.length].
      rewrite Hlen, repeat_length. lia.
    + unfold slice_read. rewrite nth_middle. cbn [skipn].
      rewrite firstn_app, Hlen.
      replace (S len - len)%nat with 1%nat by lia.
      rewrite firstn_all2 by lia. reflexivity.
    + intros [|a o l c] Hw Hh; [cbn; auto|].
      destruct Hw as [Hwa [Hwl Hwc]].
      unfold slice_wf, hidden_from, slice_read.
      rewrite length_app, app_nth1 by exact Hwa.
      repeat split; auto; lia.
Qed.

Lemma append_all_spec (env : Env) (ids : list NoteId) :
  forall arr off len cap (s : State),
    slice_wf (heap s) (slice arr off len cap) ->
    slice_read (heap (snd (append_all env (slice arr off len cap) ids s)))
               (fst (append_all env (slice arr off len cap) ids s))
    = slice_read (heap s) (slice arr off len cap) ++ ids
    /\ db (snd (append_all env (slice arr off len cap) ids s)) = db s
    /\ faults (snd (append_all env (slice arr off len cap) ids s)) = faults s
    /\ forall w,
         slice_wf (heap s) w ->
         hidden_from w (slice arr off len cap) ->
         slice_read (heap (snd (append_all env (slice arr off len cap) ids s))) w
         = slice_read (heap s) w.
Proof.
  induction ids as [|id ids IH]; intros arr off len cap s Hwf.
  - cbn [append_all ret fst snd]. rewrite app_nil_r. auto.
  - cbn [append_all]. unfold bind.
    destruct (append_spec env arr off len cap id s Hwf)
      as [Hwf1 [Hnn [Hr [Hd [Hf Hw]]]]].
    destruct (append env (slice arr off len cap) id s) as [sl1 s1].
    cbn [fst snd] in *.
    destruct sl1 as [|arr1 off1 len1 cap1]; [contradiction|].
    destruct (IH arr1 off1 len1 cap1 s1 Hwf1) as [Hr2 [Hd2 [Hf2 Hw2]]].
    split; [|split; [congruence|split; [congruence|]]].
    + rewrite Hr2, Hr, <- app_assoc. reflexivity.
    + intros w Hww Hwh. destruct (Hw w Hww Hwh) as [Hww1 [Hwh1 Hwr1]].
      rewrite (Hw2 w Hww1 Hwh1). exact Hwr1.
Qed.

Lemma slice_of_spec (ids : list NoteId) (s : State) :
  slice_read (heap (snd (slice_of ids s))) (fst (slice_of ids s)) = ids
  /\ db (snd (slice_of ids s)) = db s
  /\ faults (snd (slice_of ids s)) = faults s
  /\ forall w, slice_wf (heap s) w ->
       slice_read (heap (snd (slice_of ids s))) w = slice_read (heap s) w.
Proof.
  unfold slice_of. cbn [fst snd heap set_heap db faults].
  split; [|split; [reflexivity|split; [reflexivity|]]].
  - cbn. rewrite nth_middle. cbn [skipn]. apply firstn_all.
  - intros [|a o l c] Hw; [reflexivity|]. destruct Hw as [Ha _].
    cbn. now rewrite app_nth1.
Qed.

(** ** C7: mention expansion *)

Lemma titles_of_row_spec (titles : list string) (title : string)
    (metadataJSON : JsonText) :
  titles_of_row titles (title, metadataJSON)
  = titles ++ map phrase (title :: aliases_of metadataJSON).
Proof.
  unfold titles_of_row, unmarshalMetadata, aliases_of, phrase.
  destruct metadataJSON as [m|]; [|reflexivity].
  destruct (map_get m "aliases") as [[a|l|o]|]; try reflexivity.
  - unfold appendTitle. cbn [map]. now rewrite <- app_assoc.
  - rewrite appendTitle_fold. unfold appendTitle. cbn [map].
    rewrite <- app_assoc. cbn [app]. now rewrite map_map.
Qed.

Lemma titles_of_rows_spec (ns : list notes.row) (titles : list string) :
  fold_left titles_of_row
    (map (fun n => (notes.title n, notes.metadata n)) ns) titles
  = titles ++ mention_phrases ns.
Proof.
  revert titles. induction ns as [|n ns IH]; intros titles.
  - cbn. now rewrite app_nil_r.
  - cbn [map fold_left]. rewrite titles_of_row_spec, IH.
    unfold mention_phrases. cbn [flat_map]. now rewrite <- app_assoc.
Qed.

Lemma titlesQuery_runs (ids : list NoteId) (s : State) :
  faults s = [] ->
  titlesQuery ids s
  = ((map (fun n => (notes.title n, notes.metadata n))
          (notes_with_ids (notes_tbl (db s)) ids), None), s).
Proof.
  intros H. unfold titlesQuery, bind. now rewrite (next_outcome_runs s H).
Qed.

(** A valid id a path resolves to is the id of a note. *)
Lemma resolve_valid (ns : list notes.row) (path : string) :
  IsValid (resolve ns path) = true ->
  exists n, In n ns /\ notes.id n = resolve ns path.
Proof.
  unfold resolve. destruct (find _ ns) as [n|] eqn:F; [|discriminate].
  intros _. apply find_some in F as [Hin _]. now exists n.
Qed.

Lemma resolved_notes_exist (ns : list notes.row) (paths : list string)
    (i : NoteId) (ids : list NoteId) :
  resolve_all ns paths = i :: ids ->
  notes_with_ids ns (i :: ids) <> [].
Proof.
  intros H.
  assert (Hi : In i (resolve_all ns paths)) by (rewrite H; now left).
  unfold resolve_all in Hi. apply filter_In in Hi as [Hi Hv].
  apply in_map_iff in Hi as [p [<- _]].
  destruct (resolve_valid ns p Hv) as [n [Hn E]].
  assert (Hin : In n (notes_with_ids ns (resolve ns p :: ids))).
  { unfold notes_with_ids. apply filter_In. split; [exact Hn|].
    cbn [existsb]. rewrite E, Z.eqb_refl. reflexivity. }
  intros E0. rewrite E0 in Hin. contradiction.
Qed.

Lemma mention_phrases_some (ns : list notes.row) :
  ns <> [] -> mention_phrases ns <> [].
Proof. destruct ns as [|n ns]; [contradiction|]. discriminate. Qed.

(** Mention expansion on a database that does not fail, for mentions that
    resolve to at least one note. *)
Lemma expandMentions_runs (env : Env) (opts : FinderOpts) (mention : list string)
    (s : State) (i : NoteId) (ids : list NoteId) :
  Mention opts = Some mention ->
  faults s = [] ->
  resolve_all (notes_tbl (db s)) mention = i :: ids ->
  slice_wf (heap s) (ExcludeIds opts) ->
  exists excluded s',
    expandMentionsIntoMatch env opts s
    = ((set_Match
          (Some (opt_String (Match opts) +s+ " ("
                 +s+ Str.Join (mention_phrases
                                 (notes_with_ids (notes_tbl (db s)) (i :: ids)))
                              " OR "
                 +s+ ")"))
          (set_ExcludeIds excluded opts), None), s')
    /\ slice_read (heap s') excluded
       = slice_read (heap s) (ExcludeIds opts) ++ i :: ids
    /\ slice_read (heap s') (ExcludeIds opts) = slice_read (heap s) (ExcludeIds opts)
    /\ db s' = db s
    /\ faults s' = [].
Proof.
  intros Hm Hruns Hres Hwf.
  pose proof (mention_phrases_some _ (resolved_notes_exist _ _ _ _ Hres)) as Hsome.
  unfold expandMentionsIntoMatch. rewrite Hm. unfold bind at 1.
  rewrite (findIdsByPathPrefixes_runs mention s Hruns), Hres.
  unfold bind at 1.
  assert (Hex : exists excluded s1,
            match ExcludeIds opts with
            | nil_slice => slice_of (i :: ids)
            | slice arr off len cap =>
                append_all env (slice arr off len cap) (i :: ids)
            end s = (excluded, s1)
            /\ slice_read (heap s1) excluded
               = slice_read (heap s) (ExcludeIds opts) ++ i :: ids
            /\ slice_read (heap s1) (ExcludeIds opts)
               = slice_read (heap s) (ExcludeIds opts)
            /\ db s1 = db s /\ faults s1 = []).
  { destruct (ExcludeIds opts) as [|arr off len cap].
    - destruct (slice_of_spec (i :: ids) s) as [Hr [Hd [Hf Hw]]].
      destruct (slice_of (i :: ids) s) as [excluded s1]. cbn [fst snd] in *.
      exists excluded, s1. repeat split; auto. congruence.
    - destruct (append_all_spec env (i :: ids) arr off len cap s Hwf)
        as [Hr [Hd [Hf Hw]]].
      destruct (append_all env (slice arr off len cap) (i :: ids) s)
        as [excluded s1]. cbn [fst snd] in *.
      exists excluded, s1. repeat split; auto; [|congruence].
      apply Hw; [exact Hwf|]. cbn. right. lia. }
  destruct Hex as [excluded [s1 [E [Hr [Ho [Hd Hf]]]]]].
  rewrite E. unfold bind.
  rewrite (titlesQuery_runs (i :: ids) s1 Hf), Hd, titles_of_rows_spec.
  cbn [app].
  exists excluded, s1.
  destruct (mention_phrases (notes_with_ids (notes_tbl (db s)) (i :: ids)))
    as [|t ts] eqn:Et; [contradiction|].
  repeat split; auto.
Qed.

(** ** C9: the phrases of the match expression lose their double quotes *)

Lemma string_length_append (a b : string) :
  String.length (a +s+ b) = (String.length a + String.length b)%nat.
Proof. induction a as [|c a IH]; cbn; [reflexivity|now rewrite IH]. Qed.

Lemma string_append_inj (a b c : string) : a +s+ c = b +s+ c -> a = b.
Proof.
  revert b. induction a as [|x a IH]; intros [|y b] H.
  - reflexivity.
  - apply (f_equal String.length) in H. cbn in H.
    rewrite string_length_append in H. lia.
  - apply (f_equal String.length) in H. cbn in H.
    rewrite string_length_append in H. lia.
  - cbn in H. injection H as -> H. f_equal. now apply IH.
Qed.

(** C9. For mentions that resolve to at least one note, on a database
    that does not fail, [expandMentionsIntoMatch] returns options whose
    match expression is the former text followed by [ (], the phrases
    joined by [ OR ] and [)], where the phrases are, for every mentioned
    note in table order, its title and then its aliases, each with every
    double quote removed and then wrapped in a pair of double quotes.
    So every title and every alias of a mentioned note gives a phrase of
    the expression; the text between the quotes of that phrase holds no
    double quote; it is the title or alias itself when that holds none;
    and when the title or alias holds a double quote, the phrase is not
    the title or alias between quotes: the expression searches for
    another text. *)
Theorem C9_mention_titles_lose_quotes (env : Env) (opts : FinderOpts)
    (mention : list string) (s : State) (i : NoteId) (ids : list NoteId)
    (Hmention : Mention opts = Some mention)
    (Hruns : faults s = [])
    (Hres : resolve_all (notes_tbl (db s)) mention = i :: ids)
    (Hwf : slice_wf (heap s) (ExcludeIds opts)) :
  exists opts' s' phrases,
    expandMentionsIntoMatch env opts s = ((opts', None), s')
    /\ Match opts'
       = Some (opt_String (Match opts) +s+ " (" +s+ Str.Join phrases " OR " +s+ ")")
    /\ phrases
       = flat_map
           (fun n =>
              map (fun t => Str.dquote +s+ Str.ReplaceAll t Str.dquote "" +s+ Str.dquote)
                  (notes.title n :: aliases_of (notes.metadata n)))
           (notes_with_ids (notes_tbl (db s)) (i :: ids))
    /\ forall n t,
         In n (notes_with_ids (notes_tbl (db s)) (i :: ids)) ->
         names n t ->
         In (Str.dquote +s+ Str.ReplaceAll t Str.dquote "" +s+ Str.dquote) phrases
         /\ Str.contains_char (ascii_of_nat 34) (Str.ReplaceAll t Str.dquote "")
            = false
         /\ (Str.contains_char (ascii_of_nat 34) t = false ->
             Str.ReplaceAll t Str.dquote "" = t)
         /\ (Str.contains_char (ascii_of_nat 34) t = true ->
             Str.ReplaceAll t Str.dquote "" <> t
             /\ Str.dquote +s+ Str.ReplaceAll t Str.dquote "" +s+ Str.dquote
                <> Str.dquote +s+ t +s+ Str.dquote).
Proof.
  destruct (expandMentions_runs env opts mention s i ids Hmention Hruns Hres Hwf)
    as [excluded [s1 [Hexp _]]].
  eexists. exists s1. eexists. split; [exact Hexp|].
  split; [reflexivity|]. split; [reflexivity|].
  intros n t Hn Ht.
  assert (Hne : Str.contains_char (ascii_of_nat 34) t = true ->
                Str.ReplaceAll t Str.dquote "" <> t).
  { intros Hq Heq. pose proof (strip_quotes_clean t) as Hc.
    rewrite Heq in Hc. congruence. }
  split; [|split; [apply strip_quotes_clean|split; [apply strip_quotes_id|]]].
  - unfold mention_phrases. apply in_flat_map. exists n. split; [exact Hn|].
    apply (in_map phrase). destruct Ht as [->|Ht]; [now left|now right].
  - intros Hq. split; [now apply Hne|].
    intros Heq. apply (Hne Hq). cbn [String.append Str.dquote] in Heq.
    injection Heq as Heq. now apply string_append_inj in Heq.
Qed.

(** The mention of the note whose title holds a double quote before
    [hi]: the expression searches for the phrase [say hi]. *)
Lemma C9_witness :
  Str.contains_char (ascii_of_nat 34) quoted_title = true
  /\ Match (fst (fst (expandMentionsIntoMatch sample_env (only_Mention ["q"])
                        quoted_index)))
     = Some (" (" +s+ Str.dquote +s+ "say hi" +s+ Str.dquote +s+ ")")
  /\ Str.dquote +s+ Str.ReplaceAll quoted_title Str.dquote "" +s+ Str.dquote
     <> Str.dquote +s+ quoted_title +s+ Str.dquote.
Proof.
  split; [reflexivity|]. split; [vm_compute; reflexivity|].
  assert (Hres : resolve_all (notes_tbl (db quoted_index)) ["q"] = [1]).
  { vm_compute. reflexivity. }
  destruct (C9_mention_titles_lose_quotes sample_env (only_Mention ["q"]) ["q"]
              quoted_index 1 [] eq_refl eq_refl Hres I)
    as [opts' [s' [phrases [_ [_ [_ H]]]]]].
  destruct (H (stored_note 1 (Some []) (note_at "q" quoted_title 0 [] []))
              quoted_title) as [_ [_ [_ Hq]]].
  - vm_compute. left. reflexivity.
  - left. reflexivity.
  - exact (proj2 (Hq eq_refl)).
Defined.



(** ** C8: filters that resolve to nothing *)

Lemma filter_all {A : Type} (l : list A) : filter (fun _ => true) l = l.
Proof. induction l as [|a l IH]; cbn; [reflexivity|now rewrite IH]. Qed.

(** Mentions that resolve to no note make [Find] fail, without a row. *)
Lemma mention_not_found (env : Env) (opts : FinderOpts) (mention : list string)
    (s : State) :
  Mention opts = Some mention ->
  faults s = [] ->
  resolve_all (notes_tbl (db s)) mention = [] ->
  Find env opts s
  = ((no_rows,
      Some (ErrMessage ("could not find notes at: " +s+ Str.Join mention ","))), s).
Proof.
  intros Hm Hruns Hres. unfold Find, expandMentionsIntoMatch. rewrite Hm.
  unfold bind. rewrite (findIdsByPathPrefixes_runs mention s Hruns), Hres.
  reflexivity.
Qed.

(** The rows of a query without filter: every note. *)
Lemma unfiltered_rows (env : Env) (opts : FinderOpts) (maxDistance : Z) (d : DB) :
  select_notes env (buildQuery opts (set_maxDistance maxDistance new_builder)) d
  = notes_tbl d.
Proof. unfold select_notes. cbn. apply filter_all. Qed.

(** C8. Mentions none of which resolves to a note make [Find] fail with
    "could not find notes at: ..." and return no row.  A [LinkedBy] or
    [LinkTo] filter whose paths resolve to no note leaves the query as it
    is without the filter: it succeeds and selects every note.  A Related
    filter whose paths resolve to no note does not: [setupLinkFilter]
    returns before it joins any relation as [l], and [findRows] still
    appends the clause [HAVING MIN(l.distance) = 2], so that the database
    rejects the query and [Find] fails. *)
Theorem C8_unresolved_filters (env : Env) (s : State) (paths : list string)
    (Hruns : faults s = [])
    (Hres : resolve_all (notes_tbl (db s)) paths = []) :
  (forall opts,
     Mention opts = Some paths ->
     Find env opts s
     = ((no_rows,
         Some (ErrMessage ("could not find notes at: " +s+ Str.Join paths ","))), s))
  /\ (forall f,
        LinkFilter.Paths f = paths ->
        fst (Find env (only_LinkedBy f) s)
        = ({| selected := notes_tbl (db s); order_by := ["n.title ASC"];
              limit_to := 0 |}, None)
        /\ fst (Find env (only_LinkTo f) s)
           = ({| selected := notes_tbl (db s); order_by := ["n.title ASC"];
                 limit_to := 0 |}, None))
  /\ fst (Find env no_filter s)
     = ({| selected := notes_tbl (db s); order_by := ["n.title ASC"];
           limit_to := 0 |}, None)
  /\ fst (Find env (only_Related paths) s)
     = (no_rows, Some (ErrDatabase "no such column: l.distance"))
  /\ (exists b,
        fst (fst (buildFilters env (only_Related paths) s)) = b
        /\ joinClauses b = []
        /\ groupBy b = " HAVING MIN(l.distance) = 2"
        /\ query_sql env (buildQuery (only_Related paths) b)
           = "SELECT n.id, n.path, n.title, n.lead, n.body, n.raw_content, n.word_count, n.created, n.modified, n.metadata, n.checksum, n.tags, n.lead AS snippet"
             +s+ nl +s+ "FROM notes_with_metadata n" +s+ nl
             +s+ " HAVING MIN(l.distance) = 2" +s+ nl
             +s+ "ORDER BY n.title ASC" +s+ nl).
Proof.
  split; [intros opts Hm; now apply mention_not_found|].
  split.
  { intros f <-. split.
    - rewrite Find_no_mention by reflexivity. unfold findRows, bind.
      rewrite (buildFilters_only_LinkedBy env f s Hruns), Hres.
      rewrite tx_Query_runs by exact Hruns.
      change (query_error env _) with (@None Error). cbn [fst].
      now rewrite unfiltered_rows.
    - rewrite Find_no_mention by reflexivity. unfold findRows, bind.
      rewrite (buildFilters_only_LinkTo env f s Hruns), Hres.
      rewrite tx_Query_runs by exact Hruns.
      change (query_error env _) with (@None Error). cbn [fst].
      now rewrite unfiltered_rows. }
  split.
  { rewrite Find_no_mention by reflexivity. unfold findRows, bind.
    unfold buildFilters, bind, get. cbn -[tx_Query].
    rewrite tx_Query_runs by exact Hruns.
    change (query_error env _) with (@None Error). cbn [fst].
    now rewrite (unfiltered_rows env no_filter 0). }
  split.
  { rewrite Find_no_mention by reflexivity. unfold findRows, bind.
    rewrite (buildFilters_only_Related env paths s Hruns), Hres.
    rewrite tx_Query_runs by exact Hruns. reflexivity. }
  rewrite (buildFilters_only_Related env paths s Hruns), Hres.
  eexists. split; [reflexivity|]. repeat split.
Qed.

(** No note of the index is at a path that starts with [zk]: the Related
    filter on it makes [Find] fail, while the [LinkedBy] filter on it
    selects the three notes. *)
Lemma C8_witness :
  faults two_hop_index = []
  /\ resolve_all (notes_tbl (db two_hop_index)) ["zk"] = []
  /\ fst (Find sample_env (only_Related ["zk"]) two_hop_index)
     = (no_rows, Some (ErrDatabase "no such column: l.distance"))
  /\ found_paths (Find sample_env (only_LinkedBy (direct_filter "zk" 0)) two_hop_index)
     = (["a"; "b"; "c"], None).
Proof.
  assert (Hres : resolve_all (notes_tbl (db two_hop_index)) ["zk"] = []).
  { vm_compute. reflexivity. }
  split; [reflexivity|]. split; [exact Hres|].
  destruct (C8_unresolved_filters sample_env two_hop_index ["zk"] eq_refl Hres)
    as [_ [Hlinks [_ [Hrelated _]]]].
  split; [exact Hrelated|].
  destruct (Hlinks (direct_filter "zk" 0) eq_refl) as [H _].
  unfold found_paths. rewrite H. vm_compute. reflexivity.
Defined.

(** * Further properties of the index *)

(** ** What the writes do to table [notes] *)

Lemma same_notes_refl (d : DB) : same_notes d d.
Proof. now split. Qed.

Lemma same_notes_trans (d1 d2 d3 : DB) :
  same_notes d1 d2 -> same_notes d2 d3 -> same_notes d1 d3.
Proof. intros [A B] [C D]. split; congruence. Qed.

Lemma exec_links_same_notes (f : list links.row -> list links.row) (s : State) :
  same_notes (db s) (db (snd (exec (fun d => set_links (f (links_tbl d)) d) s))).
Proof.
  match goal with
  | |- context [exec ?g s] => destruct (exec_cases g s) as [[_ H]|[_ H]]
  end; rewrite H; now split.
Qed.

Lemma addLinks_each_same_notes (id : NoteId) (ls : list Link.t) (s : State) :
  same_notes (db s) (db (snd (addLinks_each id ls s))).
Proof.
  revert s. induction ls as [|link ls IH]; intros s; [apply same_notes_refl|].
  cbn [addLinks_each]. unfold bind.
  pose proof (findIdByPathPrefix_db (Link.Href link) s) as H1.
  destruct (findIdByPathPrefix (Link.Href link) s) as [[t e] s1]. cbn [snd] in H1.
  destruct e; [cbn; rewrite H1; apply same_notes_refl|].
  unfold addLinkStmt.
  match goal with
  | |- context [exec ?g s1] =>
      pose proof (exec_links_same_notes
                    (fun lk => lk ++ [ {| links.source_id := id;
                         links.target_id := sql_of_null (idToSql t);
                         links.title := Link.Title link; links.href := Link.Href link;
                         links.external := Link.External link;
                         links.rels := joinLinkRels (Link.Rels link);
                         links.snippet := Link.Snippet link;
                         links.snippet_start := Link.SnippetStart link;
                         links.snippet_end := Link.SnippetEnd link |} ]) s1) as H2;
      destruct (exec g s1) as [e2 s2]
  end.
  cbn [snd] in H2. rewrite H1 in H2.
  destruct e2; [exact H2|].
  eapply same_notes_trans; [exact H2|apply IH].
Qed.

Lemma addLinks_same_notes (id : NoteId) (note : Metadata.t) (s : State) :
  same_notes (db s) (db (snd (addLinks id note s))).
Proof.
  unfold addLinks, bind.
  pose proof (addLinks_each_same_notes id (Metadata.Links note) s) as H1.
  destruct (addLinks_each id (Metadata.Links note) s) as [e s1]. cbn [snd] in H1.
  destruct e; [exact H1|].
  eapply same_notes_trans; [exact H1|].
  unfold setLinksTargetStmt.
  apply (exec_links_same_notes
           (map (fun l => if misses_target (Metadata.Path note) l
                          then links.set_target (Some id) l else l)) s1).
Qed.

(** Whatever the database does, [Add] leaves table [notes] as it is, or
    appends one row at a path no note was at, under the next id of the
    sequence. *)
Lemma Add_notes (env : Env) (note : Metadata.t) (s : State) :
  same_notes (db s) (db (snd (Add env note s)))
  \/ (existsb (fun n => String.eqb (notes.path n) (Metadata.Path note))
              (notes_tbl (db s)) = false
      /\ exists json,
           notes_tbl (db (snd (Add env note s)))
           = notes_tbl (db s)
             ++ [stored_note (notes_seq (db s) + 1) json note]
           /\ notes_seq (db (snd (Add env note s))) = notes_seq (db s) + 1).
Proof.
  remember (Add env note s) as r eqn:E.
  unfold Add, metadataToJson in E.
  destruct (json_Marshal env (Metadata.Metadata note)) as [json [e|]];
    [subst r; left; apply same_notes_refl|].
  unfold bind at 1 in E. unfold addStmt, bind at 1 in E.
  pose proof (next_outcome_db s) as Hd.
  destruct (next_outcome s) as [o s1]. cbn [snd] in Hd.
  destruct (outcome_error o);
    [subst r; left; cbn; rewrite Hd; apply same_notes_refl|].
  unfold bind at 1, get in E.
  destruct (existsb (fun n => String.eqb (notes.path n) (Metadata.Path note))
                    (notes_tbl (db s1))) eqn:Ex;
    [subst r; left; cbn; rewrite Hd; apply same_notes_refl|].
  unfold bind at 1, modify, ret in E. cbn [LastInsertId inserted_id] in E.
  unfold bind in E.
  match type of E with
  | context [addLinks ?i note ?st] =>
      pose proof (addLinks_same_notes i note st) as [Hn Hs];
      destruct (addLinks i note st) as [err s2]
  end.
  subst r. cbn [snd] in *. cbn in Hn, Hs. rewrite Hd in *.
  right. split; [exact Ex|]. exists json. split; [exact Hn|exact Hs].
Qed.

(** Whatever the database does, [Update] leaves table [notes] as it is, or
    rewrites the rows at the path of the record, keeping ids and paths. *)
Lemma Update_notes (env : Env) (note : Metadata.t) (s : State) :
  same_notes (db s) (db (snd (Update env note s)))
  \/ exists json,
       notes_tbl (db (snd (Update env note s)))
       = map (updated_row json note) (notes_tbl (db s))
       /\ notes_seq (db (snd (Update env note s))) = notes_seq (db s).
Proof.
  remember (Update env note s) as r eqn:E.
  unfold Update in E. unfold bind at 1 in E.
  unfold findIdByPath, findIdByPathStmt in E. unfold bind at 1 in E.
  pose proof (query_row_db
                (fun d => option_map notes.id
                   (find (fun n => String.eqb (notes.path n) (Metadata.Path note))
                         (notes_tbl d))) s) as H0.
  destruct (query_row _ s) as [[row e0] s0]. cbn [snd] in H0. rewrite <- H0.
  destruct e0 as [e0|]; unfold ret at 1 in E;
    [subst r; left; apply same_notes_refl|].
  destruct (idForRow row) as [id err].
  destruct err; [subst r; left; apply same_notes_refl|].
  destruct (negb (IsValid id)); [subst r; left; apply same_notes_refl|].
  unfold metadataToJson in E.
  destruct (json_Marshal env (Metadata.Metadata note)) as [json [e|]];
    [subst r; left; apply same_notes_refl|].
  unfold bind at 1 in E. unfold updateStmt in E.
  match type of E with
  | context [exec ?g s0] =>
      destruct (exec_cases g s0) as [[He Hd]|[He Hd]];
      destruct (exec g s0) as [e1 s1]
  end; cbn [fst snd] in He, Hd.
  - destruct e1; [|contradiction]. subst r. left. cbn. rewrite Hd.
    apply same_notes_refl.
  - subst e1. unfold bind at 1 in E. unfold removeLinksStmt in E.
    match type of E with
    | context [exec ?g s1] =>
        pose proof (exec_links_same_notes
                      (filter (fun l => match sql_of_null (idToSql id) with
                                        | Some i => negb (links.source_id l =? i)
                                        | None => true
                                        end)) s1) as H2;
        destruct (exec g s1) as [e2 s2]
    end.
    cbn [snd] in H2.
    assert (H3 : exists json0,
              notes_tbl (db s2) = map (updated_row json0 note) (notes_tbl (db s0))
              /\ notes_seq (db s2) = notes_seq (db s0)).
    { exists json. destruct H2 as [A B]. rewrite A, B, Hd. cbn. split; reflexivity. }
    destruct e2; [subst r; right; exact H3|].
    unfold bind in E.
    pose proof (addLinks_same_notes id note s2) as [A B].
    destruct (addLinks id note s2) as [e3 s3]. subst r. cbn [snd] in *.
    right. destruct H3 as [json0 [C D]]. exists json0. cbn. split; congruence.
Qed.

(** Whatever the database does, [Remove] leaves table [notes] as it is, or
    deletes the rows of one id. *)
Lemma Remove_notes (on_delete : Z -> DB -> DB) (path : string) (s : State) :
  keeps_notes on_delete ->
  same_notes (db s) (db (snd (Remove on_delete path s)))
  \/ exists id,
       notes_tbl (db (snd (Remove on_delete path s)))
       = filter (fun n => negb (notes.id n =? id)) (notes_tbl (db s))
       /\ notes_seq (db (snd (Remove on_delete path s))) = notes_seq (db s).
Proof.
  intros Hk. remember (Remove on_delete path s) as r eqn:E.
  unfold Remove in E. unfold bind at 1 in E.
  pose proof (query_row_db
                (fun d => option_map notes.id
                   (find (fun n => String.eqb (notes.path n) path) (notes_tbl d))) s)
    as H0.
  unfold findIdByPath, findIdByPathStmt in E. unfold bind at 1 in E.
  destruct (query_row _ s) as [[row e0] s0]. cbn [snd] in H0. rewrite <- H0.
  destruct e0 as [e0|]; unfold ret at 1 in E;
    [subst r; left; apply same_notes_refl|].
  destruct (idForRow row) as [id err].
  destruct err; [subst r; left; apply same_notes_refl|].
  destruct (negb (IsValid id)); [subst r; left; apply same_notes_refl|].
  unfold removeStmt in E.
  match type of E with
  | context [exec ?g s0] =>
      destruct (exec_cases g s0) as [[_ Hd]|[_ Hd]]
  end; subst r; rewrite Hd.
  - left. apply same_notes_refl.
  - right. exists id. destruct (Hk id (set_notes
        (filter (fun n => negb (notes.id n =? id)) (notes_tbl (db s0))) (db s0)))
      as [A B].
    rewrite A, B. split; reflexivity.
Qed.

(** ** The invariant of the index *)

Lemma index_ok_same_notes (d d' : DB) :
  same_notes d d' -> index_ok d -> index_ok d'.
Proof. intros [A B]. unfold index_ok. now rewrite A, B. Qed.

Lemma existsb_path_false (ns : list notes.row) (path : string) :
  existsb (fun n => String.eqb (notes.path n) path) ns = false ->
  ~ In path (map notes.path ns).
Proof.
  intros H Hin. apply in_map_iff in Hin as [n [E Hn]].
  assert (T : existsb (fun n => String.eqb (notes.path n) path) ns = true).
  { apply existsb_exists. exists n. split; [exact Hn|]. now apply String.eqb_eq. }
  congruence.
Qed.

Lemma updated_row_id (json : JsonText) (note : Metadata.t) (n : notes.row) :
  notes.id (updated_row json note n) = notes.id n.
Proof. unfold updated_row. now destruct (String.eqb _ _). Qed.

Lemma updated_row_path (json : JsonText) (note : Metadata.t) (n : notes.row) :
  notes.path (updated_row json note n) = notes.path n.
Proof. unfold updated_row. now destruct (String.eqb _ _). Qed.

Lemma NoDup_map_filter {A B : Type} (g : A -> B) (f : A -> bool) (l : list A) :
  NoDup (map g l) -> NoDup (map g (filter f l)).
Proof.
  induction l as [|a l IH]; intros H; [constructor|].
  cbn [map] in H. inversion H as [|x xs Hnot Hnd]; subst.
  cbn [filter]. destruct (f a); [|now apply IH].
  cbn [map]. constructor; [|now apply IH].
  intros Hin. apply Hnot. apply in_map_iff in Hin as [y [E Hy]].
  apply filter_In in Hy as [Hy _]. apply in_map_iff. now exists y.
Qed.

Lemma Add_keeps_ok (env : Env) (note : Metadata.t) (s : State) :
  index_ok (db s) -> index_ok (db (snd (Add env note s))).
Proof.
  intros Hok.
  destruct (Add_notes env note s) as [H|[Hfresh [json [Hn Hs]]]];
    [now apply (index_ok_same_notes (db s))|].
  destruct Hok as [Hp [Hi [Hseq Hb]]]. unfold index_ok. rewrite Hn, Hs.
  rewrite !map_app. cbn [map stored_note notes.path notes.id].
  split; [|split; [|split]].
  - apply NoDup_app; [exact Hp|repeat constructor; intros []|].
    intros x Hx [<-|[]]. exact (existsb_path_false _ _ Hfresh Hx).
  - apply NoDup_app; [exact Hi|repeat constructor; intros []|].
    intros x Hx [<-|[]]. apply in_map_iff in Hx as [n [E Hin]].
    specialize (Hb n Hin). lia.
  - lia.
  - intros n Hin. apply in_app_or in Hin as [Hin|[<-|[]]].
    + specialize (Hb n Hin). lia.
    + cbn. lia.
Qed.

Lemma Update_keeps_ok (env : Env) (note : Metadata.t) (s : State) :
  index_ok (db s) -> index_ok (db (snd (Update env note s))).
Proof.
  intros Hok.
  destruct (Update_notes env note s) as [H|[json [Hn Hs]]];
    [now apply (index_ok_same_notes (db s))|].
  destruct Hok as [Hp [Hi [Hseq Hb]]]. unfold index_ok. rewrite Hn, Hs.
  rewrite !map_map.
  rewrite (map_ext _ notes.path (updated_row_path json note)).
  rewrite (map_ext _ notes.id (updated_row_id json note)).
  repeat (split; [assumption|]).
  intros n Hin. apply in_map_iff in Hin as [n0 [<- Hin]].
  rewrite updated_row_id. now apply Hb.
Qed.

Lemma Remove_keeps_ok (on_delete : Z -> DB -> DB) (path : string) (s : State) :
  keeps_notes on_delete ->
  index_ok (db s) -> index_ok (db (snd (Remove on_delete path s))).
Proof.
  intros Hschema Hok.
  destruct (Remove_notes on_delete path s Hschema) as [H|[id [Hn Hs]]];
    [now apply (index_ok_same_notes (db s))|].
  destruct Hok as [Hp [Hi [Hseq Hb]]]. unfold index_ok. rewrite Hn, Hs.
  split; [now apply NoDup_map_filter|]. split; [now apply NoDup_map_filter|].
  split; [exact Hseq|].
  intros n Hin. apply filter_In in Hin as [Hin _]. now apply Hb.
Qed.

Lemma cascade_keeps_notes : keeps_notes cascade.
Proof. intros id d. split; reflexivity. Qed.

Lemma empty_index_ok : index_ok (db empty_index).
Proof.
  unfold index_ok. cbn. repeat split; try constructor; try lia; intros n [].
Qed.

(** Every index built by adding notes to the empty index is well
    formed. *)
Lemma index_of_ok (ns : list Metadata.t) : index_ok (db (index_of ns)).
Proof.
  unfold index_of.
  assert (G : forall s, index_ok (db s) ->
                index_ok (db (fold_left (fun s n => snd (Add sample_env n s)) ns s))).
  { induction ns as [|n ns IH]; intros s Hs; [exact Hs|].
    cbn [fold_left]. apply IH. now apply Add_keeps_ok. }
  apply G. apply empty_index_ok.
Qed.

(** X1. The index keeps its invariant under every write, whatever the
    database does in the course of it (a statement that fails leaves the
    write half done): after [Add], [Update] or [Remove], no two notes
    share a path or an id, and the ids are positive and not above the
    sequence, provided that was so before and that the schema leaves the
    notes alone when it propagates a deletion. *)
Theorem X1_index_invariant (env : Env) (on_delete : Z -> DB -> DB)
    (note : Metadata.t) (path : string) (s : State)
    (Hschema : keeps_notes on_delete)
    (Hok : index_ok (db s)) :
  index_ok (db (snd (Add env note s)))
  /\ index_ok (db (snd (Update env note s)))
  /\ index_ok (db (snd (Remove on_delete path s))).
Proof.
  split; [now apply Add_keeps_ok|].
  split; [now apply Update_keeps_ok|now apply Remove_keeps_ok].
Qed.

(** On the index of two notes, with a database that fails at the second
    statement of the write. *)
Lemma X1_witness :
  keeps_notes cascade
  /\ index_ok (db forward_index)
  /\ index_ok (db (snd (Add sample_env (note_at "c" "C" 0 ["a"] [])
                          (set_faults [Runs; ExecFails "disk I/O error"]
                             forward_index)))).
Proof.
  split; [exact cascade_keeps_notes|]. split; [apply index_of_ok|].
  apply (X1_index_invariant sample_env cascade (note_at "c" "C" 0 ["a"] []) "a"
           (set_faults [Runs; ExecFails "disk I/O error"] forward_index)
           cascade_keeps_notes).
  apply (index_of_ok [note_at "a" "A" 0 ["b/note"] []; note_at "b/note" "B" 0 [] []]).
Defined.

(** ** Adding, looking up and removing *)

Lemma find_app_last {A : Type} (f : A -> bool) (l : list A) (y : A) :
  (forall x, In x l -> f x = false) ->
  find f (l ++ [y]) = if f y then Some y else None.
Proof.
  induction l as [|a l IH]; intros H; [reflexivity|].
  cbn. rewrite (H a (or_introl eq_refl)). apply IH.
  intros x Hx. apply H. now right.
Qed.

Lemma existsb_false_all {A : Type} (f : A -> bool) (l : list A) :
  existsb f l = false -> forall x, In x l -> f x = false.
Proof.
  intros H x Hx. destruct (f x) eqn:E; [|reflexivity].
  assert (T : existsb f l = true) by (apply existsb_exists; now exists x).
  congruence.
Qed.

Lemma filter_kept {A : Type} (f : A -> bool) (l : list A) :
  (forall x, In x l -> f x = true) -> filter f l = l.
Proof.
  induction l as [|a l IH]; intros H; [reflexivity|].
  cbn. rewrite (H a (or_introl eq_refl)). f_equal. apply IH.
  intros x Hx. apply H. now right.
Qed.

(** What a successful [Add] found and left in table [notes]. *)
Lemma Add_ok_notes (env : Env) (note : Metadata.t) (s s' : State) (id : NoteId) :
  Add env note s = ((id, None), s') ->
  id = notes_seq (db s) + 1
  /\ existsb (fun n => String.eqb (notes.path n) (Metadata.Path note))
             (notes_tbl (db s)) = false
  /\ exists json,
       notes_tbl (db s') = notes_tbl (db s) ++ [stored_note id json note].
Proof.
  intros Hadd.
  destruct (Add_ok env note s s' id Hadd) as [Hid [[json Hn] _]].
  split; [exact Hid|]. split; [|now exists json].
  destruct (Add_notes env note s) as [[A _]|[Hfresh _]]; [|exact Hfresh].
  rewrite Hadd in A. cbn [snd] in A. rewrite Hn in A.
  apply (f_equal (@List.length notes.row)) in A. rewrite length_app in A.
  cbn in A. lia.
Qed.

Lemma Remove_runs (on_delete : Z -> DB -> DB) (path : string) (s : State) :
  faults s = [] ->
  Remove on_delete path s
  = match find (fun n => String.eqb (notes.path n) path) (notes_tbl (db s)) with
    | Some n =>
        if IsValid (notes.id n) then
          (None,
           set_db (on_delete (notes.id n)
                     (set_notes (filter (fun m => negb (notes.id m =? notes.id n))
                                        (notes_tbl (db s))) (db s))) s)
        else (Some (ErrMessage "note not found in the index"), s)
    | None => (Some (ErrMessage "note not found in the index"), s)
    end.
Proof.
  intros H. unfold Remove, bind. rewrite (findIdByPath_runs path s H).
  destruct (find _ (notes_tbl (db s))) as [n|]; [|reflexivity].
  destruct (IsValid (notes.id n)); cbn [negb]; [|reflexivity].
  unfold removeStmt. now rewrite exec_runs.
Qed.

Lemma NoDup_map_eq {A B : Type} (g : A -> B) (l : list A) (x y : A) :
  NoDup (map g l) -> In x l -> In y l -> g x = g y -> x = y.
Proof.
  induction l as [|a l IH]; intros Hnd Hx Hy E; [contradiction|].
  cbn in Hnd. inversion Hnd as [|b bs Hnot Hnd']; subst.
  destruct Hx as [->|Hx], Hy as [->|Hy]; auto.
  - exfalso. apply Hnot. rewrite E. now apply in_map.
  - exfalso. apply Hnot. rewrite <- E. now apply in_map.
Qed.

(** X2. A note that [Add] has stored is found again under its path:
    on a database that does not fail, [findIdByPath] on the path of the
    record returns the id [Add] returned, and that id is valid. *)
Theorem X2_add_then_lookup (env : Env) (note : Metadata.t) (s s' : State)
    (id : NoteId)
    (Hadd : Add env note s = ((id, None), s'))
    (Hruns : faults s' = [])
    (Hseq : 0 <= notes_seq (db s)) :
  findIdByPath (Metadata.Path note) s' = ((id, None), s')
  /\ IsValid id = true.
Proof.
  destruct (Add_ok_notes env note s s' id Hadd) as [Hid [Hfresh [json Hn]]].
  split.
  - rewrite (findIdByPath_runs _ s' Hruns), Hn.
    rewrite find_app_last by (apply existsb_false_all; exact Hfresh).
    change (notes.path (stored_note id json note)) with (Metadata.Path note).
    now rewrite String.eqb_refl.
  - unfold IsValid. apply Z.ltb_lt. lia.
Qed.

Lemma X2_witness :
  Add sample_env late_note dangling_index = ((2, None), forward_index)
  /\ findIdByPath "b/note" forward_index = ((2, None), forward_index).
Proof.
  assert (Hadd : Add sample_env late_note dangling_index = ((2, None), forward_index)).
  { vm_compute. reflexivity. }
  split; [exact Hadd|].
  apply (X2_add_then_lookup sample_env late_note dangling_index forward_index 2 Hadd).
  - reflexivity.
  - vm_compute. discriminate.
Defined.

(** X3. [Remove] undoes [Add] on table [notes]: once a note is added to
    a well-formed index, removing its path on a database that does not
    fail succeeds and leaves the notes that were there before the
    addition, in their order. *)
Theorem X3_add_then_remove (env : Env) (on_delete : Z -> DB -> DB)
    (note : Metadata.t) (s s' : State) (id : NoteId)
    (Hschema : keeps_notes on_delete)
    (Hok : index_ok (db s))
    (Hadd : Add env note s = ((id, None), s'))
    (Hruns : faults s' = []) :
  fst (Remove on_delete (Metadata.Path note) s') = None
  /\ notes_tbl (db (snd (Remove on_delete (Metadata.Path note) s')))
     = notes_tbl (db s).
Proof.
  destruct (Add_ok_notes env note s s' id Hadd) as [Hid [Hfresh [json Hn]]].
  destruct Hok as [_ [_ [Hseq Hb]]].
  rewrite (Remove_runs on_delete _ s' Hruns), Hn.
  rewrite find_app_last by (apply existsb_false_all; exact Hfresh).
  change (notes.path (stored_note id json note)) with (Metadata.Path note).
  rewrite String.eqb_refl.
  change (notes.id (stored_note id json note)) with id.
  assert (Hv : IsValid id = true) by (unfold IsValid; apply Z.ltb_lt; lia).
  rewrite Hv. cbn [fst snd]. split; [reflexivity|].
  cbn [db set_db]. destruct (Hschema id
    (set_notes (filter (fun m => negb (notes.id m =? id))
                       (notes_tbl (db s) ++ [stored_note id json note])) (db s')))
    as [A _].
  rewrite A. cbn [notes_tbl set_notes].
  rewrite filter_app. cbn [filter].
  change (notes.id (stored_note id json note)) with id. rewrite Z.eqb_refl.
  cbn [negb]. rewrite app_nil_r.
  apply filter_kept. intros m Hm. apply negb_true_iff, Z.eqb_neq.
  specialize (Hb m Hm). lia.
Qed.

Lemma X3_witness :
  fst (Remove cascade "b/note" forward_index) = None
  /\ notes_tbl (db (snd (Remove cascade "b/note" forward_index)))
     = notes_tbl (db dangling_index).
Proof.
  assert (Hadd : Add sample_env late_note dangling_index = ((2, None), forward_index)).
  { vm_compute. reflexivity. }
  apply (X3_add_then_remove sample_env cascade late_note dangling_index
           forward_index 2 cascade_keeps_notes
           (index_of_ok [note_at "a" "A" 0 ["b/note"] []]) Hadd eq_refl).
Defined.

(** X4. [Remove] is not idempotent. On a well-formed index behind a
    database that does not fail: for a path without a note, [Remove]
    fails with "note not found in the index" and changes nothing; for a
    path with a note, it succeeds, the notes left are the ones at other
    paths, and a second [Remove] of the path fails with "note not found
    in the index". *)
Theorem X4_remove_once (on_delete : Z -> DB -> DB) (path : string) (s : State)
    (Hschema : keeps_notes on_delete)
    (Hok : index_ok (db s))
    (Hruns : faults s = []) :
  let present := existsb (fun n => String.eqb (notes.path n) path)
                         (notes_tbl (db s)) in
  let s' := snd (Remove on_delete path s) in
  (present = false ->
     Remove on_delete path s
     = (Some (ErrMessage "note not found in the index"), s))
  /\ (present = true ->
        fst (Remove on_delete path s) = None
        /\ (forall m, In m (notes_tbl (db s'))
                      <-> In m (notes_tbl (db s)) /\ notes.path m <> path)
        /\ Remove on_delete path s'
           = (Some (ErrMessage "note not found in the index"), s')).
Proof.
  cbn zeta. destruct Hok as [Hpaths [Hids [Hseq Hb]]].
  rewrite (Remove_runs on_delete path s Hruns). split.
  - intros Habs. rewrite find_all_false; [reflexivity|].
    apply existsb_false_all. exact Habs.
  - intros Hpre. destruct (find _ (notes_tbl (db s))) as [n|] eqn:F.
    2:{ apply existsb_exists in Hpre as [x [Hx Ex]].
        pose proof (find_none _ _ F x Hx) as N. cbn in N. congruence. }
    apply find_some in F as [Hn Hp]. apply String.eqb_eq in Hp.
    assert (Hv : IsValid (notes.id n) = true).
    { unfold IsValid. apply Z.ltb_lt. specialize (Hb n Hn). lia. }
    rewrite Hv. cbn [fst snd].
    assert (Hleft : forall m,
              In m (notes_tbl (db (set_db (on_delete (notes.id n)
                      (set_notes (filter (fun m => negb (notes.id m =? notes.id n))
                                         (notes_tbl (db s))) (db s))) s)))
              <-> In m (notes_tbl (db s)) /\ notes.path m <> path).
    { intros m. cbn [db set_db].
      destruct (Hschema (notes.id n)
        (set_notes (filter (fun m => negb (notes.id m =? notes.id n))
                           (notes_tbl (db s))) (db s))) as [A _].
      rewrite A. cbn [notes_tbl set_notes]. rewrite filter_In.
      rewrite negb_true_iff, Z.eqb_neq. split; intros [Hm Hne]; split; auto.
      - intros E. apply Hne. f_equal.
        apply (NoDup_map_eq notes.path _ m n Hpaths Hm Hn). congruence.
      - intros E. apply Hne. rewrite <- Hp. f_equal.
        apply (NoDup_map_eq notes.id _ m n Hids Hm Hn E). }
    split; [reflexivity|]. split; [exact Hleft|].
    rewrite Remove_runs by exact Hruns.
    rewrite find_all_false; [reflexivity|].
    intros m Hm. apply Hleft in Hm as [_ Hne]. now apply String.eqb_neq.
Qed.

Lemma X4_witness :
  fst (Remove cascade "a" forward_index) = None
  /\ Remove cascade "a" (snd (Remove cascade "a" forward_index))
     = (Some (ErrMessage "note not found in the index"),
        snd (Remove cascade "a" forward_index)).
Proof.
  pose proof (X4_remove_once cascade "a" forward_index cascade_keeps_notes
                (index_of_ok [note_at "a" "A" 0 ["b/note"] [];
                              note_at "b/note" "B" 0 [] []]) eq_refl) as H.
  cbn zeta in H. destruct H as [_ H].
  destruct (H eq_refl) as [H1 [_ H3]]. split; [exact H1|exact H3].
Defined.

(** ** Updating twice *)

Lemma Update_runs (env : Env) (note : Metadata.t) (s : State) :
  faults s = [] ->
  Update env note s
  = match find (fun n => String.eqb (notes.path n) (Metadata.Path note))
               (notes_tbl (db s)) with
    | Some old =>
        if IsValid (notes.id old) then
          match json_Marshal env (Metadata.Metadata note) with
          | (_, Some _) =>
              ((0, Some (ErrMessage ("cannot serialize note metadata to JSON: "
                                     +s+ Metadata.Path note))), s)
          | (json, None) =>
              ((notes.id old, None),
               set_db (updated_db json note (notes.id old) (db s)) s)
          end
        else ((0, Some (ErrMessage "note not found in the index")), s)
    | None => ((0, Some (ErrMessage "note not found in the index")), s)
    end.
Proof.
  intros Hruns. unfold Update, bind. rewrite (findIdByPath_runs _ s Hruns).
  destruct (find _ (notes_tbl (db s))) as [old|]; [|reflexivity].
  destruct (IsValid (notes.id old)) eqn:Hv; cbn [negb]; [|reflexivity].
  unfold metadataToJson.
  destruct (json_Marshal env (Metadata.Metadata note)) as [json [e|]];
    [reflexivity|].
  unfold updateStmt. rewrite (exec_runs _ s Hruns).
  unfold removeLinksStmt. rewrite exec_runs by (destruct s; exact Hruns).
  rewrite addLinks_runs by (destruct s; exact Hruns).
  destruct s as [[ns lk cs ncs sq] f h]. cbn.
  unfold updated_db, idToSql, sql_of_null. rewrite Hv. reflexivity.
Qed.

Lemma updated_row_twice (json : JsonText) (note : Metadata.t) (n : notes.row) :
  updated_row json note (updated_row json note n) = updated_row json note n.
Proof.
  unfold updated_row at 2 3.
  destruct (String.eqb (notes.path n) (Metadata.Path note)) eqn:E.
  - unfold updated_row. cbn [notes.path]. now rewrite E.
  - unfold updated_row. now rewrite E.
Qed.

Lemma heal_twice (id : NoteId) (path : string) (l : links.row) :
  heal id path (heal id path l) = heal id path l.
Proof.
  unfold heal at 2 3. destruct (misses_target path l) eqn:E.
  - unfold heal, misses_target. reflexivity.
  - unfold heal. now rewrite E.
Qed.

Lemma heal_source (id : NoteId) (path : string) (l : links.row) :
  links.source_id (heal id path l) = links.source_id l.
Proof. unfold heal. now destruct (misses_target path l). Qed.

Lemma filter_map_swap {A : Type} (f : A -> bool) (g : A -> A) (l : list A) :
  (forall x, f (g x) = f x) -> filter f (map g l) = map g (filter f l).
Proof.
  intros H. induction l as [|a l IH]; [reflexivity|].
  cbn. rewrite H. destruct (f a); cbn; now rewrite IH.
Qed.

Lemma filter_none {A : Type} (f : A -> bool) (l : list A) :
  (forall x, In x l -> f x = false) -> filter f l = [].
Proof.
  induction l as [|a l IH]; intros H; [reflexivity|].
  cbn. rewrite (H a (or_introl eq_refl)). apply IH.
  intros x Hx. apply H. now right.
Qed.

Lemma filter_twice {A : Type} (f : A -> bool) (l : list A) :
  filter f (filter f l) = filter f l.
Proof.
  apply filter_kept. intros x Hx. now apply filter_In in Hx.
Qed.

Lemma updated_db_twice (json : JsonText) (note : Metadata.t) (id : NoteId) (d : DB) :
  updated_db json note id (updated_db json note id d) = updated_db json note id d.
Proof.
  unfold updated_db. destruct d as [ns lk cs ncs sq].
  unfold set_links, set_notes.
  cbn [notes_tbl links_tbl collections_tbl notes_collections_tbl notes_seq].
  assert (Hns : map (updated_row json note) (map (updated_row json note) ns)
                = map (updated_row json note) ns).
  { rewrite map_map. apply map_ext, updated_row_twice. }
  rewrite Hns. f_equal.
  rewrite filter_map_swap
    by (intros x; now rewrite heal_source).
  rewrite filter_app, filter_twice.
  rewrite (filter_none _ (map _ (Metadata.Links note))).
  2:{ intros x Hx. apply in_map_iff in Hx as [k [<- _]]. cbn.
      now rewrite Z.eqb_refl. }
  rewrite app_nil_r, !map_app, map_map.
  rewrite (map_ext _ _ (heal_twice id (Metadata.Path note))).
  reflexivity.
Qed.

Lemma find_map_same {A : Type} (f : A -> bool) (g : A -> A) (l : list A) :
  (forall x, f (g x) = f x) -> find f (map g l) = option_map g (find f l).
Proof.
  intros H. induction l as [|a l IH]; [reflexivity|].
  cbn. rewrite H. now destruct (f a).
Qed.

Lemma updated_row_path_eqb (json : JsonText) (note : Metadata.t) (p : string)
    (n : notes.row) :
  String.eqb (notes.path (updated_row json note n)) p
  = String.eqb (notes.path n) p.
Proof. now rewrite updated_row_path. Qed.

(** X5. A successful [Update] is idempotent: on a database that does
    not fail, running [Update] again with the same record returns the
    same id and leaves the whole index as the first run left it. *)
Theorem X5_update_twice (env : Env) (note : Metadata.t) (s s' : State)
    (id : NoteId)
    (Hruns : faults s = [])
    (Hupd : Update env note s = ((id, None), s')) :
  Update env note s' = ((id, None), s').
Proof.
  rewrite (Update_runs env note s Hruns) in Hupd.
  destruct (find _ (notes_tbl (db s))) as [old|] eqn:F; [|discriminate].
  destruct (IsValid (notes.id old)) eqn:Hv; [|discriminate].
  destruct (json_Marshal env (Metadata.Metadata note)) as [json [e|]] eqn:J;
    [discriminate|].
  injection Hupd as <- <-.
  rewrite Update_runs by exact Hruns.
  cbn [db set_db]. unfold updated_db at 1. cbn [notes_tbl set_links set_notes].
  rewrite (find_map_same _ _ _ (updated_row_path_eqb json note (Metadata.Path note))).
  rewrite F. cbn [option_map]. rewrite updated_row_id, Hv, J.
  rewrite updated_db_twice. now destruct s.
Qed.

Lemma X5_witness :
  Update sample_env updated_record
    (snd (Update sample_env updated_record index_before_update))
  = ((1, None), snd (Update sample_env updated_record index_before_update)).
Proof.
  apply (X5_update_twice sample_env updated_record index_before_update).
  - reflexivity.
  - vm_compute. reflexivity.
Defined.

(** ** Reads leave the index alone *)

Lemma keeps_db_ret {A : Type} (a : A) : keeps_db (ret a).
Proof. intros s. reflexivity. Qed.

Lemma keeps_db_bind {A B : Type} (m : M A) (k : A -> M B) :
  keeps_db m -> (forall a, keeps_db (k a)) -> keeps_db (bind m k).
Proof.
  intros Hm Hk s. unfold bind. specialize (Hm s).
  destruct (m s) as [a s1]. cbn [snd] in Hm. now rewrite Hk.
Qed.

Lemma keeps_db_get : keeps_db get.
Proof. intros s. reflexivity. Qed.

Lemma keeps_db_next_outcome : keeps_db next_outcome.
Proof. exact next_outcome_db. Qed.

Lemma keeps_db_query_row (first : DB -> option Z) : keeps_db (query_row first).
Proof. intros s. apply query_row_db. Qed.

Create HintDb keeps.

#[local] Hint Resolve keeps_db_ret keeps_db_get keeps_db_next_outcome
  keeps_db_query_row : keeps.

Ltac keeps :=
  repeat match goal with
         | |- keeps_db (bind _ _) => apply keeps_db_bind; [|intros ?]
         | |- keeps_db (ret _) => apply keeps_db_ret
         | |- keeps_db (match ?x with _ => _ end) => destruct x
         end;
  auto with keeps.

Lemma keeps_db_findIdByPath (path : string) : keeps_db (findIdByPath path).
Proof. unfold findIdByPath, findIdByPathStmt. keeps. Qed.

Lemma keeps_db_findIdByPathPrefix (path : string) :
  keeps_db (findIdByPathPrefix path).
Proof. intros s. apply findIdByPathPrefix_db. Qed.

#[local] Hint Resolve keeps_db_findIdByPath keeps_db_findIdByPathPrefix : keeps.

Lemma keeps_db_findIdsByPathPrefixes_from (ids : list NoteId) (paths : list string) :
  keeps_db (findIdsByPathPrefixes_from ids paths).
Proof.
  revert ids. induction paths as [|p paths IH]; intros ids;
    cbn [findIdsByPathPrefixes_from]; keeps.
Qed.

Lemma keeps_db_findIdsByPathPrefixes (paths : list string) :
  keeps_db (findIdsByPathPrefixes paths).
Proof. apply keeps_db_findIdsByPathPrefixes_from. Qed.

#[local] Hint Resolve keeps_db_findIdsByPathPrefixes : keeps.

Lemma keeps_db_slice_of (ids : list NoteId) : keeps_db (slice_of ids).
Proof. intros s. reflexivity. Qed.

Lemma keeps_db_append (env : Env) (sl : Slice) (x : NoteId) :
  keeps_db (append env sl x).
Proof.
  intros s. unfold append. destruct sl as [|arr off len cap]; [reflexivity|].
  now destruct (Nat.ltb len cap).
Qed.

Lemma keeps_db_append_all (env : Env) (sl : Slice) (ids : list NoteId) :
  keeps_db (append_all env sl ids).
Proof.
  revert sl. induction ids as [|i ids IH]; intros sl; cbn [append_all].
  - apply keeps_db_ret.
  - apply keeps_db_bind; [apply keeps_db_append|intros sl'; apply IH].
Qed.

Lemma keeps_db_titlesQuery (ids : list NoteId) : keeps_db (titlesQuery ids).
Proof. unfold titlesQuery. keeps. Qed.

#[local] Hint Resolve keeps_db_slice_of keeps_db_append_all
  keeps_db_titlesQuery : keeps.

Lemma keeps_db_expandMentions (env : Env) (opts : FinderOpts) :
  keeps_db (expandMentionsIntoMatch env opts).
Proof. unfold expandMentionsIntoMatch. keeps. Qed.

Lemma keeps_db_setupLinkFilter (paths : list string) (direction : Z)
    (negate recursive : bool) (b : Builder) :
  keeps_db (setupLinkFilter paths direction negate recursive b).
Proof. unfold setupLinkFilter. keeps. Qed.

#[local] Hint Resolve keeps_db_setupLinkFilter : keeps.

Lemma keeps_db_buildFilters (env : Env) (opts : FinderOpts) :
  keeps_db (buildFilters env opts).
Proof.
  unfold buildFilters, setupLinkedBy, setupLinkTo, setupRelated.
  apply keeps_db_bind; [apply keeps_db_get|intros s0].
  destruct (match Tags opts with
            | Some tags => setupTags tags _
            | None => _
            end) as [b1 e1].
  keeps.
Qed.

Lemma keeps_db_tx_Query (env : Env) (q : Query) : keeps_db (tx_Query env q).
Proof. unfold tx_Query. keeps. Qed.

#[local] Hint Resolve keeps_db_buildFilters keeps_db_tx_Query
  keeps_db_expandMentions : keeps.

Lemma keeps_db_findRows (env : Env) (opts : FinderOpts) :
  keeps_db (findRows env opts).
Proof. unfold findRows. keeps. Qed.

#[local] Hint Resolve keeps_db_findRows : keeps.

Lemma keeps_db_Find (env : Env) (opts : FinderOpts) : keeps_db (Find env opts).
Proof. unfold Find. keeps. Qed.

Lemma keeps_db_Indexed : keeps_db Indexed.
Proof. unfold Indexed. keeps. Qed.

(** X6. Reading never writes: whatever the options, the paths and the
    failures of the database, [Find], [findRows], [findIdByPath],
    [findIdsByPathPrefixes] and [Indexed] leave every table of the index
    as they found it (mention expansion only allocates slices). *)
Theorem X6_reads_keep_the_index (env : Env) (opts : FinderOpts)
    (path : string) (paths : list string) (s : State) :
  db (snd (Find env opts s)) = db s
  /\ db (snd (findRows env opts s)) = db s
  /\ db (snd (findIdByPath path s)) = db s
  /\ db (snd (findIdsByPathPrefixes paths s)) = db s
  /\ db (snd (Indexed s)) = db s.
Proof.
  repeat split.
  - apply keeps_db_Find.
  - apply keeps_db_findRows.
  - apply keeps_db_findIdByPath.
  - apply keeps_db_findIdsByPathPrefixes.
  - apply keeps_db_Indexed.
Qed.

(** ** What the plain filters select *)

(** A successful [Find] is mention expansion followed by a successful
    [findRows] on the expanded options. *)
Lemma Find_ok (env : Env) (opts : FinderOpts) (s s' : State) (rows : Rows) :
  Find env opts s = ((rows, None), s') ->
  exists opts' s0,
    expandMentionsIntoMatch env opts s = ((opts', None), s0)
    /\ findRows env opts' s0 = ((rows, None), s').
Proof.
  unfold Find, bind.
  destruct (expandMentionsIntoMatch env opts s) as [[opts' err] s0].
  destruct err; [discriminate|].
  destruct (findRows env opts' s0) as [[rows' err'] s1] eqn:F.
  destruct err'; [discriminate|].
  unfold ret. intros H. injection H as <- <-. now exists opts', s0.
Qed.

(** When [buildFilters] succeeds, its last step is the orphan flag and
    the date bounds. *)
Lemma buildFilters_ends (env : Env) (opts : FinderOpts) (s s1 : State)
    (b : Builder) :
  buildFilters env opts s = ((b, None), s1) ->
  exists b', b = setupOrphanAndDates opts b'.
Proof.
  unfold buildFilters, bind, get.
  destruct (match Tags opts with
            | Some tags => setupTags tags _
            | None => _
            end) as [b1 e1].
  destruct e1; [discriminate|].
  destruct (setupLinkedBy opts b1 s) as [[b2 e2] s2].
  destruct e2; [discriminate|].
  destruct (setupLinkTo opts b2 s2) as [[b3 e3] s3].
  destruct e3; [discriminate|].
  destruct (setupRelated opts b3 s3) as [[b4 e4] s4].
  destruct e4; [discriminate|].
  unfold ret. intros H. injection H as <- _. now exists b4.
Qed.

Lemma add_where_In (w : WhereExpr) (b : Builder) :
  In w (whereExprs (add_where w b)).
Proof. cbn. apply in_or_app. right. now left. Qed.

Lemma setupOrphanAndDates_adds (opts : FinderOpts) (b : Builder) :
  (Orphan opts = true ->
   In where_orphan (whereExprs (setupOrphanAndDates opts b)))
  /\ (forall t, CreatedStart opts = Some t ->
        In (where_created_start t) (whereExprs (setupOrphanAndDates opts b)))
  /\ (forall t, CreatedEnd opts = Some t ->
        In (where_created_end t) (whereExprs (setupOrphanAndDates opts b)))
  /\ (forall t, ModifiedStart opts = Some t ->
        In (where_modified_start t) (whereExprs (setupOrphanAndDates opts b)))
  /\ (forall t, ModifiedEnd opts = Some t ->
        In (where_modified_end t) (whereExprs (setupOrphanAndDates opts b))).
Proof.
  unfold setupOrphanAndDates.
  destruct (Orphan opts), (CreatedStart opts), (CreatedEnd opts),
    (ModifiedStart opts), (ModifiedEnd opts);
    repeat split; intros; try discriminate;
    try match goal with H : Some _ = Some _ |- _ => injection H as <- end;
    repeat (first [ apply add_where_In
                  | eapply grows_where_in; [apply grows_add_where|] ]).
Qed.

(** The rows a successful [findRows] returns are notes of the index, and
    the where-expressions hold on each that does not escape through an
    include path. *)
Lemma findRows_selected (env : Env) (opts : FinderOpts) (s s' : State)
    (rows : Rows) (n : notes.row) :
  findRows env opts s = ((rows, None), s') ->
  In n (selected rows) ->
  exists b s1,
    buildFilters env opts s = ((b, None), s1)
    /\ In n (notes_tbl (db s))
    /\ (escapes env opts n
        || forallb (where_holds env (buildQuery opts b) (db s) n) (whereExprs b))%bool
       = true.
Proof.
  intros Hf Hn.
  destruct (findRows_ok env opts s s' rows Hf) as [b [s1 [Hb [Hq [_ Hrows]]]]].
  exists b, s1. split; [exact Hb|].
  pose proof (keeps_db_buildFilters env opts s) as Hdb.
  rewrite Hb in Hdb. cbn [snd] in Hdb.
  subst rows. cbn [selected] in Hn. rewrite Hdb in Hn.
  unfold select_notes in Hn. apply filter_In in Hn as [Hin H].
  split; [exact Hin|]. apply andb_true_iff in H as [H _].
  now rewrite (where_value_spec env opts s s1 b (db s) n Hb Hq) in H.
Qed.

Lemma findRows_holds (env : Env) (opts : FinderOpts) (s s' : State)
    (rows : Rows) (n : notes.row) :
  findRows env opts s = ((rows, None), s') ->
  In n (selected rows) ->
  escapes env opts n = false ->
  exists b s1,
    buildFilters env opts s = ((b, None), s1)
    /\ In n (notes_tbl (db s))
    /\ forall w, In w (whereExprs b) ->
                 where_holds env (buildQuery opts b) (db s) n w = true.
Proof.
  intros Hf Hn Hesc.
  destruct (findRows_selected env opts s s' rows n Hf Hn) as [b [s1 [Hb [Hin H]]]].
  exists b, s1. split; [exact Hb|]. split; [exact Hin|].
  rewrite Hesc in H. cbn [orb] in H. now rewrite forallb_forall in H.
Qed.

Lemma same_filters_escapes (env : Env) (opts opts' : FinderOpts) (n : notes.row) :
  same_filters opts opts' -> escapes env opts' n = escapes env opts n.
Proof. intros [Hi _]. unfold escapes. now rewrite Hi. Qed.

(** X7. Date bounds and the orphan flag, whatever the other filters:
    every note a successful [Find] returns is a note of the index; unless
    its path matches an include path that is not the last one, it was
    created at or after [CreatedStart] and before [CreatedEnd], modified
    at or after [ModifiedStart] and before [ModifiedEnd] (lower bounds
    inclusive, upper bounds exclusive), and with [Orphan] no link of the
    index has it as target. *)
Theorem X7_dates_and_orphans (env : Env) (opts : FinderOpts) (s s' : State)
    (rows : Rows) (n : notes.row)
    (Hfind : Find env opts s = ((rows, None), s'))
    (Hn : In n (selected rows))
    (Hesc : escapes env opts n = false) :
  In n (notes_tbl (db s))
  /\ (forall t, CreatedStart opts = Some t -> t <= notes.created n)
  /\ (forall t, CreatedEnd opts = Some t -> notes.created n < t)
  /\ (forall t, ModifiedStart opts = Some t -> t <= notes.modified n)
  /\ (forall t, ModifiedEnd opts = Some t -> notes.modified n < t)
  /\ (Orphan opts = true ->
      forall l, In l (links_tbl (db s)) ->
                links.target_id l <> Some (notes.id n)).
Proof.
  destruct (Find_ok env opts s s' rows Hfind) as [opts' [s0 [He Hf]]].
  pose proof (expandMentions_same_filters env opts s) as Hsame.
  rewrite He in Hsame. cbn [fst] in Hsame.
  rewrite <- (same_filters_escapes env opts opts' n Hsame) in Hesc.
  destruct Hsame as [_ [_ [_ [_ [_ [_ [_ [Ho [Hcs [Hce [Hms [Hme _]]]]]]]]]]]].
  pose proof (keeps_db_expandMentions env opts s) as Hdb.
  rewrite He in Hdb. cbn [snd] in Hdb.
  destruct (findRows_holds env opts' s0 s' rows n Hf Hn Hesc)
    as [b [s1 [Hb [Hin Hw]]]].
  rewrite Hdb in Hin, Hw.
  destruct (buildFilters_ends env opts' s0 s1 b Hb) as [b' ->].
  rewrite <- Ho, <- Hcs, <- Hce, <- Hms, <- Hme.
  destruct (setupOrphanAndDates_adds opts' b') as [Ao [Acs [Ace [Ams Ame]]]].
  split; [exact Hin|]. repeat split.
  - intros t Ht. apply Z.leb_le. exact (Hw _ (Acs t Ht)).
  - intros t Ht. apply Z.ltb_lt. exact (Hw _ (Ace t Ht)).
  - intros t Ht. apply Z.leb_le. exact (Hw _ (Ams t Ht)).
  - intros t Ht. apply Z.ltb_lt. exact (Hw _ (Ame t Ht)).
  - intros Ht l Hl Htarget. specialize (Hw _ (Ao Ht)).
    cbn [where_holds] in Hw. apply negb_true_iff in Hw.
    assert (T : existsb (fun l => match links.target_id l with
                                  | Some t => t =? notes.id n
                                  | None => false
                                  end) (links_tbl (db s)) = true).
    { apply existsb_exists. exists l. split; [exact Hl|].
      rewrite Htarget. apply Z.eqb_refl. }
    congruence.
Qed.

Lemma X7_witness :
  In dated_a (selected (fst (fst (Find sample_env (orphans_between 1 9) dated_index))))
  /\ 1 <= notes.created dated_a
  /\ notes.created dated_a < 9.
Proof.
  assert (Hfind : Find sample_env (orphans_between 1 9) dated_index
                  = ((fst (fst (Find sample_env (orphans_between 1 9) dated_index)),
                      None),
                     snd (Find sample_env (orphans_between 1 9) dated_index))).
  { vm_compute. reflexivity. }
  assert (Hn : In dated_a
                 (selected (fst (fst (Find sample_env (orphans_between 1 9)
                                        dated_index))))).
  { vm_compute. left. reflexivity. }
  split; [exact Hn|].
  destruct (X7_dates_and_orphans sample_env (orphans_between 1 9) dated_index
              _ _ dated_a Hfind Hn eq_refl) as [_ [Hcs [Hce _]]].
  split; [apply (Hcs 1 eq_refl)|apply (Hce 9 eq_refl)].
Defined.

Lemma setupPaths_adds (env : Env) (opts : FinderOpts) (b : Builder) :
  (forall paths, IncludePaths opts = Some paths ->
     In (where_include_paths (map (pathRegex env) paths))
        (whereExprs (setupPaths env opts b)))
  /\ (forall paths, ExcludePaths opts = Some paths ->
        In (where_exclude_paths (map (pathRegex env) paths))
           (whereExprs (setupPaths env opts b))).
Proof.
  unfold setupPaths.
  destruct (IncludePaths opts), (ExcludePaths opts);
    repeat split; intros; try discriminate;
    try match goal with H : Some _ = Some _ |- _ => injection H as <- end;
    repeat (first [ apply add_where_In
                  | eapply grows_where_in; [apply grows_add_where|] ]).
Qed.

(** X8. Path filters, whatever the other filters: the path of every
    note a successful [Find] returns matches the expression
    [pathRegex p] of one path [p] of [IncludePaths]; and it matches the
    expression of no path of [ExcludePaths], unless it matches an include
    path that is not the last one. *)
Theorem X8_path_filters (env : Env) (opts : FinderOpts) (s s' : State)
    (rows : Rows) (n : notes.row)
    (Hfind : Find env opts s = ((rows, None), s'))
    (Hn : In n (selected rows)) :
  (forall paths, IncludePaths opts = Some paths ->
     exists p, In p paths /\ regexp env (pathRegex env p) (notes.path n) = true)
  /\ (forall paths p, escapes env opts n = false ->
        ExcludePaths opts = Some paths -> In p paths ->
        regexp env (pathRegex env p) (notes.path n) = false).
Proof.
  destruct (Find_ok env opts s s' rows Hfind) as [opts' [s0 [He Hf]]].
  pose proof (expandMentions_same_filters env opts s) as Hsame.
  rewrite He in Hsame. cbn [fst] in Hsame.
  pose proof (same_filters_escapes env opts opts' n Hsame) as Hesc'.
  destruct Hsame as [Hi [Hx _]].
  destruct (findRows_selected env opts' s0 s' rows n Hf Hn)
    as [b [s1 [Hb [_ Hv]]]].
  pose proof (buildFilters_grows env opts' s0) as G.
  rewrite Hb in G. cbn [fst] in G.
  destruct (setupPaths_adds env opts' (setupMatch env opts' new_builder))
    as [Ai Ax].
  rewrite <- Hi, <- Hx, <- Hesc'. split.
  - intros paths Hp. apply orb_true_iff in Hv as [Hv|Hv].
    + unfold escapes in Hv. rewrite Hp in Hv.
      apply existsb_exists in Hv as [p [Hin Hm]]. exists p. split; [|exact Hm].
      clear - Hin. induction paths as [|a paths IH]; [contradiction|].
      destruct paths as [|a' paths]; [contradiction|].
      destruct Hin as [<-|Hin]; [now left|right; now apply IH].
    + rewrite forallb_forall in Hv.
      assert (H : where_holds env (buildQuery opts' b) (db s0) n
                    (where_include_paths (map (pathRegex env) paths)) = true).
      { apply Hv. eapply grows_where_in; [exact G|].
        eapply grows_where_in; [apply setupExcludeIds_grows|]. now apply Ai. }
      cbn [where_holds] in H. apply existsb_exists in H as [r [Hr Hm]].
      apply in_map_iff in Hr as [p [<- Hp']]. now exists p.
  - intros paths p Hesc Hp Hin. rewrite Hesc in Hv. cbn [orb] in Hv.
    rewrite forallb_forall in Hv.
    assert (H : where_holds env (buildQuery opts' b) (db s0) n
                  (where_exclude_paths (map (pathRegex env) paths)) = true).
    { apply Hv. eapply grows_where_in; [exact G|].
      eapply grows_where_in; [apply setupExcludeIds_grows|]. now apply Ax. }
    cbn [where_holds] in H. rewrite forallb_forall in H.
    apply negb_true_iff. apply H. now apply in_map.
Qed.

(** Under the include paths a and c and the exclude path a, the note c
    is returned and does not match the excluded path; the note a matches
    the first include path and is returned as well. *)
Lemma X8_witness :
  In dated_c (selected (fst (fst (Find path_env (under ["a"; "c"] ["a"])
                                    dated_index))))
  /\ regexp path_env (pathRegex path_env "a") (notes.path dated_c) = false
  /\ found_paths (Find path_env (under ["a"; "c"] ["a"]) dated_index)
     = (["a"; "c"], None).
Proof.
  assert (Hfind : Find path_env (under ["a"; "c"] ["a"]) dated_index
                  = ((fst (fst (Find path_env (under ["a"; "c"] ["a"]) dated_index)),
                      None),
                     snd (Find path_env (under ["a"; "c"] ["a"]) dated_index))).
  { vm_compute. reflexivity. }
  assert (Hn : In dated_c
                 (selected (fst (fst (Find path_env (under ["a"; "c"] ["a"])
                                        dated_index))))).
  { vm_compute. right. left. reflexivity. }
  split; [exact Hn|]. split; [|vm_compute; reflexivity].
  destruct (X8_path_filters path_env (under ["a"; "c"] ["a"]) dated_index
              _ _ dated_c Hfind Hn) as [_ Hx].
  apply (Hx ["a"] "a" eq_refl eq_refl). now left.
Defined.

(** X9. Excluded ids, whatever the other filters: no note a successful
    [findRows] returns has its id in the slice [ExcludeIds] of the
    options, unless its path matches an include path that is not the
    last one. *)
Theorem X9_excluded_ids (env : Env) (opts : FinderOpts) (s s' : State)
    (rows : Rows) (n : notes.row)
    (Hfind : findRows env opts s = ((rows, None), s'))
    (Hn : In n (selected rows))
    (Hesc : escapes env opts n = false) :
  ~ In (notes.id n) (slice_read (heap s) (ExcludeIds opts)).
Proof.
  destruct (findRows_holds env opts s s' rows n Hfind Hn Hesc)
    as [b [s1 [Hb [_ Hw]]]].
  pose proof (buildFilters_grows env opts s) as G.
  rewrite Hb in G. cbn [fst] in G.
  destruct (ExcludeIds opts) as [|arr off len cap] eqn:E.
  - cbn. tauto.
  - intros Hin.
    assert (H : where_holds env (buildQuery opts b) (db s) n
                  (where_exclude_ids (slice_read (heap s) (slice arr off len cap)))
                = true).
    { apply Hw. eapply grows_where_in; [exact G|].
      unfold setupExcludeIds. rewrite E. apply add_where_In. }
    cbn [where_holds] in H. apply negb_true_iff in H.
    assert (T : existsb (Z.eqb (notes.id n))
                  (slice_read (heap s) (slice arr off len cap)) = true).
    { apply existsb_exists. exists (notes.id n). split; [exact Hin|].
      apply Z.eqb_refl. }
    congruence.
Qed.

Lemma X9_witness :
  In dated_c (selected (fst (fst (findRows sample_env excluding_first
                                    dated_heap_index))))
  /\ ~ In (notes.id dated_c)
          (slice_read (heap dated_heap_index) (ExcludeIds excluding_first)).
Proof.
  assert (Hfind : findRows sample_env excluding_first dated_heap_index
                  = ((fst (fst (findRows sample_env excluding_first
                                  dated_heap_index)), None),
                     snd (findRows sample_env excluding_first dated_heap_index))).
  { vm_compute. reflexivity. }
  assert (Hn : In dated_c
                 (selected (fst (fst (findRows sample_env excluding_first
                                        dated_heap_index))))).
  { vm_compute. right. left. reflexivity. }
  split; [exact Hn|].
  exact (X9_excluded_ids sample_env excluding_first dated_heap_index _ _ dated_c
           Hfind Hn eq_refl).
Defined.

(** ** Link filters that follow one link *)

Lemma direct_rows_forward (ls : list links.row) (ids : list NoteId) (n : Z) :
  existsb (joins (-1) ids n) (map tc_base ls) = true <-> linked_from ls ids n.
Proof.
  rewrite existsb_exists. split.
  - intros [r [Hr Hj]]. apply in_map_iff in Hr as [l [<- Hl]].
    apply joins_forward in Hj as [Ht Hs]. exists l. auto.
  - intros [l [Hl [Hs Ht]]]. exists (tc_base l). split; [now apply in_map|].
    apply joins_forward. split; assumption.
Qed.

Lemma direct_rows_backward (ls : list links.row) (ids : list NoteId) (n : Z) :
  existsb (joins 1 ids n) (map tc_base ls) = true <-> links_into ls ids n.
Proof.
  rewrite existsb_exists. split.
  - intros [r [Hr Hj]]. apply in_map_iff in Hr as [l [<- Hl]].
    apply joins_backward in Hj as [Hs [t [Ht Hin]]]. exists l, t. auto.
  - intros [l [t [Hl [Hs [Ht Hin]]]]]. exists (tc_base l).
    split; [now apply in_map|].
    apply joins_backward. split; [exact Hs|]. now exists t.
Qed.

(** The notes selected through a filter that is not recursive. *)
Lemma select_direct (env : Env) (opts : FinderOpts) (direction maxDistance : Z)
    (negate : bool) (ids : list NoteId) (d : DB) (n : notes.row) :
  In n (select_notes env
          (buildQuery opts
             (linkFilterClauses ids direction negate false
                (set_maxDistance maxDistance new_builder))) d)
  <-> In n (notes_tbl d)
      /\ existsb (joins direction ids (notes.id n)) (map tc_base (links_tbl d))
         = negb negate.
Proof.
  unfold select_notes, linkFilterClauses. rewrite filter_In.
  destruct negate, (direction =? 0); cbn; rewrite !andb_true_r;
    try rewrite negb_true_iff; reflexivity.
Qed.

Lemma direct_query_runs (env : Env) (opts : FinderOpts) (direction maxDistance : Z)
    (negate : bool) (ids : list NoteId) :
  Sorters opts = [] ->
  query_error env
    (buildQuery opts
       (linkFilterClauses ids direction negate false
          (set_maxDistance maxDistance new_builder))) = None.
Proof.
  intros Hs. unfold query_error, buildQuery, finalOrderTerms, linkFilterClauses.
  destruct negate, (direction =? 0); cbn; rewrite Hs; reflexivity.
Qed.

(** X10. Link filters that are not recursive, and their negation: when
    the paths of the filter resolve to at least one note, on a database
    that does not fail, [LinkedBy] selects exactly the notes that are the
    target of a link whose source is one of the resolved notes, and
    [LinkTo] exactly the notes that are the source of a link whose target
    is one of them; negated, each selects exactly the other notes of the
    index. *)
Theorem X10_direct_link_filters (env : Env) (f : LinkFilter.t) (s : State)
    (i : NoteId) (ids : list NoteId)
    (Hruns : faults s = [])
    (Hrec : LinkFilter.Recursive f = false)
    (Hids : resolve_all (notes_tbl (db s)) (LinkFilter.Paths f) = i :: ids) :
  (exists rows,
     fst (Find env (only_LinkedBy f) s) = (rows, None)
     /\ forall n,
          In n (selected rows)
          <-> In n (notes_tbl (db s))
              /\ (if LinkFilter.Negate f
                  then ~ linked_from (links_tbl (db s)) (i :: ids) (notes.id n)
                  else linked_from (links_tbl (db s)) (i :: ids) (notes.id n)))
  /\ (exists rows,
        fst (Find env (only_LinkTo f) s) = (rows, None)
        /\ forall n,
             In n (selected rows)
             <-> In n (notes_tbl (db s))
                 /\ (if LinkFilter.Negate f
                     then ~ links_into (links_tbl (db s)) (i :: ids) (notes.id n)
                     else links_into (links_tbl (db s)) (i :: ids) (notes.id n))).
Proof.
  split.
  - rewrite Find_no_mention by reflexivity. unfold findRows, bind.
    rewrite (buildFilters_only_LinkedBy env f s Hruns), Hids, Hrec.
    rewrite tx_Query_runs by exact Hruns.
    rewrite direct_query_runs by reflexivity.
    eexists. split; [reflexivity|]. intros n. cbn [fst selected].
    rewrite select_direct.
    destruct (LinkFilter.Negate f); cbn [negb];
      rewrite <- direct_rows_forward; [rewrite not_true_iff_false|]; reflexivity.
  - rewrite Find_no_mention by reflexivity. unfold findRows, bind.
    rewrite (buildFilters_only_LinkTo env f s Hruns), Hids, Hrec.
    rewrite tx_Query_runs by exact Hruns.
    rewrite direct_query_runs by reflexivity.
    eexists. split; [reflexivity|]. intros n. cbn [fst selected].
    rewrite select_direct.
    destruct (LinkFilter.Negate f); cbn [negb];
      rewrite <- direct_rows_backward; [rewrite not_true_iff_false|]; reflexivity.
Qed.

Lemma X10_witness :
  found_paths (Find sample_env (only_LinkedBy (negated_filter "a")) chain_index)
  = (["a"; "c"; "d"], None)
  /\ exists rows,
       fst (Find sample_env (only_LinkedBy (negated_filter "a")) chain_index)
       = (rows, None)
       /\ (In chain_c (selected rows)
           <-> In chain_c (notes_tbl (db chain_index))
               /\ ~ linked_from (links_tbl (db chain_index)) [1]
                      (notes.id chain_c)).
Proof.
  split; [vm_compute; reflexivity|].
  destruct (X10_direct_link_filters sample_env (negated_filter "a") chain_index
              1 [] eq_refl eq_refl) as [[rows [Hr Hsel]] _].
  - vm_compute. reflexivity.
  - exists rows. split; [exact Hr|]. exact (Hsel chain_c).
Defined.

(** ** A recursive filter cannot be negated *)



(** ** The closure on graphs with cycles *)

Lemma tc_run_length (limit : nat) (maxDistance : Z) (ls : list links.row)
    (queue : list tc_row) :
  (List.length (tc_run limit maxDistance ls queue) <= limit)%nat.
Proof.
  revert queue. induction limit as [|limit IH]; intros queue; cbn [tc_run].
  - apply Nat.le_refl.
  - destruct queue as [|tc queue]; cbn [List.length]; [apply Nat.le_0_l|].
    apply le_n_S, IH.
Qed.

Lemma targets_bound (ls : list links.row) (rest : list Z) :
  NoDup rest ->
  (forall t, In t rest -> exists l, In l ls /\ links.target_id l = Some t) ->
  (List.length rest <= List.length ls)%nat.
Proof.
  intros Hnd Hin.
  apply Nat.le_trans with
    (List.length (flat_map (fun l => match links.target_id l with
                                     | Some t => [t]
                                     | None => []
                                     end) ls)).
  - apply NoDup_incl_length; [exact Hnd|].
    intros t Ht. destruct (Hin t Ht) as [l [Hl Et]].
    apply in_flat_map. exists l. split; [exact Hl|]. rewrite Et. now left.
  - clear. induction ls as [|l ls IH]; [apply Nat.le_refl|].
    cbn [flat_map]. rewrite length_app. cbn [List.length].
    destruct (links.target_id l); cbn [List.length]; lia.
Qed.

(** What the guard [tc.path NOT LIKE ...] keeps true of a chain. *)
Lemma reaches_path (ls : list links.row) (maxDistance : Z) (r : tc_row) :
  reaches ls maxDistance r ->
  ls <> []
  /\ match tc_path r with
     | None => tc_distance r = 1
     | Some p =>
         exists rest,
           p = tc_source_id r :: rest
           /\ NoDup rest
           /\ Z.of_nat (List.length rest) = tc_distance r
           /\ (forall t, In t rest ->
                 exists l, In l ls /\ links.target_id l = Some t)
           /\ ~ In (tc_source_id r) (tl rest)
     end.
Proof.
  induction 1 as [l Hl|tc l p t Htc [Hne IH] Hl Et Ep El Hp Hd].
  - split; [intros E; rewrite E in Hl; contradiction|].
    unfold tc_base. cbn [tc_path tc_distance tc_source_id].
    destruct (links.target_id l) as [t|] eqn:E; cbn [option_map]; [|reflexivity].
    exists [t]. repeat split.
    + constructor; [intros []|constructor].
    + intros t' [<-|[]]. now exists l.
    + intros [].
  - split; [exact Hne|]. cbn [tc_path tc_distance tc_source_id].
    rewrite Ep in IH. destruct IH as [rest [-> [Hnd [Hlen [Hin Hsrc]]]]].
    exists (rest ++ [t]). repeat split.
    + apply NoDup_app; repeat split.
      * exact Hnd.
      * constructor; [intros []|constructor].
      * intros x Hx [<-|[]]. apply Hp. now right.
    + rewrite length_app. cbn [List.length]. lia.
    + intros t' Ht'. apply in_app_or in Ht' as [Ht'|[<-|[]]]; [now apply Hin|].
      now exists l.
    + destruct rest as [|x rest]; [cbn in Hlen; apply reaches_distance in Htc; lia|].
      cbn [tl app] in *. intros Hi. apply in_app_or in Hi as [Hi|[E|[]]].
      * now apply Hsrc.
      * apply Hp. left. now symmetry.
Qed.

(** X12. The closure ends on graphs with cycles, with or without a
    bound on the distance: every row of [transitive_closure] follows at
    least one link and at most as many links as the index holds; after
    the note it starts from, its path lists pairwise distinct notes, one
    per link followed, and it comes back to the note it starts from at
    most as the end of its first link; and the closure never has more than
    100000 rows. *)
Theorem X12_closure_is_finite (ls : list links.row) (maxDistance : Z) (r : tc_row)
    (Hr : In r (transitive_closure maxDistance ls)) :
  1 <= tc_distance r <= Z.of_nat (List.length ls)
  /\ (forall p, tc_path r = Some p ->
        exists rest,
          p = tc_source_id r :: rest
          /\ NoDup rest
          /\ Z.of_nat (List.length rest) = tc_distance r
          /\ ~ In (tc_source_id r) (tl rest))
  /\ (List.length (transitive_closure maxDistance ls) <= tc_limit)%nat.
Proof.
  apply transitive_closure_sound in Hr.
  destruct (reaches_path ls maxDistance r Hr) as [Hne Hp].
  destruct (reaches_distance ls maxDistance r Hr) as [H1 _].
  split; [|split].
  - split; [exact H1|].
    destruct (tc_path r) as [p|].
    + destruct Hp as [rest [_ [Hnd [Hlen [Hin _]]]]].
      pose proof (targets_bound ls rest Hnd Hin). lia.
    + rewrite Hp. destruct ls; [contradiction|]. cbn [List.length]. lia.
  - intros p Ep. rewrite Ep in Hp.
    destruct Hp as [rest [E [Hnd [Hlen [_ Hsrc]]]]]. now exists rest.
  - unfold transitive_closure. apply tc_run_length.
Qed.

Lemma X12_witness :
  In cycle_a_c (transitive_closure 0 (links_tbl (db cycle_index)))
  /\ 1 <= tc_distance cycle_a_c <= 3.
Proof.
  assert (Hr : In cycle_a_c (transitive_closure 0 (links_tbl (db cycle_index)))).
  { vm_compute. do 3 right. left. reflexivity. }
  split; [exact Hr|].
  exact (proj1 (X12_closure_is_finite (links_tbl (db cycle_index)) 0 cycle_a_c Hr)).
Defined.

(** ** Tag groups without negation *)

Lemma has_tag_spec (env : Env) (d : DB) (globs : list string) (n : Z) :
  has_tag env d globs n = true <-> tagged_like env d globs n.
Proof.
  unfold has_tag, tagged_like. rewrite existsb_exists. split.
  - intros [[i c] [Hnc H]]. cbn [fst snd] in H.
    apply andb_true_iff in H as [Hi H]. apply Z.eqb_eq in Hi. subst i.
    apply existsb_exists in H as [t [Ht H]].
    apply andb_true_iff in H as [H Hg]. apply andb_true_iff in H as [Hc Hk].
    apply Z.eqb_eq in Hc. apply String.eqb_eq in Hk.
    apply existsb_exists in Hg as [p [Hp Hg]].
    exists t, p. rewrite Hc. auto.
  - intros [t [p [Ht [Hnc [Hk [Hp Hg]]]]]].
    exists (n, collections.id t). split; [exact Hnc|]. cbn [fst snd].
    rewrite Z.eqb_refl. cbn [andb]. apply existsb_exists. exists t.
    split; [exact Ht|]. rewrite Z.eqb_refl, Hk, String.eqb_refl. cbn [andb].
    apply existsb_exists. now exists p.
Qed.

(** X13. Tag groups without negation, whatever the other filters: for
    every group of [Tags] that has a pattern and no mark of negation,
    every note a successful [Find] returns carries a tag whose name one
    of the patterns of the group matches, unless its path matches an
    include path that is not the last one; the groups hold together. *)
Theorem X13_tag_groups (env : Env) (opts : FinderOpts) (groups : list string)
    (g : string) (s s' : State) (rows : Rows) (n : notes.row)
    (Htags : Tags opts = Some groups)
    (Hin : In g groups)
    (Hpat : patterns_of g <> [])
    (Hpos : group_negated g = false)
    (Hfind : Find env opts s = ((rows, None), s'))
    (Hn : In n (selected rows))
    (Hesc : escapes env opts n = false) :
  tagged_like env (db s) (patterns_of g) (notes.id n).
Proof.
  destruct (Find_ok env opts s s' rows Hfind) as [opts' [s0 [He Hf]]].
  pose proof (expandMentions_same_filters env opts s) as Hsame.
  rewrite He in Hsame. cbn [fst] in Hsame.
  rewrite <- (same_filters_escapes env opts opts' n Hsame) in Hesc.
  destruct Hsame as [_ [_ [Ht _]]]. rewrite Htags in Ht.
  pose proof (keeps_db_expandMentions env opts s) as Hdb.
  rewrite He in Hdb. cbn [snd] in Hdb.
  destruct (findRows_holds env opts' s0 s' rows n Hf Hn Hesc)
    as [b [s1 [Hb [_ Hw]]]].
  destruct (buildFilters_tags env opts' groups s0 s1 b Ht Hb) as [b0 [Hnone G]].
  pose proof (setupTags_adds groups g b0 Hnone Hin Hpat) as Hadd.
  rewrite Hpos in Hadd.
  specialize (Hw _ (grows_where_in _ _ _ G Hadd)).
  cbn [where_holds] in Hw. rewrite Hdb in Hw. now apply has_tag_spec.
Qed.

Lemma X13_witness :
  found_paths (Find sample_env (only_Tags ["foo OR bar"]) tagged_index)
  = (["a"; "b"], None)
  /\ tagged_like sample_env (db tagged_index) ["foo"; "bar"] (notes.id tagged_a).
Proof.
  split; [vm_compute; reflexivity|].
  assert (Hfind : Find sample_env (only_Tags ["foo OR bar"]) tagged_index
                  = ((fst (fst (Find sample_env (only_Tags ["foo OR bar"])
                                  tagged_index)), None),
                     snd (Find sample_env (only_Tags ["foo OR bar"]) tagged_index))).
  { vm_compute. reflexivity. }
  assert (Hn : In tagged_a
                 (selected (fst (fst (Find sample_env (only_Tags ["foo OR bar"])
                                        tagged_index))))).
  { vm_compute. left. reflexivity. }
  assert (Hpat : patterns_of "foo OR bar" <> []).
  { vm_compute. discriminate. }
  exact (X13_tag_groups sample_env (only_Tags ["foo OR bar"]) ["foo OR bar"]
           "foo OR bar" tagged_index _ _ tagged_a eq_refl (or_introl eq_refl)
           Hpat eq_refl Hfind Hn eq_refl).
Defined.

(** ** The ids paths resolve to *)

Lemma query_row_sound (first : DB -> option Z) (s : State) (id : NoteId) :
  snd (fst (query_row first s)) = None ->
  idForRow (fst (fst (query_row first s))) = (id, None) ->
  IsValid id = true ->
  first (db s) = Some id.
Proof.
  unfold query_row, bind, get, ret.
  pose proof (next_outcome_db s) as Hdb.
  destruct (next_outcome s) as [o s1]. cbn [snd] in Hdb.
  destruct o as [|msg|msg]; cbn beta iota; cbn [fst snd].
  - rewrite Hdb. destruct (first (db s)) as [v|]; cbn.
    + intros _ H _. now injection H as <-.
    + intros _ H Hv. injection H as <-. discriminate Hv.
  - discriminate.
  - intros _ H. discriminate H.
Qed.

Lemma findIdByPathPrefix_sound (path : string) (s : State) (id : NoteId) :
  fst (findIdByPathPrefix path s) = (id, None) ->
  IsValid id = true ->
  exists n, In n (notes_tbl (db s)) /\ notes.id n = id
            /\ Str.like (path +s+ "%") (notes.path n) = true.
Proof.
  unfold findIdByPathPrefix, findIdByPathPrefixStmt, bind.
  pose proof (query_row_sound
                (fun d => option_map notes.id
                   (find (fun n => Str.like (path +s+ "%") (notes.path n))
                         (notes_tbl d))) s id) as H.
  destruct (query_row _ s) as [[row err] s1]. cbn [fst snd] in H.
  destruct err as [e|]; [discriminate|]. cbn [ret fst].
  intros Hid Hv. specialize (H eq_refl Hid Hv).
  destruct (find _ (notes_tbl (db s))) as [n|] eqn:F; [|discriminate].
  injection H as <-. apply find_some in F as [Hin Hlike]. now exists n.
Qed.

Lemma findIdsByPathPrefixes_from_sound (all : list string) (paths : list string)
    (ids : list NoteId) (s : State) :
  incl paths all ->
  Forall (resolves_to (db s) all) ids ->
  Forall (resolves_to (db s) all)
         (fst (fst (findIdsByPathPrefixes_from ids paths s)))
  /\ (List.length (fst (fst (findIdsByPathPrefixes_from ids paths s)))
      <= List.length ids + List.length paths)%nat.
Proof.
  revert ids s. induction paths as [|p paths IH]; intros ids s Hincl Hids.
  - cbn. split; [exact Hids|lia].
  - cbn [findIdsByPathPrefixes_from]. unfold bind.
    pose proof (findIdByPathPrefix_sound p s) as Hs.
    pose proof (findIdByPathPrefix_db p s) as Hdb.
    destruct (findIdByPathPrefix p s) as [[id err] s1]. cbn [fst snd] in Hs, Hdb.
    destruct err as [e|]; [cbn; split; [exact Hids|lia]|].
    assert (Hincl' : incl paths all) by (intros x Hx; apply Hincl; now right).
    assert (Hids' : Forall (resolves_to (db s1) all)
                      (if IsValid id then ids ++ [id] else ids)).
    { rewrite Hdb. destruct (IsValid id) eqn:Hv; [|exact Hids].
      apply Forall_app. split; [exact Hids|]. constructor; [|constructor].
      destruct (Hs id eq_refl Hv) as [n [Hn [Ei Hl]]].
      split; [exact Hv|]. exists n, p. repeat split; auto.
      apply Hincl. now left. }
    destruct (IH _ s1 Hincl' Hids') as [H1 H2]. rewrite Hdb in H1.
    split; [exact H1|].
    eapply Nat.le_trans; [exact H2|]. cbn [List.length].
    destruct (IsValid id); [rewrite length_app; cbn [List.length]|]; lia.
Qed.

(** X14. The ids [findIdsByPathPrefixes] returns, whatever the failures
    of the database and whether or not it returns an error: each is valid
    and is the id of a note of the index whose path one of the given paths
    opens, and there are at most as many as paths given. *)
Theorem X14_resolved_ids (paths : list string) (s : State) :
  Forall (resolves_to (db s) paths) (fst (fst (findIdsByPathPrefixes paths s)))
  /\ (List.length (fst (fst (findIdsByPathPrefixes paths s)))
      <= List.length paths)%nat.
Proof.
  unfold findIdsByPathPrefixes.
  destruct (findIdsByPathPrefixes_from_sound paths paths [] s) as [H1 H2].
  - apply incl_refl.
  - constructor.
  - split; [exact H1|exact H2].
Qed.

(** ** The order of [Indexed] *)

Lemma ascii_compare_refl (c : ascii) : Ascii.compare c c = Eq.
Proof. unfold Ascii.compare. apply N.compare_refl. Qed.

Lemma string_compare_le_trans (a b c : string) :
  String.compare a b <> Gt -> String.compare b c <> Gt ->
  String.compare a c <> Gt.
Proof.
  revert b c. induction a as [|x a IH]; intros [|y b] [|z c]; cbn;
    try congruence.
  unfold Ascii.compare.
  destruct (N.compare_spec (N_of_ascii x) (N_of_ascii y)) as [E1|L1|G1];
    destruct (N.compare_spec (N_of_ascii y) (N_of_ascii z)) as [E2|L2|G2];
    try congruence; intros H1 H2.
  - rewrite E1, E2, N.compare_refl. now apply (IH b c).
  - rewrite E1. now apply N.compare_lt_iff in L2 as ->.
  - rewrite <- E2. now apply N.compare_lt_iff in L1 as ->.
  - assert (L : (N_of_ascii x < N_of_ascii z)%N) by lia.
    now apply N.compare_lt_iff in L as ->.
Qed.

Lemma insert_sorted_perm (x : notes.row) (l : list notes.row) :
  Permutation (insert_sorted x l) (x :: l).
Proof.
  induction l as [|y l IH]; cbn [insert_sorted]; [reflexivity|].
  destruct (String.compare _ _); try reflexivity.
  rewrite IH. apply perm_swap.
Qed.

Lemma insert_sorted_sorted (x : notes.row) (l : list notes.row) :
  StronglySorted sortable_le l -> StronglySorted sortable_le (insert_sorted x l).
Proof.
  induction l as [|y l IH]; intros Hs; cbn [insert_sorted].
  - constructor; constructor.
  - inversion Hs as [|y' l' Hl Hy]; subst.
    destruct (String.compare (notes.sortable_path x) (notes.sortable_path y))
      eqn:E.
    + constructor; [exact Hs|]. constructor.
      * unfold sortable_le. congruence.
      * eapply Forall_impl; [|exact Hy]. intros z Hz. unfold sortable_le in *.
        apply (string_compare_le_trans _ (notes.sortable_path y)); congruence.
    + constructor; [exact Hs|]. constructor.
      * unfold sortable_le. congruence.
      * eapply Forall_impl; [|exact Hy]. intros z Hz. unfold sortable_le in *.
        apply (string_compare_le_trans _ (notes.sortable_path y)); congruence.
    + constructor; [now apply IH|].
      eapply Permutation_Forall.
      * symmetry. apply insert_sorted_perm.
      * constructor; [|exact Hy]. unfold sortable_le.
        rewrite String.compare_antisym, E. cbn. discriminate.
Qed.

Lemma order_by_sortable_path_spec (l : list notes.row) :
  Permutation (order_by_sortable_path l) l
  /\ StronglySorted sortable_le (order_by_sortable_path l).
Proof.
  unfold order_by_sortable_path. induction l as [|x l [IHp IHs]]; cbn [fold_right].
  - split; constructor.
  - split.
    + rewrite insert_sorted_perm. now constructor.
    + now apply insert_sorted_sorted.
Qed.

(** X15. [Indexed] on a database that does not fail sends one value per
    note of the index, each with the path and the modification time of
    its note, in ascending order of the sortable paths, and changes
    nothing. *)
Theorem X15_indexed_order (s : State) (Hruns : faults s = []) :
  exists rows,
    Indexed s = ((map (fun n => (notes.path n, notes.modified n)) rows, None), s)
    /\ Permutation rows (notes_tbl (db s))
    /\ StronglySorted sortable_le rows.
Proof.
  exists (order_by_sortable_path (notes_tbl (db s))).
  destruct (order_by_sortable_path_spec (notes_tbl (db s))) as [Hp Hs].
  split; [|split; assumption].
  unfold Indexed, bind. rewrite (next_outcome_runs s Hruns). reflexivity.
Qed.

Lemma X15_witness :
  exists rows,
    Indexed nested_index
    = ((map (fun n => (notes.path n, notes.modified n)) rows, None), nested_index)
    /\ Permutation rows (notes_tbl (db nested_index))
    /\ StronglySorted sortable_le rows.
Proof. exact (X15_indexed_order nested_index eq_refl). Defined.

(** ** Sortable paths *)

Lemma ReplaceAll_separator (c : ascii) (s : string) :
  Str.ReplaceAll (String c s) "/" Str.x01
  = String (if Ascii.eqb c "/" then ascii_of_nat 1 else c)
           (Str.ReplaceAll s "/" Str.x01).
Proof.
  unfold Str.ReplaceAll. cbn [Str.replace_from Str.HasPrefix].
  rewrite (Ascii.eqb_sym "/" c).
  destruct (Ascii.eqb c "/"); cbn; [|reflexivity].
  now destruct s.
Qed.

Lemma ascii_above_one (c : ascii) :
  Nat.ltb 1 (nat_of_ascii c) = true -> (1 < N_of_ascii c)%N.
Proof.
  intros H. apply Nat.ltb_lt in H. unfold nat_of_ascii in H. lia.
Qed.

Lemma sortable_compare (p q : string) :
  printable p = true -> printable q = true ->
  String.compare (Str.ReplaceAll p "/" Str.x01) (Str.ReplaceAll q "/" Str.x01)
  = separator_first p q.
Proof.
  revert q. induction p as [|c p IH]; intros q Hp Hq.
  - destruct q as [|d q]; [reflexivity|].
    rewrite ReplaceAll_separator. reflexivity.
  - destruct q as [|d q]; [rewrite ReplaceAll_separator; reflexivity|].
    rewrite !ReplaceAll_separator. cbn [String.compare separator_first].
    cbn [printable] in Hp, Hq.
    apply andb_true_iff in Hp as [Hc Hp]. apply andb_true_iff in Hq as [Hd Hq].
    apply ascii_above_one in Hc, Hd.
    destruct (Ascii.eqb c d) eqn:Ecd.
    + apply Ascii.eqb_eq in Ecd. subst d.
      rewrite ascii_compare_refl. now apply IH.
    + apply Ascii.eqb_neq in Ecd.
      destruct (Ascii.eqb c "/") eqn:Ec; [|destruct (Ascii.eqb d "/") eqn:Ed].
      * apply Ascii.eqb_eq in Ec. subst c.
        assert (Ed : Ascii.eqb d "/" = false) by (apply Ascii.eqb_neq; congruence).
        rewrite Ed. unfold Ascii.compare.
        change (N_of_ascii (ascii_of_nat 1)) with 1%N.
        now apply N.compare_lt_iff in Hd as ->.
      * unfold Ascii.compare.
        change (N_of_ascii (ascii_of_nat 1)) with 1%N.
        now apply N.compare_gt_iff in Hc as ->.
      * destruct (Ascii.compare c d) eqn:E; try reflexivity.
        apply Ascii.compare_eq_iff in E. contradiction.
Qed.


(** X16. The sortable path [Add] stores orders notes as their paths
    with the separator ranked first: for two paths without the bytes 0
    and 1, comparing byte by byte the sortable paths, in which [\x01]
    stands for [/], gives the order in which [/] comes before every other
    byte and the other bytes keep their order. *)
Theorem X16_sortable_path_order (a b : Metadata.t) (i j : Z) (x y : JsonText)
    (Ha : printable (Metadata.Path a) = true)
    (Hb : printable (Metadata.Path b) = true) :
  String.compare (notes.sortable_path (stored_note i x a))
                 (notes.sortable_path (stored_note j y b))
  = separator_first (Metadata.Path a) (Metadata.Path b).
Proof.
  cbn [stored_note notes.sortable_path]. now apply sortable_compare.
Qed.

Lemma X16_witness :
  String.compare
    (notes.sortable_path (stored_note 1 None (note_at "a/x" "X" 0 [] [])))
    (notes.sortable_path (stored_note 2 None (note_at "a-b" "B" 0 [] [])))
  = Lt
  /\ String.compare "a/x" "a-b" = Gt.
Proof.
  split; [|reflexivity].
  exact (X16_sortable_path_order (note_at "a/x" "X" 0 [] [])
           (note_at "a-b" "B" 0 [] []) 1 2 None None eq_refl eq_refl).
Defined.

(** ** The relation labels of a link *)

Lemma string_app_assoc (a b c : string) : (a +s+ b) +s+ c = a +s+ b +s+ c.
Proof. induction a as [|x a IH]; cbn; [reflexivity|now rewrite IH]. Qed.

Lemma joinLinkRels_cons (a b : string) (rels : list string) :
  joinLinkRels (a :: b :: rels) = Str.x01 +s+ a +s+ joinLinkRels (b :: rels).
Proof.
  unfold joinLinkRels, Str.Join. cbn [String.concat].
  now rewrite !string_app_assoc.
Qed.

(** X17. [joinLinkRels] delimits every label on both sides: the text
    for no label is empty, and in the text for the labels [rels] every
    label of [rels] stands between two bytes [\x01]. *)
Theorem X17_rels_are_delimited (rels : list string) :
  joinLinkRels [] = ""
  /\ forall r, In r rels ->
       contains (joinLinkRels rels) (Str.x01 +s+ r +s+ Str.x01).
Proof.
  split; [reflexivity|].
  induction rels as [|a rels IH]; intros r Hr; [contradiction|].
  destruct rels as [|b rels].
  - destruct Hr as [<-|[]]. exists "", "". unfold joinLinkRels, Str.Join.
    cbn [String.concat]. cbn [String.append].
    induction (Str.x01 +s+ a +s+ Str.x01) as [|c s IHs]; cbn;
      [reflexivity|now rewrite <- IHs].
  - rewrite joinLinkRels_cons. destruct Hr as [<-|Hr].
    + exists "". unfold joinLinkRels, Str.Join.
      exists (String.concat Str.x01 (b :: rels) +s+ Str.x01).
      cbn [String.append]. now rewrite !string_app_assoc.
    + destruct (IH r Hr) as [pre [post E]].
      exists (Str.x01 +s+ a +s+ pre), post. rewrite E.
      now rewrite !string_app_assoc.
Qed.

(** ** The arguments of [zk list] *)

Lemma relPaths_from_spec (RelPath : string -> option string)
    (acc paths : list string) :
  cmd.relPaths_from RelPath acc paths = acc ++ cmd.known_paths RelPath paths.
Proof.
  revert acc. induction paths as [|p paths IH]; intros acc; cbn.
  - now rewrite app_nil_r.
  - destruct (RelPath p) as [r|]; rewrite IH; [|reflexivity].
    now rewrite <- app_assoc.
Qed.

Lemma known_paths_In (RelPath : string -> option string) (paths : list string)
    (r : string) :
  In r (cmd.known_paths RelPath paths)
  <-> exists p, In p paths /\ RelPath p = Some r.
Proof.
  unfold cmd.known_paths. rewrite in_flat_map. split.
  - intros [p [Hp H]]. exists p. split; [exact Hp|].
    destruct (RelPath p) as [r'|]; [|contradiction].
    destruct H as [<-|[]]. reflexivity.
  - intros [p [Hp E]]. exists p. split; [exact Hp|]. rewrite E. now left.
Qed.

(** X18. [relPaths] keeps the paths the notebook can make relative, in
    the order of the arguments, and drops the others without an error;
    its second result tells whether any is left. *)
Theorem X18_relPaths (RelPath : string -> option string) (paths : list string) :
  fst (cmd.relPaths RelPath paths) = cmd.known_paths RelPath paths
  /\ (forall r, In r (fst (cmd.relPaths RelPath paths))
                <-> exists p, In p paths /\ RelPath p = Some r)
  /\ (snd (cmd.relPaths RelPath paths) = true
      <-> exists p r, In p paths /\ RelPath p = Some r)
  /\ (List.length (fst (cmd.relPaths RelPath paths)) <= List.length paths)%nat.
Proof.
  unfold cmd.relPaths. cbn [fst snd]. rewrite relPaths_from_spec. cbn [app].
  split; [reflexivity|]. split; [intros r; apply known_paths_In|]. split.
  - rewrite Nat.ltb_lt. split.
    + intros H. destruct (cmd.known_paths RelPath paths) as [|r l] eqn:E;
        [cbn in H; lia|].
      assert (Hr : In r (cmd.known_paths RelPath paths)) by (rewrite E; now left).
      apply known_paths_In in Hr as [p [Hp Er]]. now exists p, r.
    + intros [p [r [Hp Er]]].
      assert (Hr : In r (cmd.known_paths RelPath paths))
        by (apply known_paths_In; now exists p).
      destruct (cmd.known_paths RelPath paths); [contradiction|cbn; lia].
  - unfold cmd.known_paths. induction paths as [|p paths IH]; [apply Nat.le_refl|].
    cbn [flat_map]. rewrite length_app. cbn [List.length].
    destruct (RelPath p); cbn [List.length]; lia.
Qed.

Example ListOpts_sample :
  cmd.ListOpts cmd.sample_RelPath cmd.sample_parseDate cmd.sample_NewNotEmptyString
    cmd.sample_args
  = (None, Some (ErrMessage "naturaldate: unknown date"))
  /\ cmd.ListOpts cmd.sample_RelPath cmd.sample_parseDate
       cmd.sample_NewNotEmptyString cmd.dated_args
     = (Some {| cmd.note.Format := None;
                cmd.note.Filters :=
                  [ cmd.note.PathFilter ["notes/a"]; cmd.note.MatchFilter "zk";
                    cmd.note.DateFilter 7 cmd.note.DateCreated cmd.note.DateBefore;
                    cmd.note.DateFilter 7 cmd.note.DateModified cmd.note.DateAfter ];
                cmd.note.Limit := 3 |}, None).
Proof. split; reflexivity. Qed.

(** X19. [ListOpts] reads the date arguments in a fixed order and stops
    at the first one that is given and does not parse, with the error of
    [parseDate] and no options.  When every given date parses, it
    returns the format, the limit, and the filters in this order: the
    known paths (if any), the known excluded paths (if any), the match
    expression (if not empty), and one date filter per given date. *)
Theorem X19_ListOpts (RelPath : string -> option string)
    (parseDate : nat -> string -> Z * option Error)
    (NewNotEmptyString : string -> option string) (c : cmd.List) :
  cmd.ListOpts RelPath parseDate NewNotEmptyString c
  = match find (fun a => is_error (cmd.date_error parseDate a))
               (cmd.given_dates c) with
    | Some a => (None, cmd.date_error parseDate a)
    | None =>
        (Some {| cmd.note.Format := NewNotEmptyString (cmd.Format c);
                 cmd.note.Filters :=
                   cmd.leading_filters RelPath c
                   ++ map (cmd.date_filter parseDate) (cmd.given_dates c);
                 cmd.note.Limit := cmd.Limit c |}, None)
    end.
Proof.
  unfold cmd.ListOpts, cmd.relPaths, cmd.leading_filters.
  rewrite !relPaths_from_spec. cbn [app].
  destruct (cmd.known_paths RelPath (cmd.Path c)) as [|p ps];
    destruct (cmd.known_paths RelPath (cmd.Exclude c)) as [|x xs];
    destruct (String.eqb (cmd.Match c) "");
    cbn [List.length Nat.ltb Nat.leb negb app].
  all: unfold cmd.given_dates, cmd.dateFilter, cmd.date_error, cmd.date_filter;
    cbn [filter cmd.text].
  all: destruct (String.eqb (cmd.Created c) "");
    [|destruct (parseDate 0%nat (cmd.Created c)) as [d0 [e0|]] eqn:E0;
      [repeat (cbn; match goal with
                        | E : _ = (_, _) |- _ => rewrite E
                        end);
         cbn; rewrite <- ?app_assoc; reflexivity|]].
  all: destruct (String.eqb (cmd.CreatedBefore c) "");
    [|destruct (parseDate 1%nat (cmd.CreatedBefore c)) as [d1 [e1|]] eqn:E1;
      [repeat (cbn; match goal with
                        | E : _ = (_, _) |- _ => rewrite E
                        end);
         cbn; rewrite <- ?app_assoc; reflexivity|]].
  all: destruct (String.eqb (cmd.CreatedAfter c) "");
    [|destruct (parseDate 2%nat (cmd.CreatedAfter c)) as [d2 [e2|]] eqn:E2;
      [repeat (cbn; match goal with
                        | E : _ = (_, _) |- _ => rewrite E
                        end);
         cbn; rewrite <- ?app_assoc; reflexivity|]].
  all: destruct (String.eqb (cmd.Modified c) "");
    [|destruct (parseDate 3%nat (cmd.Modified c)) as [d3 [e3|]] eqn:E3;
      [repeat (cbn; match goal with
                        | E : _ = (_, _) |- _ => rewrite E
                        end);
         cbn; rewrite <- ?app_assoc; reflexivity|]].
  all: destruct (String.eqb (cmd.ModifiedBefore c) "");
    [|destruct (parseDate 4%nat (cmd.ModifiedBefore c)) as [d4 [e4|]] eqn:E4;
      [repeat (cbn; match goal with
                        | E : _ = (_, _) |- _ => rewrite E
                        end);
         cbn; rewrite <- ?app_assoc; reflexivity|]].
  all: destruct (String.eqb (cmd.ModifiedAfter c) "");
    [|destruct (parseDate 5%nat (cmd.ModifiedAfter c)) as [d5 [e5|]] eqn:E5;
      [repeat (cbn; match goal with
                        | E : _ = (_, _) |- _ => rewrite E
                        end);
         cbn; rewrite <- ?app_assoc; reflexivity|]].
  all: repeat (cbn; match goal with
                        | E : _ = (_, _) |- _ => rewrite E
                        end);
         cbn; rewrite <- ?app_assoc; reflexivity.
Qed.

(** ** What [Add] does to the links of the other notes *)

Lemma backfills_heal (id : NoteId) (path : string) : backfills id (heal id path).
Proof.
  intros l. unfold heal, misses_target.
  destruct (links.target_id l) as [t|] eqn:Et; [now left|].
  destruct (links.external l) eqn:Ex; cbn [negb andb]; [now left|].
  destruct (Str.like _ path); [right; auto|now left].
Qed.

Lemma backfills_none (id : NoteId) : backfills id (fun l => l).
Proof. intros l. now left. Qed.

Lemma map_same {A : Type} (l : list A) : map (fun x => x) l = l.
Proof. induction l as [|a l IH]; cbn; [reflexivity|now rewrite IH]. Qed.

(** Whatever the database does, [addLinks] keeps the links it finds, in
    their order, gives at most a target to some of them, and appends
    links of the note. *)
Lemma addLinks_grows (id : NoteId) (note : Metadata.t) (s : State) :
  exists f own,
    backfills id f
    /\ Forall (fun l => links.source_id l = id) own
    /\ links_tbl (db (snd (addLinks id note s)))
       = map f (links_tbl (db s)) ++ own.
Proof.
  unfold addLinks, bind.
  destruct (addLinks_each_appends id (Metadata.Links note) s) as [own [E F]].
  destruct (addLinks_each id (Metadata.Links note) s) as [err s1].
  cbn [snd] in E. destruct err as [e|].
  - exists (fun l => l), own. split; [apply backfills_none|]. split; [exact F|].
    cbn. now rewrite map_same.
  - unfold setLinksTargetStmt.
    match goal with
    | |- context [exec ?g s1] =>
        destruct (exec_cases g s1) as [[_ Hd]|[_ Hd]]
    end; rewrite Hd.
    + exists (fun l => l), own. split; [apply backfills_none|]. split; [exact F|].
      now rewrite map_same.
    + exists (heal id (Metadata.Path note)),
        (map (heal id (Metadata.Path note)) own).
      split; [apply backfills_heal|]. split.
      * apply Forall_map. eapply Forall_impl; [|exact F].
        intros l Hl. now rewrite heal_source.
      * cbn [links_tbl set_links]. rewrite E, map_app. reflexivity.
Qed.

(** X20. [Add] and the links of the other notes, whatever the record
    and the failures of the database: [Add] deletes no link and moves
    none; of a link it finds it changes at most the target, and only from
    NULL, on a link that is not external, to the id of the new note; the
    links it appends all have the new note as source. *)
Theorem X20_add_keeps_links (env : Env) (note : Metadata.t) (s : State) :
  exists f own,
    backfills (notes_seq (db s) + 1) f
    /\ Forall (fun l => links.source_id l = notes_seq (db s) + 1) own
    /\ links_tbl (db (snd (Add env note s)))
       = map f (links_tbl (db s)) ++ own.
Proof.
  assert (Hsame : forall s', links_tbl (db s') = links_tbl (db s) ->
            exists f own,
              backfills (notes_seq (db s) + 1) f
              /\ Forall (fun l => links.source_id l = notes_seq (db s) + 1) own
              /\ links_tbl (db s') = map f (links_tbl (db s)) ++ own).
  { intros s' H. exists (fun l => l), []. split; [apply backfills_none|].
    split; [constructor|]. now rewrite map_same, app_nil_r. }
  remember (Add env note s) as r eqn:E.
  unfold Add, metadataToJson in E.
  destruct (json_Marshal env (Metadata.Metadata note)) as [json [e|]];
    [subst r; now apply Hsame|].
  unfold bind at 1 in E. unfold addStmt, bind at 1 in E.
  pose proof (next_outcome_db s) as Hd.
  destruct (next_outcome s) as [o s1]. cbn [snd] in Hd.
  destruct (outcome_error o);
    [subst r; apply Hsame; cbn; now rewrite Hd|].
  unfold bind at 1, get in E.
  destruct (existsb (fun n => String.eqb (notes.path n) (Metadata.Path note))
                    (notes_tbl (db s1)));
    [subst r; apply Hsame; cbn; now rewrite Hd|].
  unfold bind at 1, modify, ret in E. cbn [LastInsertId inserted_id] in E.
  unfold bind in E.
  match type of E with
  | context [addLinks ?i note ?st] =>
      destruct (addLinks_grows i note st) as [f [own [Hf [Hown Hl]]]];
      destruct (addLinks i note st) as [err s2]
  end.
  subst r. cbn [snd] in *. cbn in Hl. rewrite Hd in *.
  now exists f, own.
Qed.

(** ** Lists read from one column *)

Lemma Split_without (sep : ascii) (s : string) :
  Str.contains_char sep s = false -> Split s sep = [s].
Proof.
  induction s as [|c s IH]; cbn; [reflexivity|].
  intros H. apply orb_false_iff in H as [Hc Hs].
  rewrite Ascii.eqb_sym, Hc, (IH Hs). reflexivity.
Qed.

Lemma Split_piece (sep : ascii) (a rest : string) :
  Str.contains_char sep a = false ->
  Split (a +s+ String sep rest) sep = a :: Split rest sep.
Proof.
  induction a as [|c a IH]; cbn.
  - intros _. now rewrite Ascii.eqb_refl.
  - intros H. apply orb_false_iff in H as [Hc Ha].
    rewrite Ascii.eqb_sym, Hc, (IH Ha). reflexivity.
Qed.

(** Splitting undoes joining when no piece holds the separator. *)
Lemma Split_Join (sep : ascii) (pieces : list string) :
  pieces <> [] ->
  Forall (fun p => Str.contains_char sep p = false) pieces ->
  Split (Str.Join pieces (String sep EmptyString)) sep = pieces.
Proof.
  unfold Str.Join. induction pieces as [|a pieces IH]; [congruence|].
  intros _ H. inversion H as [|a' l' Ha Hl]; subst.
  destruct pieces as [|b pieces].
  - cbn [String.concat]. now apply Split_without.
  - assert (E : String.concat (String sep EmptyString) (a :: b :: pieces)
                = a +s+ String sep (String.concat (String sep EmptyString)
                                                  (b :: pieces)))
      by reflexivity.
    rewrite E, (Split_piece sep a _ Ha). f_equal.
    apply IH; [discriminate|exact Hl].
Qed.

Lemma RemoveDuplicates_from_spec (res l : list string) :
  NoDup res ->
  NoDup (RemoveDuplicates_from res l)
  /\ (forall x, In x (RemoveDuplicates_from res l) <-> In x res \/ In x l)
  /\ exists kept, RemoveDuplicates_from res l = res ++ kept.
Proof.
  revert res. induction l as [|val l IH]; intros res Hres; cbn [RemoveDuplicates_from].
  - split; [exact Hres|]. split; [intros x; cbn; tauto|].
    exists []. now rewrite app_nil_r.
  - destruct (existsb (String.eqb val) res) eqn:E.
    + destruct (IH res Hres) as [H1 [H2 H3]]. split; [exact H1|]. split; [|exact H3].
      intros x. rewrite H2. cbn [In].
      apply existsb_exists in E as [y [Hy Ey]]. apply String.eqb_eq in Ey. subst y.
      split; [tauto|]. intros [H|[<-|H]]; auto.
    + assert (Hnew : NoDup (res ++ [val])).
      { apply NoDup_app; repeat split.
        - exact Hres.
        - constructor; [intros []|constructor].
        - intros x Hx [Ex|[]]. subst x.
          assert (T : existsb (String.eqb val) res = true).
          { apply existsb_exists. exists val.
            split; [exact Hx|apply String.eqb_refl]. }
          congruence. }
      destruct (IH _ Hnew) as [H1 [H2 [kept H3]]]. split; [exact H1|]. split.
      * intros x. rewrite H2, in_app_iff. cbn [In]. tauto.
      * exists (val :: kept). rewrite H3, <- app_assoc. reflexivity.
Qed.

(** X21. [parseListFromNullString]: a NULL or empty column gives the
    empty list; the list it returns never holds a text twice; and read
    back from the concatenation, with the separator [\x01], of fragments
    that do not hold that byte (and are not all empty), it holds exactly
    those fragments, the first of them first. *)
Theorem X21_list_column (str : NullString.t) (pieces : list string) :
  (NullString.Valid str = false \/ NullString.String str = "" ->
   parseListFromNullString str = [])
  /\ NoDup (parseListFromNullString str)
  /\ (Forall (fun p => Str.contains_char (ascii_of_nat 1) p = false) pieces ->
      Str.Join pieces Str.x01 <> "" ->
      (forall x, In x (parseListFromNullString (concatenated pieces))
                 <-> In x pieces)
      /\ hd_error (parseListFromNullString (concatenated pieces))
         = hd_error pieces).
Proof.
  split; [|split].
  - unfold parseListFromNullString. intros [->| ->]; [reflexivity|].
    now rewrite andb_false_r.
  - unfold parseListFromNullString, RemoveDuplicates.
    destruct (_ && _)%bool; [|constructor].
    apply RemoveDuplicates_from_spec. constructor.
  - intros Hfree Hne.
    assert (Hp : pieces <> []) by (intros ->; now apply Hne).
    unfold parseListFromNullString, concatenated.
    cbn [NullString.Valid NullString.String andb].
    apply String.eqb_neq in Hne. rewrite Hne. cbn [negb].
    change Str.x01 with (String (ascii_of_nat 1) EmptyString).
    rewrite (Split_Join _ pieces Hp Hfree). unfold RemoveDuplicates.
    destruct (RemoveDuplicates_from_spec [] pieces (NoDup_nil _)) as [_ [H2 _]].
    split; [intros x; rewrite H2; cbn; tauto|].
    destruct pieces as [|a pieces]; [contradiction Hp; reflexivity|].
    cbn [RemoveDuplicates_from existsb app].
    destruct (RemoveDuplicates_from_spec [a] pieces) as [_ [_ [kept ->]]];
      [constructor; [intros []|constructor]|reflexivity].
Qed.
